(** * citkid.crs.instrument: tone partitioning, sweeps and noise capture

    A shallow embedding of [src/citkid/crs/instrument.py].

    Modelling conventions.
    - Frequencies (Hz), amplitudes (dBm) and durations (s) are rationals
      [Q], as the value of every finite double is.  The differences
      [nco - fr] that choose the module of a channel and that are compared
      with the bandwidth are rounded as the double-precision subtraction
      rounds them ([fl]: to the nearest double, ties to the even
      mantissa); the other arithmetic is that of the Python floats without
      rounding.
    - A Python [dict] with integer keys is an insertion-ordered association
      list; lookups and updates act on the first entry with the key.
    - The methods of [CRS] and the [ReadoutModule] macros run in a state and
      exception monad over [world], which holds the attributes of [self]
      that the methods assign, the decimation stage of the device, the
      program-ordered trace of commands sent to the device and to the
      operating system, the warnings issued and the files under [tmp/].
    - Values that come from outside the program (samples read from the
      device, the parser output, the draws of [np.random.uniform]) are
      oracles, and the helpers imported from [.util] and [hidfmux] are
      parameters of the development. *)

From Stdlib Require Import String.
From Stdlib Require Import List Bool Arith ZArith QArith Qabs Qround Qpower Qminmax Lia Lqa.
From Stdlib Require Import Permutation.
Import ListNotations.
Open Scope Q_scope.

(** ** Rational arithmetic used by the program *)

(** [a < b] on floats. *)
Definition Qltb (a b : Q) : bool := negb (Qle_bool b a).

(** numpy's [a % b] for a positive divisor: the remainder has the sign of
    the divisor. *)
Definition qmod (a b : Q) : Q := a - b * inject_Z (Qfloor (a / b)).

(** Python's [int(x)]: truncation towards zero. *)
Definition py_int (x : Q) : Z :=
  if Qle_bool 0 x then Qfloor x else Qceiling x.

(** ** Double precision *)

(** [floor(log2 x)] for a positive [x] *)
Definition ilog2 (x : Q) : Z :=
  let c := (Z.log2 (Qnum x) - Z.log2 (Zpos (Qden x)))%Z in
  if Qle_bool (2 ^ c) x then c else (c - 1)%Z.

(** The integer nearest to [y]; halfway between two integers, the even
    one. *)
Definition rne (y : Q) : Z :=
  let n := Qfloor y in
  let r := y - inject_Z n in
  if Qltb r (1 # 2) then n
  else if Qltb (1 # 2) r then (n + 1)%Z
  else if Z.even n then n else (n + 1)%Z.

(** The exponent of the last place of the double nearest to [x >= 0]:
    53 bits of precision, and no exponent below that of the subnormal
    numbers. *)
Definition ulp_exp (x : Q) : Z := Z.max (ilog2 x - 52) (-1074).

(** [x >= 0] rounded to 53 bits. *)
Definition round_fin (x : Q) : Q :=
  inject_Z (rne (x / 2 ^ ulp_exp x)) * 2 ^ ulp_exp x.

(** A result of 2^1024 or more is [inf] in double precision; [inf] is the
    value 2^1024 here, which no double reaches and which compares with
    the doubles and with itself as [inf] does. *)
Definition overflow : Q := 2 ^ 1024.

Definition round_pos (x : Q) : Q :=
  let r := round_fin x in
  if Qle_bool overflow r then overflow else r.

(** The double nearest to [x], ties to the even mantissa: the result of an
    arithmetic operation on doubles whose exact result is [x]. *)
Definition fl (x : Q) : Q :=
  let y := Qred x in
  if Qle_bool 0 y then round_pos y else - round_pos (- y).

(** ** Python containers *)

Definition dict (V : Type) : Type := list (Z * V).

Fixpoint dict_get {V} (d : dict V) (k : Z) : option V :=
  match d with
  | [] => None
  | (k', v) :: r => if Z.eqb k' k then Some v else dict_get r k
  end.

Fixpoint dict_set {V} (d : dict V) (k : Z) (v : V) : dict V :=
  match d with
  | [] => [(k, v)]
  | (k', v') :: r =>
      if Z.eqb k' k then (k', v) :: r else (k', v') :: dict_set r k v
  end.

Definition dict_keys {V} (d : dict V) : list Z := map fst d.

(** [{key: [] for key in keys}] *)
Definition dict_init {V} (keys : list Z) : dict (list V) :=
  fold_left (fun d k => dict_set d k []) keys [].

(** [d[k].append(x)]; [k] is a key of [d] at every use. *)
Definition dict_append {V} (d : dict (list V)) (k : Z) (x : V) : dict (list V) :=
  match dict_get d k with
  | Some l => dict_set d k (l ++ [x])
  | None => d
  end.

(** [enumerate(l)] *)
Definition enumerate {A} (l : list A) : list (nat * A) :=
  combine (seq 0 (length l)) l.

(** [zip(a, b, c)] stops at the shortest argument. *)
Fixpoint zip3 {A B C} (a : list A) (b : list B) (c : list C) : list (A * B * C) :=
  match a, b, c with
  | x :: a', y :: b', z :: c' => (x, y, z) :: zip3 a' b' c'
  | _, _, _ => []
  end.

(** The builtin [min(iterable, key=...)]: the first item whose key is
    smallest; a later item replaces the current one only when its key is
    strictly smaller. *)
Fixpoint min_from {A} (key : A -> Q) (best : A) (l : list A) : A :=
  match l with
  | [] => best
  | x :: r => if Qltb (key x) (key best) then min_from key x r else min_from key best r
  end.

Definition py_min_key {A} (l : list A) (key : A -> Q) : option A :=
  match l with
  | [] => None
  | x :: r => Some (min_from key x r)
  end.

(** [min(l)] and [max(l)] on numbers; [None] stands for the [ValueError] on
    an empty sequence. *)
Definition py_min (l : list Q) : option Q := py_min_key l (fun x => x).

Fixpoint max_from (best : Q) (l : list Q) : Q :=
  match l with
  | [] => best
  | x :: r => if Qltb best x then max_from x r else max_from best r
  end.

Definition py_max (l : list Q) : option Q :=
  match l with
  | [] => None
  | x :: r => Some (max_from x r)
  end.

Fixpoint nat_min_from (best : nat) (l : list nat) : nat :=
  match l with
  | [] => best
  | x :: r => if Nat.ltb x best then nat_min_from x r else nat_min_from best r
  end.

Definition py_min_nat (l : list nat) : option nat :=
  match l with
  | [] => None
  | x :: r => Some (nat_min_from x r)
  end.

(** ** Exceptions *)

Inductive exn : Type :=
| PyException (msg : string)
| ValueError (msg : string)
| FileExistsError (msg : string)
| KeyError
| IndexError
| TypeError
| ZeroDivisionError.

Inductive result (A : Type) : Type :=
| Ok (a : A)
| Raise (e : exn).
Arguments Ok {A} a.
Arguments Raise {A} e.

(** ** Commands and the world *)

Inductive routing : Type := CARRIER | ADC.

(** [10 ** (x / 20)], kept by its exponent in dB. *)
Inductive amplitude : Type := dB20 (x : Q).

(** A call queued in a [tuber_context]. *)
Inductive batched : Type :=
| set_frequency (f : Q) (channel : nat) (module : Z)
| set_amplitude (a : amplitude) (channel : nat) (module : Z).

(** Paths below [tmp/]. *)
Inductive path : Type :=
| tmp_dir                 (* tmp/ *)
| parser_data_dir         (* tmp/parser_data_00/ *)
| zcal_file (module : Z). (* tmp/zcal_{module}.npy *)

Definition path_eqb (p q : path) : bool :=
  match p, q with
  | tmp_dir, tmp_dir => true
  | parser_data_dir, parser_data_dir => true
  | zcal_file m, zcal_file n => Z.eqb m n
  | _, _ => false
  end.

Inductive event : Type :=
| set_fir_stage (stage : Z)
| get_fir_stage
| clear_channels (module : Z)
| tuber_context (calls : list batched)
| set_dmfd_routing (r : routing) (module : Z)
| py_get_samples (n : nat) (module : Z)
| sleep (seconds : Q)
| Popen (parser_loc interface : string) (crs_sn : Z) (num_samps : Z)
| convert_parser_to_z (module : Z) (ntones : nat).

(** The commands addressed to the device. *)
Definition hardware_command (e : event) : bool :=
  match e with
  | set_fir_stage _ | get_fir_stage | clear_channels _ | tuber_context _
  | set_dmfd_routing _ _ | py_get_samples _ _ => true
  | sleep _ | Popen _ _ _ _ | convert_parser_to_z _ _ => false
  end.

Definition is_Popen (e : event) : bool :=
  match e with Popen _ _ _ _ => true | _ => false end.

Inductive warning : Type :=
| UserWarning (msg : string).

Record world : Type := mkWorld {
  nco_freq_dict : dict Q;
  fres_dict : dict (list Q);
  ares_dict : dict (list Q);
  ch_ix_dict : dict (list nat);
  frequencies_dict : dict (list (list Q));
  sample_frequency : Q;
  fir_stage : Z;
  trace : list event;
  warned : list warning;
  rng_pos : nat;
  reads : nat;
  files : list path
}.

Definition with_fres_dict (w : world) (d : dict (list Q)) : world :=
  mkWorld (nco_freq_dict w) d (ares_dict w) (ch_ix_dict w) (frequencies_dict w)
    (sample_frequency w) (fir_stage w) (trace w) (warned w) (rng_pos w) (reads w) (files w).

Definition with_ares_dict (w : world) (d : dict (list Q)) : world :=
  mkWorld (nco_freq_dict w) (fres_dict w) d (ch_ix_dict w) (frequencies_dict w)
    (sample_frequency w) (fir_stage w) (trace w) (warned w) (rng_pos w) (reads w) (files w).

Definition with_ch_ix_dict (w : world) (d : dict (list nat)) : world :=
  mkWorld (nco_freq_dict w) (fres_dict w) (ares_dict w) d (frequencies_dict w)
    (sample_frequency w) (fir_stage w) (trace w) (warned w) (rng_pos w) (reads w) (files w).

Definition with_frequencies_dict (w : world) (d : dict (list (list Q))) : world :=
  mkWorld (nco_freq_dict w) (fres_dict w) (ares_dict w) (ch_ix_dict w) d
    (sample_frequency w) (fir_stage w) (trace w) (warned w) (rng_pos w) (reads w) (files w).

Definition with_sample_frequency (w : world) (x : Q) : world :=
  mkWorld (nco_freq_dict w) (fres_dict w) (ares_dict w) (ch_ix_dict w) (frequencies_dict w)
    x (fir_stage w) (trace w) (warned w) (rng_pos w) (reads w) (files w).

Definition with_fir_stage (w : world) (n : Z) : world :=
  mkWorld (nco_freq_dict w) (fres_dict w) (ares_dict w) (ch_ix_dict w) (frequencies_dict w)
    (sample_frequency w) n (trace w) (warned w) (rng_pos w) (reads w) (files w).

Definition with_trace (w : world) (t : list event) : world :=
  mkWorld (nco_freq_dict w) (fres_dict w) (ares_dict w) (ch_ix_dict w) (frequencies_dict w)
    (sample_frequency w) (fir_stage w) t (warned w) (rng_pos w) (reads w) (files w).

Definition with_warned (w : world) (l : list warning) : world :=
  mkWorld (nco_freq_dict w) (fres_dict w) (ares_dict w) (ch_ix_dict w) (frequencies_dict w)
    (sample_frequency w) (fir_stage w) (trace w) l (rng_pos w) (reads w) (files w).

Definition with_rng_pos (w : world) (n : nat) : world :=
  mkWorld (nco_freq_dict w) (fres_dict w) (ares_dict w) (ch_ix_dict w) (frequencies_dict w)
    (sample_frequency w) (fir_stage w) (trace w) (warned w) n (reads w) (files w).

Definition with_reads (w : world) (n : nat) : world :=
  mkWorld (nco_freq_dict w) (fres_dict w) (ares_dict w) (ch_ix_dict w) (frequencies_dict w)
    (sample_frequency w) (fir_stage w) (trace w) (warned w) (rng_pos w) n (files w).

Definition with_files (w : world) (l : list path) : world :=
  mkWorld (nco_freq_dict w) (fres_dict w) (ares_dict w) (ch_ix_dict w) (frequencies_dict w)
    (sample_frequency w) (fir_stage w) (trace w) (warned w) (rng_pos w) (reads w) l.

(** ** The monad of the methods *)

Definition M (A : Type) : Type := world -> result A * world.

Definition ret {A} (a : A) : M A := fun w => (Ok a, w).

Definition raise {A} (e : exn) : M A := fun w => (Raise e, w).

Definition bind {A B} (m : M A) (k : A -> M B) : M B :=
  fun w =>
    match m w with
    | (Ok a, w') => k a w'
    | (Raise e, w') => (Raise e, w')
    end.

Declare Scope py_scope.
Delimit Scope py_scope with py.
Notation "x <- m ;; k" := (bind m (fun x => k))
  (at level 61, m at next level, right associativity) : py_scope.
Notation "m ;; k" := (bind m (fun _ => k))
  (at level 61, right associativity) : py_scope.
Open Scope py_scope.

Definition get : M world := fun w => (Ok w, w).

Definition modify (f : world -> world) : M unit := fun w => (Ok tt, f w).

(** A lookup whose failure raises [e]. *)
Definition item {A} (o : option A) (e : exn) : M A :=
  match o with
  | Some a => ret a
  | None => raise e
  end.

Fixpoint for_each {A} (l : list A) (body : A -> M unit) : M unit :=
  match l with
  | [] => ret tt
  | x :: r => body x ;; for_each r body
  end.

(** A loop that threads a local value through its body. *)
Fixpoint for_fold {A S} (l : list A) (s : S) (body : S -> A -> M S) : M S :=
  match l with
  | [] => ret s
  | x :: r => s' <- body s x ;; for_fold r s' body
  end.

(** A call on the device or on the operating system, recorded in program
    order. *)
Definition emit (e : event) : M unit :=
  modify (fun w => with_trace w (trace w ++ [e])).

Definition warn (x : warning) : M unit :=
  modify (fun w => with_warned w (warned w ++ [x])).

Notation "' pat <- m ;; k" := (bind m (fun x => match x with pat => k end))
  (at level 61, pat pattern, m at next level, right associativity) : py_scope.

(** ** numpy arrays as lists *)

Definition map2 {A B D} (g : A -> B -> D) (a : list A) (b : list B) : list D :=
  map (fun p => g (fst p) (snd p)) (combine a b).

(** Broadcasting a one-dimensional array to length [n]: its length is [n]
    or 1; [None] stands for the [ValueError] of numpy. *)
Definition np_expand {A} (n : nat) (l : list A) : option (list A) :=
  if Nat.eqb (length l) n then Some l
  else match l with
       | [x] => Some (repeat x n)
       | _ => None
       end.

(** The common length of two broadcast operands. *)
Definition np_len (a b : nat) : option nat :=
  if Nat.eqb a b then Some a
  else if Nat.eqb a 1 then Some b
  else if Nat.eqb b 1 then Some a
  else None.

Definition zip3_with {A B D R} (g : A -> B -> D -> R)
    (a : list A) (b : list B) (d : list D) : list R :=
  map (fun t => match t with (x, y, z) => g x y z end) (zip3 a b d).


Definition broadcast3 {A B D R} (g : A -> B -> D -> R)
    (a : list A) (b : list B) (d : list D) : option (list R) :=
  match np_len (length a) (length b) with
  | None => None
  | Some n =>
      match np_len n (length d) with
      | None => None
      | Some n' =>
          match np_expand n' a, np_expand n' b, np_expand n' d with
          | Some a', Some b', Some d' => Some (zip3_with g a' b' d')
          | _, _, _ => None
          end
      end
  end.

(** [l[i] = x] on a Python list. *)
Fixpoint list_set {A} (l : list A) (i : nat) (x : A) : option (list A) :=
  match l, i with
  | [], _ => None
  | _ :: r, O => Some (x :: r)
  | y :: r, S i' =>
      match list_set r i' x with
      | Some r' => Some (y :: r')
      | None => None
      end
  end.

(** [np.linspace(start, stop, num)] *)
Definition linspace (start stop : Q) (num : nat) : list Q :=
  match num with
  | O => []
  | S O => [start]
  | S n =>
      map (fun i => start + inject_Z (Z.of_nat i) * ((stop - start) / inject_Z (Z.of_nat n)))
          (seq 0 num)
  end.

(** [range(n)] for an integer [n]. *)
Definition range (n : Z) : list nat := seq 0 (Z.to_nat n).

Fixpoint index_of (x : nat) (l : list nat) : option nat :=
  match l with
  | [] => None
  | y :: r =>
      if Nat.eqb y x then Some O
      else match index_of x r with
           | Some i => Some (S i)
           | None => None
           end
  end.

(** Modelled from the spec: [find_key_and_index] is imported from [.util],
    which is not among the sources.  The merge restores the caller's order
    "using the partition's recorded index mapping": for a channel index the
    helper gives the key of the dictionary entry that lists it and the
    position in that entry, and nothing when no entry lists it. *)
Fixpoint find_key_and_index (d : dict (list nat)) (x : nat) : option (Z * nat) :=
  match d with
  | [] => None
  | (k, l) :: r =>
      match index_of x l with
      | Some i => Some (k, i)
      | None => find_key_and_index r x
      end
  end.

(** ** The instrument *)

(** The attributes of a configured [CRS] object that the acquisition
    methods read and never assign, the helpers they import, and the
    oracles for what comes from outside the program. *)
Class Instrument : Type := {
  (** complex samples *)
  sample : Type;
  (** [self.crs_sn], [self.splitter], [self.d.full_scale_dbm] *)
  crs_sn : Z;
  splitter : bool;
  full_scale_dbm : Q;
  (** [util.volts_per_roc] *)
  volts_per_roc : Q;
  (** [transferfunctions.get_comb_sampling_freq()] *)
  comb_sampling_freq : Q;
  (** [util.remove_internal_phaseshift(f, z, zcal)] on scalars *)
  remove_internal_phaseshift : Q -> sample -> sample -> sample;
  (** [z * x] for a real [x] *)
  scale : sample -> Q -> sample;
  (** [z / 10 ** (x / 20)] *)
  div_dB20 : sample -> Q -> sample;
  (** [np.mean] of the samples of one channel *)
  mean : list sample -> sample;
  (** the draws of [np.random.uniform(-50, 50, ...)], in order *)
  uniform : nat -> Q;
  (** what the [k]-th read of [n] samples on a module returns, one row per
      channel ([samples.i + 1j * samples.q]) *)
  adc : nat -> Z -> nat -> list (list sample);
  (** what [util.convert_parser_to_z] reads for a module, one row per tone *)
  parser_data : Z -> nat -> list (list sample)
}.

(** The modules of the device: [range(1, 5)] in [configure_system], the
    only keys that [set_nco] accepts. *)
Definition device_modules : list Z := [1; 2; 3; 4]%Z.

(** [self.d.modules.filter(rfmux.ReadoutModule.module.in_(modules))] *)
Definition modules_in (modules : list Z) : list Z :=
  filter (fun m => existsb (Z.eqb m) modules) device_modules.

(** *** Calls on the device [self.d] and on the operating system *)
Module d.

Definition set_fir_stage (stage : Z) : M unit :=
  emit (set_fir_stage stage) ;;
  modify (fun w => with_fir_stage w stage).

Definition get_fir_stage : M Z :=
  emit get_fir_stage ;;
  w <- get ;;
  ret (fir_stage w).

Definition clear_channels (module : Z) : M unit :=
  emit (clear_channels module).

Definition set_dmfd_routing (r : routing) (module : Z) : M unit :=
  emit (set_dmfd_routing r module).

Definition py_get_samples `{Instrument} (n : nat) (module : Z) : M (list (list sample)) :=
  emit (py_get_samples n module) ;;
  w <- get ;;
  modify (fun w => with_reads w (S (reads w))) ;;
  ret (adc (reads w) module n).

End d.

Definition np_random_uniform `{Instrument} (n : nat) : M (list Q) :=
  w <- get ;;
  modify (fun w => with_rng_pos w (rng_pos w + n)%nat) ;;
  ret (map uniform (seq (rng_pos w) n)).

Definition path_exists (p : path) : M bool :=
  w <- get ;;
  ret (existsb (path_eqb p) (files w)).

(** [os.makedirs(p, exist_ok = True)] *)
Definition makedirs (p : path) : M unit :=
  modify (fun w => if existsb (path_eqb p) (files w) then w
                   else with_files w (files w ++ [p])).

(** [shutil.rmtree('tmp/')]: every [path] lies below [tmp/]. *)
Definition rmtree_tmp : M unit :=
  modify (fun w => with_files w []).

(** ** The macros added to [rfmux.ReadoutModule] *)
Module ReadoutModule.
Section Macros.
Context `{Instrument}.

Definition threshold : Q := 101.

(** [comb_sampling_freq / 512], the width of a filter-bank bin *)
Definition bin_width : Q := comb_sampling_freq / 512.

(** [fres[fres % (comb_sampling_freq / 512) < threshold] += threshold] on one
    entry *)
Definition nudge (f : Q) : Q :=
  if Qltb (qmod f bin_width) threshold then f + threshold else f.

(** [fres += np.random.uniform(-50, 50, fres.shape)] followed by the nudge *)
Definition randomize (fres noise : list Q) : list Q :=
  map nudge (map2 Qplus fres noise).

(** [any(ares > d.full_scale_dbm)] *)
Definition over_full_scale (ares : list Q) : bool :=
  existsb (fun a => Qltb full_scale_dbm a) ares.

(** [any(ares < -60) and len(ares) < 100] *)
Definition low_power (ares : list Q) : bool :=
  existsb (fun a => Qltb a (-60)) ares && Nat.ltb (length ares) 100.

Definition full_scale_error : exn :=
  ValueError "ares must not exceed full_scale_dbm: raise full_scale_dbm or lower powers".

Definition low_power_warning : warning :=
  UserWarning "values in ares are < 60 dBm: digitization noise may occur".

(** The calls queued in the [tuber_context] of [write_tones]; [ares -
    full_scale_dbm] is the exponent of [ares_amplitude]. *)
Definition tone_calls (module_index : Z) (nco : Q) (fres ares : list Q) : list batched :=
  flat_map (fun c => match c with
                     | (ch, (fr, ar)) =>
                         [set_frequency (fr - nco) (S ch) module_index;
                          set_amplitude (dB20 (ar - full_scale_dbm)) (S ch) module_index]
                     end)
           (enumerate (combine fres ares)).

(** [write_tones(module, nco_freq_dict, fres_dict, ares_dict)].  The array
    [fres_dict[module_index]] is changed in place: [store] puts the new
    contents where the caller keeps that array. *)
Definition write_tones (module_index : Z) (nco_freq_dict : dict Q)
    (fres_dict ares_dict : dict (list Q)) (store : list Q -> world -> world) : M unit :=
  fres <- item (dict_get fres_dict module_index) KeyError ;;
  ares <- item (dict_get ares_dict module_index) KeyError ;;
  noise <- np_random_uniform (length fres) ;;
  let fres := randomize fres noise in
  modify (store fres) ;;
  nco <- item (dict_get nco_freq_dict module_index)
              (PyException "NCO frequency has not been set") ;;
  if over_full_scale ares then raise full_scale_error
  else
    (if low_power ares then warn low_power_warning else ret tt) ;;
    d.clear_channels module_index ;;
    emit (tuber_context (tone_calls module_index nco fres ares)).

(** The perturbation of a matrix of frequencies, row by row. *)
Definition randomize_rows (frequencies : list (list Q)) : M (list (list Q)) :=
  for_fold frequencies [] (fun acc row =>
    noise <- np_random_uniform (length row) ;;
    ret (acc ++ [randomize row noise])).

(** [[fi[0] for fi in frequencies]] *)
Fixpoint first_column (frequencies : list (list Q)) : option (list Q) :=
  match frequencies with
  | [] => Some []
  | row :: r =>
      match row, first_column r with
      | x :: _, Some c => Some (x :: c)
      | _, _ => None
      end
  end.

(** One point of the sweep: the frequencies of column [sweep_index] are
    written, then the loopback and the input samples are read and averaged.
    [z] holds the rows filled so far. *)
Definition sweep_point (module_index : Z) (nco_freq : Q) (nsamps : nat)
    (frequencies : list (list Q)) (z : list (list sample)) (sweep_index : nat)
    : M (list (list sample)) :=
  let n_channels := length frequencies in
  let column := map (fun row => nth sweep_index row 0) frequencies in
  emit (tuber_context
          (map (fun c => set_frequency (snd c - nco_freq) (S (fst c)) module_index)
               (enumerate column))) ;;
  d.set_dmfd_routing CARRIER module_index ;;
  emit (sleep 0.5) ;;
  samples_cal <- d.py_get_samples 20 module_index ;;
  d.set_dmfd_routing ADC module_index ;;
  emit (sleep 0.5) ;;
  samples <- d.py_get_samples nsamps module_index ;;
  let zi := map mean (firstn n_channels samples) in
  let zical := map mean (firstn n_channels samples_cal) in
  _ <- item (np_expand n_channels zical) (ValueError "could not broadcast") ;;
  _ <- item (np_expand n_channels (map (fun x => scale x volts_per_roc) zi))
            (ValueError "could not broadcast") ;;
  zi <- item (broadcast3 remove_internal_phaseshift column zi zical)
             (ValueError "operands could not be broadcast together") ;;
  col <- item (np_expand n_channels (map (fun x => scale x volts_per_roc) zi))
              (ValueError "could not broadcast") ;;
  ret (map2 (fun row x => row ++ [x]) z col).

(** [sweep(module, nco_freq_dict, frequencies_dict, ares_dict, sweep_f,
    sweep_z, nsamps)].  The result is the pair of dictionaries [sweep_f],
    [sweep_z] after the call; [store] is as in [write_tones]. *)
Definition sweep (module_index : Z) (nco_freq_dict : dict Q)
    (frequencies_dict : dict (list (list Q))) (ares_dict : dict (list Q))
    (sweep_f : dict (list (list Q))) (sweep_z : dict (list (list sample)))
    (nsamps : nat) (store : list (list Q) -> world -> world)
    : M (dict (list (list Q)) * dict (list (list sample))) :=
  frequencies <- item (dict_get frequencies_dict module_index) KeyError ;;
  ares <- item (dict_get ares_dict module_index) KeyError ;;
  frequencies <- randomize_rows frequencies ;;
  modify (store frequencies) ;;
  if Nat.eqb (length frequencies) 0 then ret (sweep_f, sweep_z)
  else
    nco_freq <- item (dict_get nco_freq_dict module_index) KeyError ;;
    let n_channels := length frequencies in
    let n_points := length (hd [] frequencies) in
    if negb (Nat.eqb (length ares) n_channels) then
      raise (ValueError "ares and frequencies are not the same length")
    else
      fres <- item (first_column frequencies) IndexError ;;
      write_tones module_index nco_freq_dict [(module_index, fres)] ares_dict
                  (fun _ w => w) ;;
      z <- for_fold (seq 0 n_points) (repeat [] n_channels)
             (sweep_point module_index nco_freq nsamps frequencies) ;;
      d.clear_channels module_index ;;
      ret (dict_set sweep_f module_index frequencies, dict_set sweep_z module_index z).

(** [np.save('tmp/zcal_{module_index}.npy', ...)] *)
Definition save_zcal (module_index : Z) : M unit :=
  tmp <- path_exists tmp_dir ;;
  if tmp then makedirs (zcal_file module_index)
  else raise (PyException "FileNotFoundError").

(** [get_noise_cal(module, fres_dict, noise_zcal_dict)]; the result is
    [noise_zcal_dict] after the call. *)
Definition get_noise_cal (module_index : Z) (fres_dict : dict (list Q))
    (noise_zcal_dict : dict (list sample)) : M (dict (list sample)) :=
  fres <- item (dict_get fres_dict module_index) KeyError ;;
  d.set_dmfd_routing CARRIER module_index ;;
  samples_cal <- d.py_get_samples 20 module_index ;;
  let zcal := map mean (firstn (length fres) samples_cal) in
  d.set_dmfd_routing ADC module_index ;;
  save_zcal module_index ;;
  ret (dict_set noise_zcal_dict module_index zcal).

End Macros.
End ReadoutModule.

(** ** The methods of [CRS] *)
Module CRS.
Section Methods.
Context `{Instrument}.

(** [self.nco_freq_dict[k]], for a key [k] of the dictionary *)
Definition nco_of (nco_freq_dict : dict Q) (k : Z) : Q :=
  match dict_get nco_freq_dict k with
  | Some f => f
  | None => 0
  end.

(** [np.abs(self.nco_freq_dict[k] - fr)], the key of [min] in [write_tones] *)
Definition tone_offset (nco_freq_dict : dict Q) (fr : Q) (k : Z) : Q :=
  Qabs (fl (nco_of nco_freq_dict k - fr)).

(** [max([np.abs(self.nco_freq_dict[k] - fr) for fr in [hi, lo]])], the key
    of [min] in [sweep], for [hi = max(freqs)] and [lo = min(freqs)] *)
Definition span_offset (nco_freq_dict : dict Q) (hi lo : Q) (k : Z) : Q :=
  max_from (Qabs (fl (nco_of nco_freq_dict k - hi)))
           [Qabs (fl (nco_of nco_freq_dict k - lo))].

Definition bandwidth : Q := 325e6.

(** [any(np.abs(a - nco) > 325e6)] *)
Definition out_of_band (nco : Q) (a : list Q) : bool :=
  existsb (fun f => Qltb bandwidth (Qabs (fl (f - nco)))) a.

Definition no_nco {A} : M A := raise (PyException "NCO frequencies are not set").

Definition empty_sequence : exn := ValueError "arg is an empty sequence".

Definition fres_out_of_band : exn :=
  ValueError "All of fres must be within 325 MHz of an NCO frequency".

Definition frequencies_out_of_band : exn :=
  ValueError "All of frequencies must be within 325 MHz of an NCO frequency".

(** The body of the loop at lines 118-122 of [write_tones] *)
Definition place_tone (t : nat * Q * Q) : M unit :=
  match t with
  | (ch_ix, fr, ar) =>
      w <- get ;;
      module_index <- item (py_min_key (dict_keys (nco_freq_dict w))
                                       (tone_offset (nco_freq_dict w) fr))
                           empty_sequence ;;
      modify (fun w => with_fres_dict w (dict_append (fres_dict w) module_index fr)) ;;
      modify (fun w => with_ares_dict w (dict_append (ares_dict w) module_index ar)) ;;
      modify (fun w => with_ch_ix_dict w (dict_append (ch_ix_dict w) module_index ch_ix))
  end.

(** The body of the loop at lines 126-128 of [write_tones] *)
Definition check_tones (module_index : Z) : M unit :=
  w <- get ;;
  fres_m <- item (dict_get (fres_dict w) module_index) KeyError ;;
  nco <- item (dict_get (nco_freq_dict w) module_index) KeyError ;;
  if out_of_band nco fres_m then raise fres_out_of_band else ret tt.

(** Lines 112-128 of [write_tones]: the tones are split over the modules
    and the offsets are checked. *)
Definition split_tones (fres ares : list Q) : M unit :=
  w <- get ;;
  if Nat.eqb (length (nco_freq_dict w)) 0 then no_nco
  else
    let keys := dict_keys (nco_freq_dict w) in
    modify (fun w => with_fres_dict w (dict_init keys)) ;;
    modify (fun w => with_ares_dict w (dict_init keys)) ;;
    modify (fun w => with_ch_ix_dict w (dict_init keys)) ;;
    for_each (zip3 (seq 0 (length fres)) fres ares) place_tone ;;
    for_each keys check_tones.

(** Lines 130-132 of [write_tones]: the macro runs on every module that has
    an NCO, one module after the other. *)
Definition write_modules : M unit :=
  w <- get ;;
  let modules := dict_keys (fres_dict w) in
  for_each (modules_in modules) (fun module_index =>
    w <- get ;;
    ReadoutModule.write_tones module_index (nco_freq_dict w) (fres_dict w) (ares_dict w)
      (fun a w => with_fres_dict w (dict_set (fres_dict w) module_index a))).

(** [write_tones(self, fres, ares)] *)
Definition write_tones (fres ares : list Q) : M unit :=
  split_tones fres ares ;;
  write_modules.

(** The body of the loop at lines 156-160 of [sweep] *)
Definition place_channel (t : nat * list Q * Q) : M unit :=
  match t with
  | (ch_ix, freqs, ar) =>
      w <- get ;;
      hi <- item (py_max freqs) empty_sequence ;;
      lo <- item (py_min freqs) empty_sequence ;;
      module_index <- item (py_min_key (dict_keys (nco_freq_dict w))
                                       (span_offset (nco_freq_dict w) hi lo))
                           empty_sequence ;;
      modify (fun w => with_frequencies_dict w
                         (dict_append (frequencies_dict w) module_index freqs)) ;;
      modify (fun w => with_ares_dict w (dict_append (ares_dict w) module_index ar)) ;;
      modify (fun w => with_ch_ix_dict w (dict_append (ch_ix_dict w) module_index ch_ix))
  end.

(** The body of the loop at lines 164-166 of [sweep] *)
Definition check_frequencies (module_index : Z) : M unit :=
  w <- get ;;
  frequencies_m <- item (dict_get (frequencies_dict w) module_index) KeyError ;;
  nco <- item (dict_get (nco_freq_dict w) module_index) KeyError ;;
  if out_of_band nco (concat frequencies_m) then raise frequencies_out_of_band
  else ret tt.

(** Lines 147-166 of [sweep]: the channels are split over the modules and
    the offsets are checked. *)
Definition split_sweep (frequencies : list (list Q)) (ares : list Q) : M unit :=
  w <- get ;;
  if Nat.eqb (length (nco_freq_dict w)) 0 then no_nco
  else
    let keys := dict_keys (nco_freq_dict w) in
    modify (fun w => with_frequencies_dict w (dict_init keys)) ;;
    modify (fun w => with_ares_dict w (dict_init keys)) ;;
    modify (fun w => with_ch_ix_dict w (dict_init keys)) ;;
    for_each (zip3 (seq 0 (length frequencies)) frequencies ares) place_channel ;;
    for_each keys check_frequencies.

(** Lines 172-177 of [sweep]: the macro runs on every module that has an
    NCO, one module after the other. *)
Definition sweep_modules (nsamps : nat)
    : M (dict (list (list Q)) * dict (list (list sample))) :=
  w <- get ;;
  let modules := dict_keys (frequencies_dict w) in
  for_fold (modules_in modules) ([], []) (fun acc module_index =>
    w <- get ;;
    ReadoutModule.sweep module_index (nco_freq_dict w) (frequencies_dict w) (ares_dict w)
      (fst acc) (snd acc) nsamps
      (fun a w => with_frequencies_dict w (dict_set (frequencies_dict w) module_index a))).

(** Lines 179-185 of [sweep]: the rows of the modules are put back at the
    caller's channel indices. *)
Definition merge_sweep (nres : nat) (sweep_f : dict (list (list Q)))
    (sweep_z : dict (list (list sample))) : M (list (list Q) * list (list sample)) :=
  for_fold (seq 0 nres) ([], []) (fun acc res_index =>
    w <- get ;;
    ' (module_index, ch_index) <-
        item (find_key_and_index (ch_ix_dict w) res_index) TypeError ;;
    f_m <- item (dict_get sweep_f module_index) KeyError ;;
    f_row <- item (nth_error f_m ch_index) IndexError ;;
    z_m <- item (dict_get sweep_z module_index) KeyError ;;
    z_row <- item (nth_error z_m ch_index) IndexError ;;
    ret (fst acc ++ [f_row], snd acc ++ [z_row])).

(** A row after [z /= 10 ** (ares[:, np.newaxis] / 20)] and, when the
    splitter is attached, [z /= 10 ** (-10.5 * 2 / 20)] *)
Definition normalized (a : Q) (row : list sample) : list sample :=
  let row := map (fun x => div_dB20 x a) row in
  if splitter then map (fun x => div_dB20 x (-21)) row else row.

(** The two divisions on all rows; [ares] is broadcast to the rows. *)
Definition normalize (z : list (list sample)) (ares : list Q) : M (list (list sample)) :=
  ares <- item (np_expand (length z) ares)
               (ValueError "operands could not be broadcast together") ;;
  ret (map2 (fun row a => normalized a row) z ares).

(** [sweep(self, frequencies, ares, nsamps)] *)
Definition sweep (frequencies : list (list Q)) (ares : list Q) (nsamps : nat)
    : M (list (list Q) * list (list sample)) :=
  split_sweep frequencies ares ;;
  d.set_fir_stage 6 ;;
  ' (sweep_f, sweep_z) <- sweep_modules nsamps ;;
  ' (f, z) <- merge_sweep (length frequencies) sweep_f sweep_z ;;
  z <- normalize z ares ;;
  ret (f, z).

(** [sweep_linear(self, fres, ares, bw, npoints, nsamps)] *)
Definition sweep_linear (fres ares : list Q) (bw : Q) (npoints nsamps : nat)
    : M (list (list Q) * list (list sample)) :=
  let f := map (fun fr => linspace (fr + bw / 2) (fr - bw / 2) npoints) fres in
  sweep f ares nsamps.


(** [ix = np.argsort(f); f, z = f[ix], z[ix]] *)
Fixpoint insert_by_f (p : Q * sample) (l : list (Q * sample)) : list (Q * sample) :=
  match l with
  | [] => [p]
  | q :: r => if Qltb (fst q) (fst p) || Qeq_bool (fst q) (fst p)
              then q :: insert_by_f p r else p :: l
  end.

Definition sort_by_f (l : list (Q * sample)) : list (Q * sample) :=
  fold_left (fun acc p => insert_by_f p acc) l [].

(** [sweep_full(self, amplitude, npoints, nsamps)] *)
Definition sweep_full (amplitude : Q) (npoints nsamps : nat)
    : M (list Q * list sample) :=
  w <- get ;;
  let ncos := map snd (nco_freq_dict w) in
  let bw := 600e6 / 1024 + 200 in
  if Nat.eqb npoints 0 then raise ZeroDivisionError
  else
    let spacing := bw / inject_Z (Z.of_nat npoints) in
    if Nat.eqb (length ncos) 0 then
      raise (ValueError "need at least one array to concatenate")
    else
      let fres := concat (map (fun nco => linspace (nco - 300e6 + 10 + bw)
                                                   (nco + 300e6 - 10 - bw) 1024) ncos) in
      let ares := map (fun _ => amplitude * 1) fres in
      ' (f, z) <- sweep_linear fres ares (bw - spacing) npoints nsamps ;;
      let sorted := sort_by_f (combine (concat f) (concat z)) in
      ret (map fst sorted, map snd sorted).

(** Lines 353-363 of [capture_noise]: the checks made before the device is
    touched.  ([self.d.modules[module_index - 1]] at line 354 only looks the
    module objects up; the list is not used.) *)
Definition precapture (stage : Z) : M unit :=
  (if Z.leb stage 4 then warn (UserWarning "packets will drop if fir_stage < 5")
   else ret tt) ;;
  makedirs tmp_dir ;;
  stale <- path_exists parser_data_dir ;;
  if stale then raise (FileExistsError "tmp/parser_data_00/ already exists")
  else ret tt.

(** Lines 363-376: the decimation is set, the tones are written and one
    calibration frame per module is read. *)
Definition prepare_capture (fres ares : list Q) (stage : Z) (verbose : bool)
    : M (dict (list sample)) :=
  d.set_fir_stage stage ;;
  modify (fun w => with_sample_frequency w (625e6 / (256 * 64 * 2 ^ stage))) ;;
  (if verbose then _ <- d.get_fir_stage ;; ret tt else ret tt) ;;
  write_tones fres ares ;;
  emit (sleep 1) ;;
  w <- get ;;
  let modules := dict_keys (ch_ix_dict w) in
  noise_zcal_dict <-
    for_fold (modules_in modules) [] (fun acc module_index =>
      w <- get ;;
      ReadoutModule.get_noise_cal module_index (fres_dict w) acc) ;;
  emit (sleep 0.1) ;;
  ret noise_zcal_dict.

(** Lines 380-390: the parser is started, the method sleeps for
    [int(noise_time) + 20] seconds and the decimation is set to 6. *)
Definition run_parser (noise_time : Q) (parser_loc interface : string) : M unit :=
  w <- get ;;
  let num_samps := py_int (sample_frequency w * (noise_time + 10)) in
  emit (Popen parser_loc interface crs_sn num_samps) ;;
  for_each (range (py_int noise_time + 20)) (fun _ => emit (sleep 1)) ;;
  d.set_fir_stage 6.

(** The three lists [z], [zraw], [zcal] of [capture_noise]; an entry of
    [zcal] that was never assigned is [None]. *)
Definition streams : Type :=
  (list (list sample) * list (list sample) * list (option sample))%type.

(** Lines 400-402, the body of the inner loop: the rows of one tone are
    put at its channel index; [None] stands for an [IndexError]. *)
Definition put_channel (zi zrawi : list (list sample)) (zcal_m : list sample)
    (acc : streams) (c : nat * nat) : option streams :=
  match acc, c with
  | (z, zraw, zcal), (index, ch_index) =>
      match nth_error zi index with
      | None => None
      | Some zi_row =>
          match list_set z ch_index zi_row with
          | None => None
          | Some z =>
              match nth_error zrawi index with
              | None => None
              | Some zrawi_row =>
                  match list_set zraw ch_index zrawi_row with
                  | None => None
                  | Some zraw =>
                      match nth_error zcal_m index with
                      | None => None
                      | Some zcal_x =>
                          match list_set zcal ch_index (Some zcal_x) with
                          | None => None
                          | Some zcal => Some (z, zraw, zcal)
                          end
                      end
                  end
              end
          end
      end
  end.

(** [remove_internal_phaseshift(fres[:, np.newaxis], zrawi, zcal[:,
    np.newaxis])]: the rows are broadcast, the samples of a row share the
    frequency and the calibration of the row. *)
Definition calibrate (fres_m : list Q) (zrawi : list (list sample)) (zcal_m : list sample)
    : option (list (list sample)) :=
  broadcast3 (fun f row c => map (fun x => remove_internal_phaseshift f x c) row)
             fres_m zrawi zcal_m.

(** Lines 397-402: the data of one module is read, calibrated and put at
    the channel indices of the module. *)
Definition import_module (noise_zcal_dict : dict (list sample)) (acc : streams)
    (module_index : Z) : M streams :=
  w <- get ;;
  ch_ix <- item (dict_get (ch_ix_dict w) module_index) KeyError ;;
  emit (convert_parser_to_z module_index (length ch_ix)) ;;
  let zrawi := parser_data module_index (length ch_ix) in
  fres_m <- item (dict_get (fres_dict w) module_index) KeyError ;;
  zcal_m <- item (dict_get noise_zcal_dict module_index) KeyError ;;
  zi <- item (calibrate fres_m zrawi zcal_m)
             (ValueError "operands could not be broadcast together") ;;
  for_fold (enumerate ch_ix) acc (fun acc c =>
    item (put_channel zi zrawi zcal_m acc c) IndexError).

(** Lines 392-402: the streams of all modules at the caller's indices. *)
Definition gather_streams (nres : nat) (module_indices : list Z)
    (noise_zcal_dict : dict (list sample)) : M streams :=
  for_fold module_indices (repeat [] nres, repeat [] nres, repeat None nres)
           (import_module noise_zcal_dict).

(** Lines 403-406: the streams are cut to the shortest one. *)
Definition cut_streams (s : streams) : M streams :=
  match s with
  | (z, zraw, zcal) =>
      data_len <- item (py_min_nat (map (@length sample) z)) empty_sequence ;;
      ret (map (firstn data_len) z, map (firstn data_len) zraw, zcal)
  end.

(** Lines 392-406: the streams of all modules, cut to the shortest one. *)
Definition import_streams (nres : nat) (module_indices : list Z)
    (noise_zcal_dict : dict (list sample)) : M streams :=
  s <- gather_streams nres module_indices noise_zcal_dict ;;
  cut_streams s.

(** Lines 392-415: the streams are imported, the parser data is deleted on
    request and the streams are scaled by the amplitudes. *)
Definition collect (nres : nat) (ares : list Q) (module_indices : list Z)
    (noise_zcal_dict : dict (list sample)) (delete_parser_data return_raw : bool)
    : M (list (list sample) * option (list (option sample) * list (list sample))) :=
  ' (z, zraw, zcal) <- import_streams nres module_indices noise_zcal_dict ;;
  (if delete_parser_data then rmtree_tmp else ret tt) ;;
  z <- normalize z ares ;;
  ret (z, if return_raw then Some (zcal, zraw) else None).

(** [capture_noise(self, fres, ares, noise_time, fir_stage, parser_loc,
    interface, delete_parser_data, verbose, return_raw)]; the result is [z],
    with [zcal] and [zraw] when [return_raw] is set. *)
Definition capture_noise (fres ares : list Q) (noise_time : Q) (stage : Z)
    (parser_loc interface : string) (delete_parser_data verbose return_raw : bool)
    : M (list (list sample) * option (list (option sample) * list (list sample))) :=
  w <- get ;;
  let module_indices := dict_keys (nco_freq_dict w) in
  precapture stage ;;
  noise_zcal_dict <- prepare_capture fres ares stage verbose ;;
  run_parser noise_time parser_loc interface ;;
  collect (length fres) ares module_indices noise_zcal_dict delete_parser_data return_raw.

(** [np.arange(start, stop, 1)] on integers *)
Definition np_arange (start stop : Z) : list Z :=
  map (fun i => (start + Z.of_nat i)%Z) (seq 0 (Z.to_nat (stop - start))).

(** [np.argmin(a)]: the first index of a least entry *)
Definition np_argmin (a : list Q) : nat :=
  match py_min_key (seq 0 (length a)) (fun i => nth i a 0) with
  | Some i => i
  | None => 0%nat
  end.

Definition too_far : exn :=
  ValueError "Frequency must be within 300 MHz of an NCO frequency".

Definition no_sz_noise_dict : exn :=
  PyException "AttributeError: 'CRS' object has no attribute 'sz_noise_dict'".

(** [capture_fast_noise(self, frequency, amplitude, time, verbose)].  The
    check at line 283 is [np.abs(frequency - nco > 300e6)], the absolute
    value of a comparison, which holds when [frequency - nco > 300e6].
    The first call on the device, at line 295, is written
    [self.sz_noise_dict.set_dmfd_routing(...)]: no method assigns an
    attribute [sz_noise_dict], so the lookup raises [AttributeError] and
    lines 296-323 are not reached. *)
Definition capture_fast_noise (frequency amplitude time : Q) (verbose : bool)
    : M (list Q * list sample) :=
  w <- get ;;
  module_index <- item (py_min_key (dict_keys (nco_freq_dict w))
                                   (tone_offset (nco_freq_dict w) frequency))
                       empty_sequence ;;
  nco <- item (dict_get (nco_freq_dict w) module_index) KeyError ;;
  if Qltb 300e6 (fl (frequency - nco)) then raise too_far
  else
    let fsample := 625e6 / 256 in
    let nsamps := py_int (time * fsample) in
    let comb_sampling_freq := 625e6 in
    let bin_centers :=
      map (fun k => inject_Z k * comb_sampling_freq / 512) (np_arange (-256) 256) in
    let nco_freq0 := nco in
    let frd := frequency - nco_freq0 in
    let ix := np_argmin (map (fun c => Qabs (frd - c)) bin_centers) in
    let center_offset_freq := frd - nth ix bin_centers 0 in
    let nco_freq_dict_temp := [(module_index, nco_freq0 + center_offset_freq)] in
    raise no_sz_noise_dict.

End Methods.
End CRS.

(** ** The configuration of the instrument

    [CRS.__init__], [CRS.configure_system], [CRS.set_nco] and the macro
    [set_nco] act on attributes and on registers of the device that the
    acquisition methods only read.  They run in a state and exception monad
    over [rig]: the attributes they assign, the timestamp port and the NCO
    registers of the device, and the commands sent to it.  The device keeps
    what it is sent: a read of the timestamp port returns the port last
    set, and a read of an NCO returns [tune f] for the frequency [f] last
    set on that module, where [tune] is the rounding of the hardware. *)
Module Setup.

Inductive command : Type :=
| resolve
| get_timestamp_port
| set_timestamp_port (port : string)
| set_clock_source (clock_source : string)
| set_analog_bank (high : bool)
| set_dmfd_routing (r : routing) (module : Z)
| set_dac_scale (dbm : Q) (module : Z)
| sleep (seconds : Q)
| get_clock_source
| set_nco_frequency (f : Q) (module : Z)
| get_nco_frequency (module : Z).

Record rig : Type := mkRig {
  (** [self.nco_freq_dict] *)
  nco_freq_dict : dict Q;
  (** [self.analog_bank_high], which [__init__] does not assign *)
  analog_bank_high : option bool;
  (** [self.full_scale_dbm], which [__init__] does not assign *)
  full_scale_dbm : option Q;
  (** the timestamp port of the device *)
  timestamp_port : string;
  (** the NCO of the modules of the device, numbered 1 to 8 *)
  nco_frequency : dict Q;
  (** the commands sent to the device, in program order *)
  commands : list command
}.

Definition with_nco_freq_dict (r : rig) (x : dict Q) : rig :=
  mkRig x (analog_bank_high r) (full_scale_dbm r) (timestamp_port r) (nco_frequency r)
        (commands r).

Definition with_analog_bank_high (r : rig) (x : option bool) : rig :=
  mkRig (nco_freq_dict r) x (full_scale_dbm r) (timestamp_port r) (nco_frequency r)
        (commands r).

Definition with_full_scale_dbm (r : rig) (x : option Q) : rig :=
  mkRig (nco_freq_dict r) (analog_bank_high r) x (timestamp_port r) (nco_frequency r)
        (commands r).

Definition with_timestamp_port (r : rig) (x : string) : rig :=
  mkRig (nco_freq_dict r) (analog_bank_high r) (full_scale_dbm r) x (nco_frequency r)
        (commands r).

Definition with_nco_frequency (r : rig) (x : dict Q) : rig :=
  mkRig (nco_freq_dict r) (analog_bank_high r) (full_scale_dbm r) (timestamp_port r) x
        (commands r).

Definition with_commands (r : rig) (x : list command) : rig :=
  mkRig (nco_freq_dict r) (analog_bank_high r) (full_scale_dbm r) (timestamp_port r)
        (nco_frequency r) x.

Definition S (A : Type) : Type := rig -> result A * rig.

Definition ret {A} (a : A) : S A := fun r => (Ok a, r).

Definition raise {A} (e : exn) : S A := fun r => (Raise e, r).

Definition bind {A B} (m : S A) (k : A -> S B) : S B :=
  fun r =>
    match m r with
    | (Ok a, r') => k a r'
    | (Raise e, r') => (Raise e, r')
    end.

Declare Scope setup_scope.
Delimit Scope setup_scope with setup.
Notation "x <- m ;; k" := (bind m (fun x => k))
  (at level 61, m at next level, right associativity) : setup_scope.
Notation "m ;; k" := (bind m (fun _ => k))
  (at level 61, right associativity) : setup_scope.
Local Open Scope setup_scope.

Definition get : S rig := fun r => (Ok r, r).

Definition modify (f : rig -> rig) : S unit := fun r => (Ok tt, f r).

Definition item {A} (o : option A) (e : exn) : S A :=
  match o with
  | Some a => ret a
  | None => raise e
  end.

Fixpoint for_each {A} (l : list A) (body : A -> S unit) : S unit :=
  match l with
  | [] => ret tt
  | x :: r => body x ;; for_each r body
  end.

Definition send (c : command) : S unit :=
  modify (fun r => with_commands r (commands r ++ [c])).

(** The register of a module of the device; one that was never set reads
    as 0. *)
Definition register (regs : dict Q) (module : Z) : Q :=
  match dict_get regs module with
  | Some f => f
  | None => 0
  end.

(** *** Calls on the device [self.d] *)
Module d.

Definition resolve : S unit := send resolve.

Definition get_timestamp_port : S string :=
  send get_timestamp_port ;;
  r <- get ;;
  ret (timestamp_port r).

Definition set_timestamp_port (port : string) : S unit :=
  send (set_timestamp_port port) ;;
  modify (fun r => with_timestamp_port r port).

Definition set_clock_source (clock_source : string) : S unit :=
  send (set_clock_source clock_source).

Definition get_clock_source : S unit := send get_clock_source.

Definition set_analog_bank (high : bool) : S unit := send (set_analog_bank high).

Definition set_dmfd_routing (x : routing) (module : Z) : S unit :=
  send (set_dmfd_routing x module).

Definition set_dac_scale (dbm : Q) (module : Z) : S unit :=
  send (set_dac_scale dbm module).

Definition set_nco_frequency (tune : Q -> Q) (f : Q) (module : Z) : S unit :=
  send (set_nco_frequency f module) ;;
  modify (fun r => with_nco_frequency r (dict_set (nco_frequency r) module (tune f))).

Definition get_nco_frequency (module : Z) : S Q :=
  send (get_nco_frequency module) ;;
  r <- get ;;
  ret (register (nco_frequency r) module).

End d.

(** [CRS.__init__]: the table of NCO frequencies starts empty; [port] is
    the timestamp port of the device at that time. *)
Definition init (port : string) : rig := mkRig [] None None port [] [].

Definition not_configured : exn :=
  PyException "AttributeError: 'CRS' object has no attribute 'analog_bank_high'".

Definition bad_module : exn := ValueError "modules must be in range [1, 4]".

Definition bad_nco : exn :=
  ValueError "NCOs must be less than 2.175 GHz to avoid Nyquist reflections".

Section Methods.
Variable tune : Q -> Q.

(** [configure_system(self, clock_source, full_scale_dbm, analog_bank_high,
    verbose)] *)
Definition configure_system (clock_source : string) (full_scale_dbm : Q)
    (analog_bank_high verbose : bool) : S unit :=
  d.resolve ;;
  port <- d.get_timestamp_port ;;
  let just_booted := negb (String.eqb port "TEST") in
  (if just_booted then d.set_timestamp_port "TEST" else ret tt) ;;
  d.set_clock_source clock_source ;;
  d.set_analog_bank analog_bank_high ;;
  modify (fun r => with_analog_bank_high r (Some analog_bank_high)) ;;
  for_each [1; 2; 3; 4]%Z (fun module_index =>
    d.set_dmfd_routing ADC module_index ;;
    let m := if analog_bank_high then (module_index + 4)%Z else module_index in
    d.set_dac_scale full_scale_dbm m) ;;
  modify (fun r => with_full_scale_dbm r (Some full_scale_dbm)) ;;
  send (sleep 1) ;;
  if verbose then d.get_clock_source else ret tt.

(** The macro [set_nco(module, nco_freq_dict, analog_bank_high)] *)
Definition set_nco_module (module_index : Z) (nco_freq_dict : dict Q)
    (analog_bank_high : bool) : S unit :=
  nco_freq <- item (dict_get nco_freq_dict module_index) KeyError ;;
  let module_index := if analog_bank_high then (module_index + 4)%Z else module_index in
  d.set_nco_frequency tune nco_freq module_index.

(** [any([m not in [1,2,3,4] for m in modules])] *)
Definition outside_device (modules : list Z) : bool :=
  existsb (fun m => negb (existsb (Z.eqb m) [1; 2; 3; 4]%Z)) modules.

(** [any([nco > 2.5e9 - 325e6 for nco in nco_freq_dict.values()])] *)
Definition above_nyquist (ncos : list Q) : bool :=
  existsb (fun nco => Qltb (2.5e9 - 325e6) nco) ncos.

(** The loop at lines 92-100 of [set_nco]: the NCO of every module is read
    back from the device into [self.nco_freq_dict]. *)
Definition read_back (kv : Z * Q) : S unit :=
  r <- get ;;
  high <- item (analog_bank_high r) not_configured ;;
  let i := if high then 4%Z else 0%Z in
  f <- d.get_nco_frequency (fst kv + i) ;;
  modify (fun r => with_nco_freq_dict r (dict_set (nco_freq_dict r) (fst kv) f)).

(** [set_nco(self, nco_freq_dict, verbose)] *)
Definition set_nco (nco_freq_dict : dict Q) (verbose : bool) : S unit :=
  let modules := dict_keys nco_freq_dict in
  if outside_device modules then raise bad_module
  else if above_nyquist (map snd nco_freq_dict) then raise bad_nco
  else
    r <- get ;;
    high <- item (analog_bank_high r) not_configured ;;
    for_each (modules_in modules) (fun module_index =>
      set_nco_module module_index nco_freq_dict high) ;;
    for_each nco_freq_dict read_back.

End Methods.
End Setup.

(** * Properties *)

(** ** Comparisons *)

Lemma Qltb_lt (a b : Q) : Qltb a b = true <-> a < b.
Proof.
  unfold Qltb. rewrite negb_true_iff. split; intro E.
  - apply Qnot_le_lt. intro L. apply Qle_bool_iff in L. congruence.
  - destruct (Qle_bool b a) eqn:L; [|reflexivity].
    apply Qle_bool_iff in L. exfalso. exact (Qlt_not_le _ _ E L).
Qed.

Lemma Qltb_ge (a b : Q) : Qltb a b = false <-> b <= a.
Proof.
  unfold Qltb. rewrite negb_false_iff. apply Qle_bool_iff.
Qed.

(** ** Double precision *)

(** *** Powers of two *)

Lemma pow2_pos (e : Z) : 0 < 2 ^ e.
Proof. apply Qpower_0_lt. reflexivity. Qed.

Lemma pow2_le (a b : Z) : (a <= b)%Z -> 2 ^ a <= 2 ^ b.
Proof. intro L. apply Qpower_le_compat_l; [exact L|discriminate]. Qed.

Lemma pow2_lt (a b : Z) : (a < b)%Z -> 2 ^ a < 2 ^ b.
Proof. intro L. apply Qpower_lt_compat_l; [exact L|reflexivity]. Qed.

Lemma pow2_plus (a b : Z) : 2 ^ (a + b) == 2 ^ a * 2 ^ b.
Proof. apply Qpower_plus. discriminate. Qed.

Lemma pow2_succ (a : Z) : 2 ^ (a + 1) == 2 * 2 ^ a.
Proof. rewrite pow2_plus. change (2 ^ 1) with 2. ring. Qed.

Lemma pow2_Z (n : Z) : (0 <= n)%Z -> inject_Z (2 ^ n) == 2 ^ n.
Proof. intro L. now rewrite Zpower_Qpower. Qed.

Lemma div_mult_ge (a b d : Q) : 0 < a -> 0 < b -> b <= d -> a <= a / b * d.
Proof.
  intros A B L.
  assert (E : a / b * d == a * (d / b)) by (field; intro Z; rewrite Z in B; discriminate).
  rewrite E. rewrite <- (Qmult_1_r a) at 1. apply Qmult_le_l; [exact A|].
  apply Qle_shift_div_l; [exact B|]. now rewrite Qmult_1_l.
Qed.

Lemma div_mult_lt (a b d : Q) : 0 < a -> 0 < b -> d < b -> a / b * d < a.
Proof.
  intros A B L.
  assert (E : a / b * d == a * (d / b)) by (field; intro Z; rewrite Z in B; discriminate).
  rewrite E. rewrite <- (Qmult_1_r a) at 2. apply Qmult_lt_l; [exact A|].
  apply Qlt_shift_div_r; [exact B|]. now rewrite Qmult_1_l.
Qed.

(** *** The logarithm *)

Lemma ilog2_spec (x : Q) : 0 < x -> 2 ^ ilog2 x <= x /\ x < 2 ^ (ilog2 x + 1).
Proof.
  intro P. destruct x as [n d]. 
  assert (Pn : (0 < n)%Z).
  { unfold Qlt in P. simpl in P. lia. }
  unfold ilog2. cbn [Qnum Qden].
  set (ln := Z.log2 n). set (ld := Z.log2 (Z.pos d)).
  destruct (Z.log2_spec n Pn) as [N1 N2]. fold ln in N1, N2.
  destruct (Z.log2_spec (Z.pos d) eq_refl) as [D1 D2]. fold ld in D1, D2.
  assert (Ln : (0 <= ln)%Z) by apply Z.log2_nonneg.
  assert (Ld : (0 <= ld)%Z) by apply Z.log2_nonneg.
  assert (X : n # d == inject_Z n / inject_Z (Z.pos d)) by apply Qmake_Qdiv.
  assert (Pd : 0 < inject_Z (Z.pos d)) by reflexivity.
  assert (Hi : n # d < 2 ^ (ln - ld + 1)).
  { rewrite X. apply Qlt_shift_div_r; [exact Pd|].
    replace (ln - ld + 1)%Z with ((ln + 1) - ld)%Z by lia.
    rewrite Qpower_minus by discriminate.
    apply Qlt_le_trans with (2 ^ (ln + 1)).
    - rewrite <- pow2_Z by lia. rewrite <- Zlt_Qlt. replace (ln + 1)%Z with (Z.succ ln) by lia. exact N2.
    - apply div_mult_ge; [apply pow2_pos|apply pow2_pos|].
      rewrite <- pow2_Z by lia. now rewrite <- Zle_Qle. }
  assert (Lo : 2 ^ (ln - ld - 1) < n # d).
  { rewrite X. apply Qlt_shift_div_l; [exact Pd|].
    replace (ln - ld - 1)%Z with (ln - (ld + 1))%Z by lia.
    rewrite Qpower_minus by discriminate.
    apply Qlt_le_trans with (2 ^ ln).
    - apply div_mult_lt; [apply pow2_pos|apply pow2_pos|].
      rewrite <- pow2_Z by lia. rewrite <- Zlt_Qlt.
      replace (ld + 1)%Z with (Z.succ ld) by lia. exact D2.
    - rewrite <- pow2_Z by lia. now rewrite <- Zle_Qle. }
  destruct (Qle_bool (2 ^ (ln - ld)) (n # d)) eqn:E.
  - apply Qle_bool_iff in E. split; assumption.
  - split; [now apply Qlt_le_weak|].
    replace (ln - ld - 1 + 1)%Z with (ln - ld)%Z by lia.
    apply Qnot_le_lt. intro L. apply Qle_bool_iff in L. congruence.
Qed.

Lemma ilog2_unique (x : Q) (l : Z) : 2 ^ l <= x -> x < 2 ^ (l + 1) -> ilog2 x = l.
Proof.
  intros A B.
  assert (P : 0 < x) by (apply Qlt_le_trans with (2 ^ l); [apply pow2_pos|exact A]).
  destruct (ilog2_spec x P) as [C D].
  assert (L1 : (l < ilog2 x + 1)%Z).
  { apply Qpower_lt_compat_l_inv with 2; [|reflexivity].
    apply Qle_lt_trans with x; assumption. }
  assert (L2 : (ilog2 x < l + 1)%Z).
  { apply Qpower_lt_compat_l_inv with 2; [|reflexivity].
    apply Qle_lt_trans with x; assumption. }
  lia.
Qed.

Lemma ilog2_le (x y : Q) : 0 < x -> x <= y -> (ilog2 x <= ilog2 y)%Z.
Proof.
  intros P L.
  assert (Py : 0 < y) by (apply Qlt_le_trans with x; assumption).
  destruct (ilog2_spec x P) as [A _]. destruct (ilog2_spec y Py) as [_ B].
  assert (K : (ilog2 x < ilog2 y + 1)%Z).
  { apply Qpower_lt_compat_l_inv with 2; [|reflexivity].
    apply Qle_lt_trans with x; [exact A|]. apply Qle_lt_trans with y; assumption. }
  lia.
Qed.

(** *** Rounding to an integer *)

Lemma floor_bounds (y : Q) :
  inject_Z (Qfloor y) <= y /\ y < inject_Z (Qfloor y) + 1.
Proof.
  split; [apply Qfloor_le|].
  pose proof (Qlt_floor y) as L. rewrite inject_Z_plus in L. exact L.
Qed.

Lemma rne_cases (y : Q) :
  let n := Qfloor y in
  let r := y - inject_Z n in
  (r < 1 # 2 /\ rne y = n) \/
  ((1 # 2) < r /\ rne y = (n + 1)%Z) \/
  (r == 1 # 2 /\ rne y = if Z.even n then n else (n + 1)%Z).
Proof.
  intros n r. unfold rne. fold n. fold r.
  destruct (Qltb r (1 # 2)) eqn:A.
  - left. split; [now apply Qltb_lt|reflexivity].
  - apply Qltb_ge in A. destruct (Qltb (1 # 2) r) eqn:B.
    + right. left. split; [now apply Qltb_lt|reflexivity].
    + apply Qltb_ge in B. right. right. split; [now apply Qle_antisym|reflexivity].
Qed.

Lemma rne_floor (y : Q) : rne y = Qfloor y \/ rne y = (Qfloor y + 1)%Z.
Proof.
  destruct (rne_cases y) as [[_ E]|[[_ E]|[_ E]]]; auto.
  destruct (Z.even (Qfloor y)); auto.
Qed.

Lemma rne_error (y : Q) : Qabs (inject_Z (rne y) - y) <= 1 # 2.
Proof.
  destruct (floor_bounds y) as [A B].
  apply Qabs_Qle_condition.
  destruct (rne_cases y) as [[L E]|[[L E]|[L E]]]; rewrite E.
  - split; lra.
  - rewrite inject_Z_plus. change (inject_Z 1) with 1. split; lra.
  - destruct (Z.even (Qfloor y)).
    + split; lra.
    + rewrite inject_Z_plus. change (inject_Z 1) with 1. split; lra.
Qed.

Lemma rne_Z (n : Z) : rne (inject_Z n) = n.
Proof.
  destruct (rne_cases (inject_Z n)) as [[L E]|[[L E]|[L E]]];
    rewrite Qfloor_Z in *.
  - exact E.
  - exfalso. lra.
  - exfalso. lra.
Qed.

Lemma Z_lt_Q (a b : Z) : inject_Z a < inject_Z b + 1 -> (a <= b)%Z.
Proof.
  intro L. change 1 with (inject_Z 1) in L. rewrite <- inject_Z_plus in L.
  rewrite <- Zlt_Qlt in L. lia.
Qed.

Lemma rne_le (y y' : Q) : y <= y' -> (rne y <= rne y')%Z.
Proof.
  intro L.
  pose proof (Qfloor_resp_le _ _ L) as F.
  destruct (floor_bounds y) as [A B]. destruct (floor_bounds y') as [A' B'].
  destruct (Z.eq_dec (Qfloor y) (Qfloor y')) as [E|N].
  - destruct (rne_cases y) as [[L1 E1]|[[L1 E1]|[L1 E1]]];
      destruct (rne_cases y') as [[L2 E2]|[[L2 E2]|[L2 E2]]];
      rewrite E1, E2; rewrite <- ?E in *; try lia; try (exfalso; lra);
      destruct (Z.even (Qfloor y)); lia.
  - assert (Qfloor y + 1 <= Qfloor y')%Z by lia.
    destruct (rne_floor y) as [E1|E1]; destruct (rne_floor y') as [E2|E2]; lia.
Qed.

Lemma rne_comp (y y' : Q) : y == y' -> rne y = rne y'.
Proof.
  intro E. apply Z.le_antisymm; apply rne_le; rewrite E; apply Qle_refl.
Qed.

Lemma rne_gt_even (n : Z) (y : Q) :
  Z.even n = true -> ((n < rne y)%Z <-> inject_Z n + (1 # 2) < y).
Proof.
  intro Ev. destruct (floor_bounds y) as [A B].
  split.
  - intro L. apply Qnot_le_lt. intro G.
    assert (F : (Qfloor y <= n)%Z).
    { apply Z_lt_Q. lra. }
    destruct (Z.eq_dec (Qfloor y) n) as [E|N].
    + destruct (rne_cases y) as [[L1 E1]|[[L1 E1]|[L1 E1]]]; rewrite E in *.
      * lia.
      * lra.
      * rewrite Ev in E1. lia.
    + destruct (rne_floor y); lia.
  - intro G.
    assert (F : (n <= Qfloor y)%Z).
    { apply Z_lt_Q. lra. }
    destruct (Z.eq_dec (Qfloor y) n) as [E|N].
    + destruct (rne_cases y) as [[L1 E1]|[[L1 E1]|[L1 E1]]]; rewrite E in *.
      * lra.
      * lia.
      * lra.
    + destruct (rne_floor y); lia.
Qed.

Lemma rne_le_Z (y : Q) (n : Z) : y <= inject_Z n -> (rne y <= n)%Z.
Proof. intro L. rewrite <- (rne_Z n). now apply rne_le. Qed.

Lemma rne_ge_Z (y : Q) (n : Z) : inject_Z n <= y -> (n <= rne y)%Z.
Proof. intro L. rewrite <- (rne_Z n). now apply rne_le. Qed.

(** *** Rounding to 53 bits *)

Lemma pow2_neq (e : Z) : ~ 2 ^ e == 0.
Proof. intro E. pose proof (pow2_pos e) as P. rewrite E in P. discriminate. Qed.

Lemma div_pow2_le (x y : Q) (e : Z) : x <= y -> x / 2 ^ e <= y / 2 ^ e.
Proof.
  intro L. unfold Qdiv. apply Qmult_le_compat_r; [exact L|].
  apply Qlt_le_weak, Qinv_lt_0_compat, pow2_pos.
Qed.

Lemma div_pow2_lt (x : Q) (a e : Z) : x < 2 ^ (e + a) -> x / 2 ^ e < 2 ^ a.
Proof.
  intro L. apply Qlt_shift_div_r; [apply pow2_pos|].
  now rewrite <- pow2_plus, Z.add_comm.
Qed.

Lemma div_pow2_ge (x : Q) (a e : Z) : 2 ^ (e + a) <= x -> 2 ^ a <= x / 2 ^ e.
Proof.
  intro L. apply Qle_shift_div_l; [apply pow2_pos|].
  now rewrite <- pow2_plus, Z.add_comm.
Qed.

Lemma mul_pow2_le (m n : Z) (e : Z) :
  (m <= n)%Z -> inject_Z m * 2 ^ e <= inject_Z n * 2 ^ e.
Proof.
  intro L. apply Qmult_le_compat_r; [now rewrite <- Zle_Qle|].
  apply Qlt_le_weak, pow2_pos.
Qed.

Lemma ulp_exp_le (x y : Q) : 0 < x -> x <= y -> (ulp_exp x <= ulp_exp y)%Z.
Proof.
  intros P L. unfold ulp_exp. pose proof (ilog2_le x y P L). lia.
Qed.

Lemma scaled_lt (x : Q) : 0 < x -> x / 2 ^ ulp_exp x < 2 ^ 53.
Proof.
  intro P. apply div_pow2_lt. destruct (ilog2_spec x P) as [_ B].
  apply Qlt_le_trans with (2 ^ (ilog2 x + 1)); [exact B|].
  apply pow2_le. unfold ulp_exp. lia.
Qed.

Lemma scaled_ge (x : Q) :
  0 < x -> (-1074 < ulp_exp x)%Z -> 2 ^ 52 <= x / 2 ^ ulp_exp x.
Proof.
  intros P N. apply div_pow2_ge. destruct (ilog2_spec x P) as [A _].
  apply Qle_trans with (2 ^ ilog2 x); [|exact A].
  apply pow2_le. unfold ulp_exp in *. lia.
Qed.

Lemma round_fin_zero (x : Q) : x == 0 -> round_fin x == 0.
Proof.
  intro E. unfold round_fin. set (e := ulp_exp x). clearbody e.
  rewrite (rne_comp _ (inject_Z 0)).
  - rewrite rne_Z. apply Qmult_0_l.
  - rewrite E. unfold Qdiv. apply Qmult_0_l.
Qed.

Lemma round_fin_nonneg (x : Q) : 0 <= x -> 0 <= round_fin x.
Proof.
  intro P. unfold round_fin. apply Qmult_le_0_compat.
  - change 0 with (inject_Z 0). rewrite <- Zle_Qle. apply rne_ge_Z.
    apply Qle_shift_div_l; [apply pow2_pos|].
    change (inject_Z 0) with 0. now rewrite Qmult_0_l.
  - apply Qlt_le_weak, pow2_pos.
Qed.

Lemma round_fin_le (x y : Q) : 0 <= x -> x <= y -> round_fin x <= round_fin y.
Proof.
  intros P L.
  assert (Py : 0 <= y) by (apply Qle_trans with x; assumption).
  apply Qle_lt_or_eq in P. destruct P as [P|P].
  2:{ rewrite (round_fin_zero x) by now symmetry. now apply round_fin_nonneg. }
  assert (Py' : 0 < y) by (apply Qlt_le_trans with x; assumption).
  pose proof (ulp_exp_le x y P L) as E.
  destruct (Z.eq_dec (ulp_exp x) (ulp_exp y)) as [Ee|Ne].
  - unfold round_fin. rewrite Ee. apply mul_pow2_le, rne_le. now apply div_pow2_le.
  - assert (Lt : (ulp_exp x + 1 <= ulp_exp y)%Z) by lia.
    apply Qle_trans with (2 ^ (ulp_exp y + 52)).
    + apply Qle_trans with (2 ^ (ulp_exp x + 53)).
      * unfold round_fin. rewrite (Z.add_comm (ulp_exp x)), pow2_plus.
        rewrite <- (pow2_Z 53) by lia. apply mul_pow2_le, rne_le_Z.
        rewrite pow2_Z by lia. apply Qlt_le_weak. now apply scaled_lt.
      * apply pow2_le. lia.
    + unfold round_fin. rewrite (Z.add_comm (ulp_exp y)), pow2_plus.
      rewrite <- (pow2_Z 52) by lia. apply mul_pow2_le, rne_ge_Z.
      rewrite pow2_Z by lia. apply scaled_ge; [exact Py'|]. unfold ulp_exp in *. lia.
Qed.

Lemma round_pos_nonneg (x : Q) : 0 <= x -> 0 <= round_pos x.
Proof.
  intro P. unfold round_pos. destruct (Qle_bool overflow (round_fin x)).
  - apply Qlt_le_weak, pow2_pos.
  - now apply round_fin_nonneg.
Qed.

Lemma round_pos_le (x y : Q) : 0 <= x -> x <= y -> round_pos x <= round_pos y.
Proof.
  intros P L. pose proof (round_fin_le x y P L) as R. unfold round_pos.
  destruct (Qle_bool overflow (round_fin x)) eqn:A;
    destruct (Qle_bool overflow (round_fin y)) eqn:B.
  - apply Qle_refl.
  - apply Qle_bool_iff in A.
    assert (C : Qle_bool overflow (round_fin y) = true).
    { apply Qle_bool_iff. now apply Qle_trans with (round_fin x). }
    congruence.
  - apply Qlt_le_weak, Qnot_le_lt. intro C. apply Qle_bool_iff in C. congruence.
  - exact R.
Qed.

Lemma round_pos_zero (x : Q) : x == 0 -> round_pos x == 0.
Proof.
  intro E. unfold round_pos. pose proof (round_fin_zero x E) as Z.
  destruct (Qle_bool overflow (round_fin x)) eqn:A; [|exact Z].
  apply Qle_bool_iff in A. rewrite Z in A. exfalso.
  apply (Qlt_not_le _ _ (pow2_pos 1024) A).
Qed.

(** The error of rounding is at most half a unit of the last place. *)
Lemma round_fin_error (x : Q) :
  0 <= x -> Qabs (round_fin x - x) <= x * 2 ^ (-53) + 2 ^ (-1075).
Proof.
  intro P.
  assert (Pu : 0 < 2 ^ (-53)) by apply pow2_pos.
  assert (Pv : 0 < 2 ^ (-1075)) by apply pow2_pos.
  apply Qle_lt_or_eq in P. destruct P as [P|P].
  2:{ rewrite (round_fin_zero x) by now symmetry. rewrite <- P.
      rewrite Qmult_0_l. setoid_replace (0 - 0) with 0 by ring. simpl Qabs. lra. }
  set (e := ulp_exp x).
  assert (H : Qabs (round_fin x - x) <= (1 # 2) * 2 ^ e).
  { unfold round_fin. fold e.
    assert (E : inject_Z (rne (x / 2 ^ e)) * 2 ^ e - x ==
                (inject_Z (rne (x / 2 ^ e)) - x / 2 ^ e) * 2 ^ e).
    { field. apply pow2_neq. }
    rewrite E, Qabs_Qmult.
    rewrite (Qabs_pos (2 ^ e)) by apply Qlt_le_weak, pow2_pos.
    apply Qmult_le_compat_r; [apply rne_error|apply Qlt_le_weak, pow2_pos]. }
  apply Qle_trans with ((1 # 2) * 2 ^ e); [exact H|].
  assert (Half : forall a, (1 # 2) * 2 ^ (a + 1) == 2 ^ a).
  { intro a. rewrite pow2_succ. field. }
  destruct (Z.eq_dec e (-1074)) as [Ee|Ne].
  - rewrite Ee. change (-1074)%Z with (-1075 + 1)%Z. rewrite Half.
    assert (0 <= x * 2 ^ (-53)) by (apply Qmult_le_0_compat; lra). lra.
  - assert (Ee : e = (ilog2 x - 52)%Z) by (unfold e, ulp_exp in *; lia).
    destruct (ilog2_spec x P) as [A _].
    replace e with ((e - 1) + 1)%Z by lia. rewrite Half.
    apply Qle_trans with (x * 2 ^ (-53)); [|lra].
    apply Qle_trans with (2 ^ ilog2 x * 2 ^ (-53)).
    + rewrite <- pow2_plus. apply pow2_le. lia.
    + apply Qmult_le_compat_r; [exact A|lra].
Qed.

Lemma round_fin_pow2 (a : Z) : (-1022 <= a)%Z -> round_fin (2 ^ a) == 2 ^ a.
Proof.
  intro L.
  assert (E : ilog2 (2 ^ a) = a).
  { apply ilog2_unique; [apply Qle_refl|apply pow2_lt; lia]. }
  unfold round_fin, ulp_exp. rewrite E. rewrite Z.max_l by lia.
  rewrite (rne_comp _ (inject_Z (2 ^ 52))).
  - rewrite rne_Z, pow2_Z by lia. rewrite <- pow2_plus. now replace (52 + (a - 52))%Z with a by lia.
  - rewrite pow2_Z by lia. rewrite <- Qpower_minus by discriminate.
    now replace (a - (a - 52))%Z with 52%Z by lia.
Qed.

Lemma round_pos_fin (x : Q) (a : Z) :
  0 <= x -> x <= 2 ^ a -> (-1022 <= a < 1024)%Z ->
  round_pos x = round_fin x /\ round_fin x <= 2 ^ a.
Proof.
  intros P L A.
  assert (B : round_fin x <= 2 ^ a).
  { rewrite <- (round_fin_pow2 a) by lia. now apply round_fin_le. }
  split; [|exact B]. unfold round_pos.
  destruct (Qle_bool overflow (round_fin x)) eqn:O; [|reflexivity].
  apply Qle_bool_iff in O. exfalso.
  assert (C : 2 ^ a < overflow) by (apply pow2_lt; lia).
  apply (Qlt_not_le _ _ C). now apply Qle_trans with (round_fin x).
Qed.

Lemma round_pos_pow2 (a : Z) : (-1022 <= a < 1024)%Z -> round_pos (2 ^ a) == 2 ^ a.
Proof.
  intro A. destruct (round_pos_fin (2 ^ a) a) as [E _];
    [apply Qlt_le_weak, pow2_pos|apply Qle_refl|exact A|].
  rewrite E. apply round_fin_pow2. lia.
Qed.

Lemma round_pos_error (x : Q) :
  0 <= x -> x <= 2 ^ 1023 ->
  Qabs (round_pos x - x) <= x * 2 ^ (-53) + 2 ^ (-1075).
Proof.
  intros P L. destruct (round_pos_fin x 1023 P L) as [E _]; [lia|].
  rewrite E. now apply round_fin_error.
Qed.

Lemma round_pos_comp (x y : Q) : 0 <= x -> x == y -> round_pos x == round_pos y.
Proof.
  intros P E. apply Qle_antisym; apply round_pos_le; rewrite <- ?E; try exact P;
    rewrite E; apply Qle_refl.
Qed.

(** Between 2^28 and 2^29 the doubles are 2^-24 apart.  Above a double
    with an even mantissa [M] are the roundings of the numbers that are
    more than half this distance above it. *)
Lemma round_pos_above (M : Z) (x : Q) :
  Z.even M = true -> (2 ^ 52 <= M < 2 ^ 53)%Z -> 0 <= x ->
  (inject_Z M * 2 ^ (-24) < round_pos x <-> (inject_Z M + (1 # 2)) * 2 ^ (-24) < x).
Proof.
  intros Ev [M1 M2] P.
  assert (C1 : 2 ^ 28 <= inject_Z M * 2 ^ (-24)).
  { assert (E : 2 ^ 28 == inject_Z (2 ^ 52) * 2 ^ (-24)) by reflexivity.
    rewrite E. now apply mul_pow2_le. }
  assert (C2 : (inject_Z M + (1 # 2)) * 2 ^ (-24) < 2 ^ 29).
  { assert (E : 2 ^ 29 == inject_Z (2 ^ 53) * 2 ^ (-24)) by reflexivity.
    rewrite E. apply Qmult_lt_r; [apply pow2_pos|].
    assert (L : inject_Z M + 1 <= inject_Z (2 ^ 53)).
    { change 1 with (inject_Z 1). rewrite <- inject_Z_plus, <- Zle_Qle. lia. }
    lra. }
  assert (C3 : inject_Z M * 2 ^ (-24) < (inject_Z M + (1 # 2)) * 2 ^ (-24)).
  { apply Qmult_lt_r; [apply pow2_pos|lra]. }
  set (c := inject_Z M * 2 ^ (-24)) in *.
  set (c' := (inject_Z M + (1 # 2)) * 2 ^ (-24)) in *.
  destruct (Qlt_le_dec x (2 ^ 28)) as [Lo|Lo].
  { pose proof (round_pos_le x (2 ^ 28) P (Qlt_le_weak _ _ Lo)) as R.
    rewrite (round_pos_pow2 28) in R by lia.
    split; intro A; exfalso; lra. }
  destruct (Qlt_le_dec x (2 ^ 29)) as [Hi|Hi].
  2:{ assert (P29 : 0 <= 2 ^ 29) by apply Qlt_le_weak, pow2_pos.
      pose proof (round_pos_le (2 ^ 29) x P29 Hi) as R.
      rewrite (round_pos_pow2 29) in R by lia.
      split; intro A; lra. }
  destruct (round_pos_fin x 29 P (Qlt_le_weak _ _ Hi)) as [E _]; [lia|].
  rewrite E. unfold round_fin, ulp_exp.
  rewrite (ilog2_unique x 28 Lo Hi). change (Z.max (28 - 52) (-1074)) with (-24)%Z.
  unfold c, c'. rewrite Qmult_lt_r by apply pow2_pos.
  rewrite <- Zlt_Qlt. rewrite rne_gt_even by exact Ev.
  rewrite <- (Qmult_lt_r _ _ (2 ^ (-24))) by apply pow2_pos.
  assert (X : x / 2 ^ (-24) * 2 ^ (-24) == x) by (field; apply pow2_neq).
  rewrite X. reflexivity.
Qed.

(** The doubles above 325e6 are the roundings of the numbers above
    325e6 + 2^-25, and likewise for 300e6. *)
Lemma round_pos_325 (x : Q) :
  0 <= x -> (325e6 < round_pos x <-> 325e6 + 2 ^ (-25) < x).
Proof.
  intro P.
  assert (K : 325e6 == inject_Z 5452595200000000 * 2 ^ (-24)) by reflexivity.
  assert (Y : 325e6 + 2 ^ (-25) == (inject_Z 5452595200000000 + (1 # 2)) * 2 ^ (-24))
    by reflexivity.
  rewrite K at 1. rewrite Y. apply round_pos_above; [reflexivity|lia|exact P].
Qed.

Lemma round_pos_300 (x : Q) :
  0 <= x -> (300e6 < round_pos x <-> 300e6 + 2 ^ (-25) < x).
Proof.
  intro P.
  assert (K : 300e6 == inject_Z 5033164800000000 * 2 ^ (-24)) by reflexivity.
  assert (Y : 300e6 + 2 ^ (-25) == (inject_Z 5033164800000000 + (1 # 2)) * 2 ^ (-24))
    by reflexivity.
  rewrite K at 1. rewrite Y. apply round_pos_above; [reflexivity|lia|exact P].
Qed.

(** *** The sign *)

Lemma fl_comp (x y : Q) : x == y -> fl x = fl y.
Proof. intro E. unfold fl. now rewrite (Qred_complete x y E). Qed.

Lemma fl_cases (x : Q) :
  (0 <= x /\ exists y, 0 <= y /\ y == x /\ fl x = round_pos y) \/ (x < 0 /\ fl x <= 0).
Proof.
  unfold fl. pose proof (Qred_correct x) as R. set (r := Qred x) in *. clearbody r.
  destruct (Qle_bool 0 r) eqn:S.
  - apply Qle_bool_iff in S. left. split; [now rewrite <- R|].
    exists r. now repeat split.
  - assert (N : r < 0).
    { apply Qnot_le_lt. intro L. apply Qle_bool_iff in L. congruence. }
    right. split; [now rewrite <- R|].
    assert (P : 0 <= - r) by lra.
    pose proof (round_pos_nonneg (- r) P). lra.
Qed.

Lemma fl_300 (x : Q) : 300e6 < fl x <-> 300e6 + 2 ^ (-25) < x.
Proof.
  assert (B : 0 < 300e6) by reflexivity.
  assert (B' : 0 < 2 ^ (-25)) by reflexivity.
  destruct (fl_cases x) as [(P & y & Py & E & ->)|(N & L)].
  - rewrite <- E. now apply round_pos_300.
  - split; intro A; exfalso; lra.
Qed.

Lemma fl_abs (x : Q) :
  exists y, 0 <= y /\ y == Qabs x /\ Qabs (fl x) == round_pos y.
Proof.
  unfold fl. pose proof (Qred_correct x) as R. set (r := Qred x) in *. clearbody r.
  destruct (Qle_bool 0 r) eqn:S.
  - apply Qle_bool_iff in S. exists r. split; [exact S|]. split.
    + rewrite <- R. symmetry. now apply Qabs_pos.
    + apply Qabs_pos. now apply round_pos_nonneg.
  - assert (N : r < 0).
    { apply Qnot_le_lt. intro L. apply Qle_bool_iff in L. congruence. }
    assert (P : 0 <= - r) by lra.
    exists (- r). split; [exact P|]. split.
    + rewrite <- R. symmetry. apply Qabs_neg. lra.
    + rewrite Qabs_opp. apply Qabs_pos. now apply round_pos_nonneg.
Qed.

Lemma fl_abs_le (x x' : Q) : Qabs x <= Qabs x' -> Qabs (fl x) <= Qabs (fl x').
Proof.
  intro L. destruct (fl_abs x) as (y & P & E & R). destruct (fl_abs x') as (y' & P' & E' & R').
  rewrite R, R'. apply round_pos_le; [exact P|]. now rewrite E, E'.
Qed.

Lemma fl_abs_eq (x x' : Q) : Qabs x == Qabs x' -> Qabs (fl x) == Qabs (fl x').
Proof.
  intro E. apply Qle_antisym; apply fl_abs_le; rewrite E; apply Qle_refl.
Qed.

Lemma fl_abs_325 (x : Q) : 325e6 < Qabs (fl x) <-> 325e6 + 2 ^ (-25) < Qabs x.
Proof.
  destruct (fl_abs x) as (y & P & E & R). rewrite R, <- E. now apply round_pos_325.
Qed.

Lemma fl_abs_error (x : Q) :
  Qabs x <= 2 ^ 1023 ->
  Qabs (Qabs (fl x) - Qabs x) <= Qabs x * 2 ^ (-53) + 2 ^ (-1075).
Proof.
  intro L. destruct (fl_abs x) as (y & P & E & R). rewrite R, <- E.
  apply round_pos_error; [exact P|]. now rewrite E.
Qed.

(** ** The builtins *)

Lemma min_from_spec {A} (key : A -> Q) (l : list A) (best : A) :
  In (min_from key best l) (best :: l) /\
  forall x, In x (best :: l) -> key (min_from key best l) <= key x.
Proof.
  revert best. induction l as [|y l IH]; intro best; simpl.
  - split; [now left|]. intros x [<-|[]]. apply Qle_refl.
  - destruct (Qltb (key y) (key best)) eqn:E.
    + destruct (IH y) as [I L]. split.
      * right. exact I.
      * intros x [<-|Hx].
        -- apply Qle_trans with (key y); [apply L; now left|].
           apply Qlt_le_weak. now apply Qltb_lt.
        -- now apply L.
    + destruct (IH best) as [I L]. split.
      * destruct I as [I|I]; [now left|right; now right].
      * intros x [<-|[<-|Hx]].
        -- apply L. now left.
        -- apply Qle_trans with (key best); [apply L; now left|].
           now apply Qltb_ge.
        -- apply L. now right.
Qed.

Lemma py_min_key_spec {A} (key : A -> Q) (l : list A) (m : A) :
  py_min_key l key = Some m ->
  In m l /\ forall x, In x l -> key m <= key x.
Proof.
  destruct l as [|y l]; simpl; [discriminate|].
  intros [= <-]. apply min_from_spec.
Qed.

Lemma py_min_key_some {A} (key : A -> Q) (l : list A) :
  l <> [] -> exists m, py_min_key l key = Some m.
Proof.
  destruct l; [congruence|]. intros _. simpl. eauto.
Qed.

(** [min] returns the first of the items whose key is least. *)
Lemma min_from_first {A} (key : A -> Q) (l : list A) (best : A) :
  exists before after,
    best :: l = before ++ min_from key best l :: after /\
    (forall x, In x before -> key (min_from key best l) < key x) /\
    (forall x, In x after -> key (min_from key best l) <= key x).
Proof.
  revert best. induction l as [|y l IH]; intro best; simpl.
  - exists [], []. repeat split; intros x [].
  - destruct (Qltb (key y) (key best)) eqn:E.
    + destruct (IH y) as (b & a & El & Hb & Ha).
      exists (best :: b), a. split; [simpl; now rewrite <- El|]. split; [|exact Ha].
      intros x [<-|I]; [|now apply Hb].
      apply Qltb_lt in E. destruct (min_from_spec key l y) as [_ M].
      apply Qle_lt_trans with (key y); [apply M; now left|exact E].
    + apply Qltb_ge in E. destruct (IH best) as (b & a & El & Hb & Ha).
      destruct b as [|b0 b].
      * simpl in El. injection El as Em Ea.
        exists [], (y :: l). split; [simpl; now rewrite <- Em|]. split; [intros x []|].
        intros x [<-|I]; [now rewrite <- Em|]. apply Ha. now rewrite <- Ea.
      * simpl in El. injection El as Eb Ea. subst b0.
        exists (best :: y :: b), a. split; [simpl; do 2 f_equal; exact Ea|]. split; [|exact Ha].
        intros x [<-|[<-|I]].
        -- apply Hb. now left.
        -- apply Qlt_le_trans with (key best); [apply Hb; now left|exact E].
        -- apply Hb. now right.
Qed.

Lemma py_min_key_first {A} (key : A -> Q) (l : list A) (m : A) :
  py_min_key l key = Some m ->
  exists before after,
    l = before ++ m :: after /\
    (forall x, In x before -> key m < key x) /\
    (forall x, In x after -> key m <= key x).
Proof.
  destruct l as [|y l]; simpl; [discriminate|].
  intros [= <-]. apply min_from_first.
Qed.


Lemma max_from_spec (l : list Q) (best : Q) :
  In (max_from best l) (best :: l) /\
  forall x, In x (best :: l) -> x <= max_from best l.
Proof.
  revert best. induction l as [|y l IH]; intro best; simpl.
  - split; [now left|]. intros x [<-|[]]. apply Qle_refl.
  - destruct (Qltb best y) eqn:E.
    + destruct (IH y) as [I L]. split; [now right|].
      intros x [<-|Hx]; [|now apply L].
      apply Qle_trans with y; [|apply L; now left].
      apply Qlt_le_weak. now apply Qltb_lt.
    + destruct (IH best) as [I L]. split.
      * destruct I as [I|I]; [now left|right; now right].
      * intros x [<-|[<-|Hx]].
        -- apply L. now left.
        -- apply Qle_trans with best; [now apply Qltb_ge|apply L; now left].
        -- apply L. now right.
Qed.

Lemma max_from_pair (a b : Q) : a <= max_from a [b] /\ b <= max_from a [b].
Proof.
  destruct (max_from_spec [b] a) as [_ M]. split; apply M; simpl; auto.
Qed.

Lemma py_max_spec (l : list Q) (hi : Q) :
  py_max l = Some hi -> In hi l /\ forall x, In x l -> x <= hi.
Proof.
  destruct l as [|x l]; [discriminate|]. intro E. injection E as <-.
  apply max_from_spec.
Qed.

Lemma py_min_spec (l : list Q) (lo : Q) :
  py_min l = Some lo -> In lo l /\ forall x, In x l -> lo <= x.
Proof. unfold py_min. intro E. now apply py_min_key_spec in E. Qed.

Lemma py_max_some (l : list Q) : l <> [] -> exists hi, py_max l = Some hi.
Proof. destruct l; [congruence|]. intros _. eexists. reflexivity. Qed.

Lemma py_min_some (l : list Q) : l <> [] -> exists lo, py_min l = Some lo.
Proof. destruct l; [congruence|]. intros _. eexists. reflexivity. Qed.

(** The larger of two numbers, as [max] of a list of two gives it. *)
Lemma max_from_Qmax (a b : Q) : max_from a [b] == Qmax a b.
Proof.
  simpl. destruct (Qltb a b) eqn:E.
  - apply Qltb_lt in E. symmetry. apply Q.max_r. now apply Qlt_le_weak.
  - apply Qltb_ge in E. symmetry. now apply Q.max_l.
Qed.


Lemma nat_min_from_spec (l : list nat) (best : nat) :
  In (nat_min_from best l) (best :: l) /\
  forall x, In x (best :: l) -> (nat_min_from best l <= x)%nat.
Proof.
  revert best. induction l as [|y l IH]; intro best; simpl.
  - split; [now left|]. intros x [<-|[]]. lia.
  - destruct (Nat.ltb y best) eqn:E.
    + apply Nat.ltb_lt in E. destruct (IH y) as [I L]. split; [now right|].
      intros x [<-|Hx]; [|now apply L].
      specialize (L y (or_introl eq_refl)). lia.
    + apply Nat.ltb_ge in E. destruct (IH best) as [I L]. split.
      * destruct I as [I|I]; [now left|right; now right].
      * intros x [<-|[<-|Hx]].
        -- apply L. now left.
        -- specialize (L best (or_introl eq_refl)). lia.
        -- apply L. now right.
Qed.

(** ** Running the monad *)

Lemma bind_Ok {A B} (m : M A) (k : A -> M B) (w w' : world) (a : A) :
  m w = (Ok a, w') -> bind m k w = k a w'.
Proof. unfold bind. now intros ->. Qed.

Lemma bind_Raise {A B} (m : M A) (k : A -> M B) (w w' : world) (e : exn) :
  m w = (Raise e, w') -> bind m k w = (Raise e, w').
Proof. unfold bind. now intros ->. Qed.

Lemma bind_Ok_inv {A B} (m : M A) (k : A -> M B) (w w2 : world) (b : B) :
  bind m k w = (Ok b, w2) ->
  exists a w1, m w = (Ok a, w1) /\ k a w1 = (Ok b, w2).
Proof.
  unfold bind. destruct (m w) as [[a|e] w1]; [eauto|discriminate].
Qed.

Lemma item_Ok_inv {A} (o : option A) (e : exn) (w w' : world) (a : A) :
  item o e w = (Ok a, w') -> o = Some a /\ w' = w.
Proof.
  destruct o; simpl; unfold ret, raise; intros [= ]; subst; auto.
Qed.

(** Inversion of a successful run, one step at a time. *)
Ltac run_inv H :=
  match type of H with
  | bind _ _ _ = (Ok _, _) =>
      let a := fresh "a" in let w1 := fresh "w" in
      let H1 := fresh "R" in let H2 := fresh "R" in
      apply bind_Ok_inv in H; destruct H as (a & w1 & H1 & H2)
  | item _ _ _ = (Ok _, _) =>
      let E := fresh "E" in
      apply item_Ok_inv in H; destruct H as [E ->]
  end.

(** A loop whose body always succeeds is a fold over the worlds. *)
Lemma for_each_total {A} (I : world -> Prop) (step : world -> A -> world)
    (body : A -> M unit) (l : list A) :
  (forall x w, In x l -> I w -> body x w = (Ok tt, step w x) /\ I (step w x)) ->
  forall w, I w -> for_each l body w = (Ok tt, fold_left step l w).
Proof.
  induction l as [|x l IH]; intros Hb w Hw; simpl; [reflexivity|].
  destruct (Hb x w (or_introl eq_refl) Hw) as [E Hs].
  rewrite (bind_Ok _ _ _ _ _ E). apply IH; [|exact Hs].
  intros y w' Hy. apply Hb. now right.
Qed.

(** *** Relations between the worlds before and after a run *)
Section Frames.
Variable R : world -> world -> Prop.
Hypothesis R_refl : forall w, R w w.
Hypothesis R_trans : forall a b c, R a b -> R b c -> R a c.

Definition keeps {A} (m : M A) : Prop := forall w, R w (snd (m w)).

Lemma keeps_ret {A} (a : A) : keeps (ret a).
Proof. intro w. apply R_refl. Qed.

Lemma keeps_raise {A} (e : exn) : keeps (@raise A e).
Proof. intro w. apply R_refl. Qed.

Lemma keeps_get : keeps get.
Proof. intro w. apply R_refl. Qed.

Lemma keeps_item {A} (o : option A) (e : exn) : keeps (item o e).
Proof. destruct o; [apply keeps_ret|apply keeps_raise]. Qed.

Lemma keeps_modify (f : world -> world) :
  (forall w, R w (f w)) -> keeps (modify f).
Proof. intros Hf w. apply Hf. Qed.

Lemma keeps_bind {A B} (m : M A) (k : A -> M B) :
  keeps m -> (forall a, keeps (k a)) -> keeps (bind m k).
Proof.
  intros Hm Hk w. unfold bind. specialize (Hm w).
  destruct (m w) as [[a|e] w1]; simpl in *; [|exact Hm].
  eapply R_trans; [exact Hm|apply Hk].
Qed.

Lemma keeps_for_each {A} (l : list A) (body : A -> M unit) :
  (forall x, keeps (body x)) -> keeps (for_each l body).
Proof.
  intro Hb. induction l; simpl; [apply keeps_ret|].
  apply keeps_bind; auto.
Qed.

Lemma keeps_for_fold {A S} (l : list A) (body : S -> A -> M S) :
  (forall s x, keeps (body s x)) -> forall s, keeps (for_fold l s body).
Proof.
  intro Hb. induction l; intro s; simpl; [apply keeps_ret|].
  apply keeps_bind; auto.
Qed.

End Frames.

(** Decomposes a [keeps] goal along the structure of the program. *)
Ltac keeps_step :=
  match goal with
  | |- keeps _ (bind _ _) => apply keeps_bind; [assumption .. | | intro]
  | |- keeps _ (ret _) => apply keeps_ret; assumption
  | |- keeps _ (raise _) => apply keeps_raise; assumption
  | |- keeps _ get => apply keeps_get; assumption
  | |- keeps _ (item _ _) => apply keeps_item; assumption
  | |- keeps _ (for_each _ _) => apply keeps_for_each; [assumption .. | intro]
  | |- keeps _ (for_fold _ _ _) => apply keeps_for_fold; [assumption .. | intros ? ?]
  | |- keeps _ (if ?b then _ else _) => destruct b
  | |- keeps _ (match ?x with (_, _) => _ end) => destruct x
  | |- keeps _ (modify _) => apply keeps_modify; intro
  end.

(** ** An instrument for the examples

    Samples are pairs of rationals (real and imaginary part); the loopback
    correction of the examples divides by the squared modulus of the
    calibration sample after multiplying by its conjugate, the mean is the
    first sample, every draw of the perturbation is 0, a read returns four
    channels, and the parser gives 1000 samples per tone on module 1 and
    998 on the other modules. *)
Definition bench_div (z c : Q * Q) : Q * Q :=
  let n := snd c * snd c + fst c * fst c in
  ((fst z * fst c + snd z * snd c) / n, (snd z * fst c - fst z * snd c) / n).

Definition bench : Instrument := {|
  sample := Q * Q;
  crs_sn := 27;
  splitter := true;
  full_scale_dbm := 1;
  volts_per_roc := 1;
  comb_sampling_freq := 625e6;
  remove_internal_phaseshift := fun _ z c => bench_div z c;
  scale := fun z x => (fst z * x, snd z * x);
  div_dB20 := fun z _ => z;
  mean := fun l => hd (0, 0) l;
  uniform := fun _ => 0;
  adc := fun k m n => repeat (repeat (inject_Z (Z.of_nat (S k)), inject_Z m) n) 4;
  parser_data := fun m n => repeat (repeat (inject_Z m, 1) (if Z.eqb m 1 then 1000 else 998)) n
|}.

(** A session with NCOs on modules 1 and 2 and nothing done yet. *)
Definition two_modules : world :=
  mkWorld [(1%Z, 500e6); (2%Z, 1200e6)] [] [] [] [] 0 5 [] [] 0 0 [].

(** A session with one NCO. *)
Definition one_module : world :=
  mkWorld [(1%Z, 500e6)] [] [] [] [] 0 5 [] [] 0 0 [].

(** ** The amplitude checks of the [write_tones] macro *)
Section MacroFacts.
Context `{Instrument}.

Lemma over_full_scale_true (ares : list Q) :
  ReadoutModule.over_full_scale ares = true <->
  Exists (fun a => full_scale_dbm < a) ares.
Proof.
  unfold ReadoutModule.over_full_scale. rewrite existsb_exists, Exists_exists.
  split; intros (a & I & L); exists a; (split; [exact I|]); now apply Qltb_lt.
Qed.

Lemma over_full_scale_false (ares : list Q) :
  ReadoutModule.over_full_scale ares = false <->
  Forall (fun a => a <= full_scale_dbm) ares.
Proof.
  unfold ReadoutModule.over_full_scale. rewrite Forall_forall. split.
  - intros E a I. apply Qltb_ge.
    destruct (Qltb full_scale_dbm a) eqn:L; [|reflexivity].
    assert (X : existsb (fun a => Qltb full_scale_dbm a) ares = true)
      by (apply existsb_exists; eauto).
    congruence.
  - intro F. destruct (existsb _ ares) eqn:E; [|reflexivity].
    apply existsb_exists in E. destruct E as (a & I & L).
    apply Qltb_lt in L. exfalso. exact (Qlt_not_le _ _ L (F a I)).
Qed.

(** The world in which the macro makes its checks: the perturbation has
    been drawn and the array of frequencies updated. *)
Definition perturbed (store : list Q -> world -> world) (fres : list Q) (w : world) : world :=
  store (ReadoutModule.randomize fres (map uniform (seq (rng_pos w) (length fres))))
        (with_rng_pos w (rng_pos w + length fres)).

Lemma write_tones_raises module_index nco_d fres_d ares_d store w fres ares nco :
  dict_get fres_d module_index = Some fres ->
  dict_get ares_d module_index = Some ares ->
  dict_get nco_d module_index = Some nco ->
  ReadoutModule.over_full_scale ares = true ->
  ReadoutModule.write_tones module_index nco_d fres_d ares_d store w =
  (Raise ReadoutModule.full_scale_error, perturbed store fres w).
Proof.
  intros Ef Ea En Eo. unfold ReadoutModule.write_tones.
  rewrite Ef, Ea, En. cbn. rewrite Eo. reflexivity.
Qed.

Lemma write_tones_proceeds module_index nco_d fres_d ares_d store w fres ares nco :
  dict_get fres_d module_index = Some fres ->
  dict_get ares_d module_index = Some ares ->
  dict_get nco_d module_index = Some nco ->
  ReadoutModule.over_full_scale ares = false ->
  let w1 := perturbed store fres w in
  let r := ReadoutModule.write_tones module_index nco_d fres_d ares_d store w in
  fst r = Ok tt /\
  warned (snd r) =
    warned w1 ++ (if ReadoutModule.low_power ares
                  then [ReadoutModule.low_power_warning] else []) /\
  trace (snd r) =
    trace w1 ++ [clear_channels module_index;
                 tuber_context
                   (ReadoutModule.tone_calls module_index nco
                      (ReadoutModule.randomize fres
                         (map uniform (seq (rng_pos w) (length fres)))) ares)].
Proof.
  intros Ef Ea En Eo. unfold ReadoutModule.write_tones.
  rewrite Ef, Ea, En. cbn. rewrite Eo. unfold perturbed.
  destruct (ReadoutModule.low_power ares); cbn.
  - rewrite <- app_assoc. auto.
  - rewrite app_nil_r, <- app_assoc. auto.
Qed.

(** C4.  In the [write_tones] macro of a module whose arrays and NCO are
    set: when every amplitude is at most [full_scale_dbm] the macro returns
    normally; when some amplitude is above it the macro raises the
    [ValueError] of the amplitude check and the trace of commands is the one
    before the call, so neither [clear_channels] nor the batch of
    [set_frequency] and [set_amplitude] calls has been issued. *)
Theorem write_tones_full_scale_check module_index nco_d fres_d ares_d store w fres ares nco :
  dict_get fres_d module_index = Some fres ->
  dict_get ares_d module_index = Some ares ->
  dict_get nco_d module_index = Some nco ->
  (forall a w0, trace (store a w0) = trace w0) ->
  let r := ReadoutModule.write_tones module_index nco_d fres_d ares_d store w in
  (Forall (fun a => a <= full_scale_dbm) ares -> fst r = Ok tt) /\
  (Exists (fun a => full_scale_dbm < a) ares ->
   fst r = Raise ReadoutModule.full_scale_error /\ trace (snd r) = trace w).
Proof.
  intros Ef Ea En Hs r. split; intro Ha.
  - apply over_full_scale_false in Ha.
    apply (write_tones_proceeds _ _ _ _ store w _ _ _ Ef Ea En Ha).
  - apply over_full_scale_true in Ha. subst r.
    rewrite (write_tones_raises _ _ _ _ store w _ _ _ Ef Ea En Ha).
    split; [reflexivity|]. unfold perturbed. simpl. now rewrite Hs.
Qed.


End MacroFacts.

(** ** The nudge away from the bin boundaries *)
Section NudgeFacts.
Context `{Instrument}.







Lemma randomize_length (fres noise : list Q) :
  length noise = length fres ->
  length (ReadoutModule.randomize fres noise) = length fres.
Proof.
  intro E. unfold ReadoutModule.randomize, map2.
  rewrite !length_map, length_combine. lia.
Qed.

Lemma np_random_uniform_run (n : nat) (w : world) :
  np_random_uniform n w =
  (Ok (map uniform (seq (rng_pos w) n)), with_rng_pos w (rng_pos w + n)).
Proof. reflexivity. Qed.







End NudgeFacts.


(** ** What the macros leave unchanged *)

Definition is_set_fir_stage (e : event) : bool :=
  match e with set_fir_stage _ => true | _ => false end.

Section MacroFrames.
Context `{Instrument}.
Variable R : world -> world -> Prop.
Hypothesis R_refl : forall w, R w w.
Hypothesis R_trans : forall a b c, R a b -> R b c -> R a c.
Hypothesis R_emit : forall e w,
  is_Popen e = false -> is_set_fir_stage e = false ->
  R w (with_trace w (trace w ++ [e])).
Hypothesis R_warned : forall w l, R w (with_warned w l).
Hypothesis R_rng_pos : forall w n, R w (with_rng_pos w n).
Hypothesis R_reads : forall w n, R w (with_reads w n).
Hypothesis R_files : forall w l, R w (with_files w l).

Ltac keeps_auto :=
  repeat first
    [ keeps_step
    | match goal with
      | |- R ?w (with_trace ?w _) => apply R_emit; reflexivity
      | |- R ?w (with_warned ?w _) => apply R_warned
      | |- R ?w (with_rng_pos ?w _) => apply R_rng_pos
      | |- R ?w (with_reads ?w _) => apply R_reads
      | |- R ?w (with_files ?w _) => apply R_files
      | |- R ?w ?w => apply R_refl
      | |- R ?w (if ?b then _ else _) => destruct b
      end ].

Lemma keeps_emit (e : event) :
  is_Popen e = false -> is_set_fir_stage e = false -> keeps R (emit e).
Proof. intros A B w. now apply R_emit. Qed.

Lemma keeps_warn (x : warning) : keeps R (warn x).
Proof. intro w. apply R_warned. Qed.

Lemma keeps_np_random_uniform (n : nat) : keeps R (np_random_uniform n).
Proof. unfold np_random_uniform. keeps_auto. Qed.

Lemma keeps_py_get_samples (n : nat) (m : Z) : keeps R (d.py_get_samples n m).
Proof. unfold d.py_get_samples, emit. keeps_auto. Qed.

Lemma keeps_macro_write_tones m nco fd ad store :
  (forall a w, R w (store a w)) ->
  keeps R (ReadoutModule.write_tones m nco fd ad store).
Proof.
  intro Hs. unfold ReadoutModule.write_tones, d.clear_channels, emit, warn, np_random_uniform.
  keeps_auto. apply Hs.
Qed.

Lemma keeps_randomize_rows rows : keeps R (ReadoutModule.randomize_rows rows).
Proof.
  unfold ReadoutModule.randomize_rows, np_random_uniform. keeps_auto.
Qed.

Lemma keeps_sweep_point m nco nsamps frequencies z k :
  keeps R (ReadoutModule.sweep_point m nco nsamps frequencies z k).
Proof.
  unfold ReadoutModule.sweep_point, d.set_dmfd_routing.
  repeat (apply keeps_bind;
          [assumption
          |first [apply keeps_emit; reflexivity | apply keeps_py_get_samples
                 | apply keeps_item; assumption ]
          |intro]).
  now apply keeps_ret.
Qed.

Lemma keeps_macro_sweep m nco fd ad sf sz nsamps store :
  (forall a w, R w (store a w)) ->
  keeps R (ReadoutModule.sweep m nco fd ad sf sz nsamps store).
Proof.
  intro Hs. unfold ReadoutModule.sweep.
  apply keeps_bind; [assumption|now apply keeps_item|intro].
  apply keeps_bind; [assumption|now apply keeps_item|intro].
  apply keeps_bind; [assumption|apply keeps_randomize_rows|intro].
  apply keeps_bind; [assumption|apply keeps_modify; intro; apply Hs|intro].
  destruct (Nat.eqb _ 0); [now apply keeps_ret|].
  apply keeps_bind; [assumption|now apply keeps_item|intro].
  destruct (negb _); [now apply keeps_raise|].
  apply keeps_bind; [assumption|now apply keeps_item|intro].
  apply keeps_bind; [assumption|apply keeps_macro_write_tones; intros; apply R_refl|intro].
  apply keeps_bind; [assumption| |intro].
  - apply keeps_for_fold; [assumption..|]. intros. apply keeps_sweep_point.
  - apply keeps_bind; [assumption|apply keeps_emit; reflexivity|intro].
    now apply keeps_ret.
Qed.

Lemma keeps_get_noise_cal m fd acc : keeps R (ReadoutModule.get_noise_cal m fd acc).
Proof.
  unfold ReadoutModule.get_noise_cal, d.set_dmfd_routing.
  apply keeps_bind; [assumption|now apply keeps_item|intro].
  apply keeps_bind; [assumption|apply keeps_emit; reflexivity|intro].
  apply keeps_bind; [assumption|apply keeps_py_get_samples|intro].
  apply keeps_bind; [assumption|apply keeps_emit; reflexivity|intro].
  apply keeps_bind; [assumption| |intro; now apply keeps_ret].
  unfold ReadoutModule.save_zcal, path_exists, makedirs. keeps_auto.
Qed.

(** *** The methods of [CRS], for a relation that also allows changes of the
    dictionaries of [self] *)
Hypothesis R_fres_dict : forall w x, R w (with_fres_dict w x).
Hypothesis R_ares_dict : forall w x, R w (with_ares_dict w x).
Hypothesis R_ch_ix_dict : forall w x, R w (with_ch_ix_dict w x).
Hypothesis R_frequencies_dict : forall w x, R w (with_frequencies_dict w x).

Ltac keeps_self :=
  repeat first
    [ keeps_step
    | match goal with
      | |- R ?w (with_fres_dict ?w _) => apply R_fres_dict
      | |- R ?w (with_ares_dict ?w _) => apply R_ares_dict
      | |- R ?w (with_ch_ix_dict ?w _) => apply R_ch_ix_dict
      | |- R ?w (with_frequencies_dict ?w _) => apply R_frequencies_dict
      | |- R ?w ?w => apply R_refl
      end ].

Lemma keeps_split_tones fres ares : keeps R (CRS.split_tones fres ares).
Proof. unfold CRS.split_tones, CRS.place_tone, CRS.check_tones, CRS.no_nco. keeps_self. Qed.

Lemma keeps_write_modules : keeps R CRS.write_modules.
Proof.
  unfold CRS.write_modules.
  apply keeps_bind; [assumption|now apply keeps_get|intro].
  apply keeps_for_each; [assumption..|intro].
  apply keeps_bind; [assumption|now apply keeps_get|intro].
  apply keeps_macro_write_tones. intros. apply R_fres_dict.
Qed.

Lemma keeps_write_tones fres ares : keeps R (CRS.write_tones fres ares).
Proof.
  unfold CRS.write_tones.
  apply keeps_bind; [assumption|apply keeps_split_tones|intro].
  apply keeps_write_modules.
Qed.

Lemma keeps_split_sweep frequencies ares : keeps R (CRS.split_sweep frequencies ares).
Proof.
  unfold CRS.split_sweep, CRS.place_channel, CRS.check_frequencies, CRS.no_nco. keeps_self.
Qed.

Lemma keeps_sweep_modules nsamps : keeps R (CRS.sweep_modules nsamps).
Proof.
  unfold CRS.sweep_modules.
  apply keeps_bind; [assumption|now apply keeps_get|intro].
  apply keeps_for_fold; [assumption..|intros].
  apply keeps_bind; [assumption|now apply keeps_get|intro].
  apply keeps_macro_sweep. intros. apply R_frequencies_dict.
Qed.

Lemma keeps_merge_sweep nres sf sz : keeps R (CRS.merge_sweep nres sf sz).
Proof. unfold CRS.merge_sweep. keeps_self. Qed.

Lemma keeps_normalize z ares : keeps R (CRS.normalize z ares).
Proof. unfold CRS.normalize. keeps_self. Qed.

End MacroFrames.

(** ** Dictionaries *)

Lemma dict_get_set {V} (d : dict V) (k k' : Z) (v : V) :
  dict_get (dict_set d k v) k' = if Z.eqb k k' then Some v else dict_get d k'.
Proof.
  induction d as [|[k0 v0] d IH]; simpl.
  - destruct (Z.eqb_spec k k'); reflexivity.
  - destruct (Z.eqb_spec k0 k) as [->|N]; simpl.
    + destruct (Z.eqb_spec k k'); reflexivity.
    + rewrite IH. destruct (Z.eqb_spec k0 k') as [->|N'].
      * destruct (Z.eqb_spec k k'); [congruence|reflexivity].
      * reflexivity.
Qed.

Lemma dict_get_keys {V} (d : dict V) (k : Z) :
  In k (dict_keys d) <-> exists v, dict_get d k = Some v.
Proof.
  induction d as [|[k0 v0] d IH]; simpl.
  - split; [intros []|intros [v [=]]].
  - destruct (Z.eqb_spec k0 k) as [->|N].
    + split; eauto.
    + rewrite <- IH. split; [intros [E|I]; [congruence|exact I]|now right].
Qed.

Lemma dict_get_In {V} (d : dict V) (k : Z) (v : V) :
  dict_get d k = Some v -> In (k, v) d.
Proof.
  induction d as [|[k0 v0] d IH]; simpl; [discriminate|].
  destruct (Z.eqb_spec k0 k) as [->|N].
  - intros [= ->]. now left.
  - intro E. right. now apply IH.
Qed.

Lemma dict_In_get {V} (d : dict V) (k : Z) (v : V) :
  NoDup (dict_keys d) -> In (k, v) d -> dict_get d k = Some v.
Proof.
  induction d as [|[k0 v0] d IH]; simpl; [intros _ []|].
  intros N [E|I].
  - injection E as -> ->. now rewrite Z.eqb_refl.
  - inversion N as [|? ? N1 N2]; subst.
    destruct (Z.eqb_spec k0 k) as [->|_]; [|now apply IH].
    exfalso. apply N1. change k with (fst (k, v)). now apply in_map.
Qed.

Lemma dict_keys_set {V} (d : dict V) (k : Z) (v : V) :
  dict_keys (dict_set d k v) =
  if existsb (Z.eqb k) (dict_keys d) then dict_keys d else dict_keys d ++ [k].
Proof.
  induction d as [|[k0 v0] d IH]; simpl; [reflexivity|].
  rewrite (Z.eqb_sym k k0).
  destruct (Z.eqb_spec k0 k) as [->|N]; simpl; [reflexivity|].
  rewrite IH. now destruct (existsb _ _).
Qed.

Lemma existsb_eqb_In (k : Z) (l : list Z) : existsb (Z.eqb k) l = true <-> In k l.
Proof.
  rewrite existsb_exists. split.
  - intros (x & I & E). apply Z.eqb_eq in E. now subst.
  - intro I. exists k. split; [exact I|apply Z.eqb_refl].
Qed.

Lemma dict_set_NoDup {V} (d : dict V) (k : Z) (v : V) :
  NoDup (dict_keys d) -> NoDup (dict_keys (dict_set d k v)).
Proof.
  intro N. rewrite dict_keys_set. destruct (existsb _ _) eqn:E; [exact N|].
  apply NoDup_app; [exact N|repeat constructor; intros []|].
  intros x I [<-|[]].
  apply existsb_eqb_In in I. congruence.
Qed.

Lemma dict_init_spec {V} (keys : list Z) :
  NoDup (dict_keys (@dict_init V keys)) /\
  (forall k, dict_get (@dict_init V keys) k = if existsb (Z.eqb k) keys then Some [] else None) /\
  (forall k, In k (dict_keys (@dict_init V keys)) <-> In k keys).
Proof.
  unfold dict_init.
  assert (G : forall (d0 : dict (list V)), NoDup (dict_keys d0) ->
    let d := fold_left (fun d k => dict_set d k []) keys d0 in
    NoDup (dict_keys d) /\
    forall k, dict_get d k = if existsb (Z.eqb k) keys then Some [] else dict_get d0 k).
  { induction keys as [|k0 keys IH]; intros d0 N; simpl; [auto|].
    destruct (IH (dict_set d0 k0 []) (dict_set_NoDup _ _ _ N)) as [N' G].
    split; [exact N'|]. intro k. rewrite G, dict_get_set.
    rewrite (Z.eqb_sym k k0). destruct (Z.eqb k0 k); simpl; [|reflexivity].
    now destruct (existsb _ _). }
  destruct (G [] (NoDup_nil _)) as [N Gk]. split; [exact N|]. split; [exact Gk|].
  intro k. rewrite dict_get_keys, Gk. destruct (existsb _ _) eqn:E.
  - apply existsb_eqb_In in E. split; eauto.
  - split; [intros [v [=]]|]. intro I. apply existsb_eqb_In in I. congruence.
Qed.

Lemma dict_get_append {V} (d : dict (list V)) (m k : Z) (x : V) :
  dict_get (dict_append d m x) k =
  match dict_get d k with
  | Some l => Some (if Z.eqb m k then l ++ [x] else l)
  | None => None
  end.
Proof.
  unfold dict_append. destruct (dict_get d m) as [l|] eqn:E.
  - rewrite dict_get_set. destruct (Z.eqb_spec m k) as [->|N].
    + now rewrite E.
    + now destruct (dict_get d k).
  - destruct (Z.eqb_spec m k) as [->|N]; [now rewrite E|].
    now destruct (dict_get d k).
Qed.

Lemma dict_keys_append {V} (d : dict (list V)) (m : Z) (x : V) :
  dict_keys (dict_append d m x) = dict_keys d.
Proof.
  unfold dict_append. destruct (dict_get d m) as [l|] eqn:E; [|reflexivity].
  rewrite dict_keys_set.
  assert (I : In m (dict_keys d)) by (apply dict_get_keys; eauto).
  apply existsb_eqb_In in I. now rewrite I.
Qed.

(** The loop that appends the image of every item to the entry of its
    module. *)
Definition scatter {T V} (place : T -> Z) (g : T -> V) (l : list T)
    (d0 : dict (list V)) : dict (list V) :=
  fold_left (fun d t => dict_append d (place t) (g t)) l d0.

Lemma scatter_keys {T V} (place : T -> Z) (g : T -> V) (l : list T) (d0 : dict (list V)) :
  dict_keys (scatter place g l d0) = dict_keys d0.
Proof.
  unfold scatter. revert d0. induction l as [|t l IH]; intro d0; simpl; [reflexivity|].
  now rewrite IH, dict_keys_append.
Qed.

Lemma scatter_get {T V} (place : T -> Z) (g : T -> V) (l : list T)
    (d0 : dict (list V)) (k : Z) :
  dict_get (scatter place g l d0) k =
  match dict_get d0 k with
  | Some l0 => Some (l0 ++ map g (filter (fun t => Z.eqb (place t) k) l))
  | None => None
  end.
Proof.
  unfold scatter. revert d0. induction l as [|t l IH]; intro d0; simpl.
  - destruct (dict_get d0 k); [now rewrite app_nil_r|reflexivity].
  - rewrite IH, dict_get_append. destruct (dict_get d0 k) as [l0|]; [|reflexivity].
    destruct (Z.eqb (place t) k); simpl; [now rewrite <- app_assoc|reflexivity].
Qed.

(** ** The split of the channels over the modules *)
Section SplitFacts.
Context `{Instrument}.

(** The module that [write_tones] gives a tone of frequency [fr], and the
    module that [sweep] gives a channel swept over [freqs]. *)
Definition nearest (nco : dict Q) (fr : Q) : option Z :=
  py_min_key (dict_keys nco) (CRS.tone_offset nco fr).

Definition nearest_span (nco : dict Q) (freqs : list Q) : option Z :=
  match py_max freqs, py_min freqs with
  | Some hi, Some lo => py_min_key (dict_keys nco) (CRS.span_offset nco hi lo)
  | _, _ => None
  end.

Definition or_zero (o : option Z) : Z :=
  match o with Some m => m | None => 0%Z end.

Definition home_tone (nco : dict Q) (t : nat * Q * Q) : Z :=
  or_zero (nearest nco (snd (fst t))).

Definition home_channel (nco : dict Q) (t : nat * list Q * Q) : Z :=
  or_zero (nearest_span nco (snd (fst t))).

Definition placed_tones (w : world) (l : list (nat * Q * Q)) : world :=
  let nco := nco_freq_dict w in
  with_ch_ix_dict
    (with_ares_dict
       (with_fres_dict w (scatter (home_tone nco) (fun t => snd (fst t)) l (fres_dict w)))
       (scatter (home_tone nco) snd l (ares_dict w)))
    (scatter (home_tone nco) (fun t => fst (fst t)) l (ch_ix_dict w)).

Definition placed_channels (w : world) (l : list (nat * list Q * Q)) : world :=
  let nco := nco_freq_dict w in
  with_ch_ix_dict
    (with_ares_dict
       (with_frequencies_dict w
          (scatter (home_channel nco) (fun t => snd (fst t)) l (frequencies_dict w)))
       (scatter (home_channel nco) snd l (ares_dict w)))
    (scatter (home_channel nco) (fun t => fst (fst t)) l (ch_ix_dict w)).

Lemma place_tones_run (l : list (nat * Q * Q)) (w : world) :
  nco_freq_dict w <> [] ->
  for_each l CRS.place_tone w = (Ok tt, placed_tones w l).
Proof.
  revert w. induction l as [|[[i fr] ar] l IH]; intros w N.
  - destruct w; reflexivity.
  - simpl for_each.
    assert (E : CRS.place_tone (i, fr, ar) w =
                (Ok tt, placed_tones w [(i, fr, ar)])).
    { unfold CRS.place_tone, placed_tones, home_tone, nearest.
      destruct w as [nco ? ? ? ? ? ? ? ? ? ? ?]. simpl in N.
      destruct nco as [|kv nco]; [congruence|]. reflexivity. }
    rewrite (bind_Ok _ _ _ _ _ E), IH.
    + destruct w; reflexivity.
    + destruct w; exact N.
Qed.

Lemma place_channel_step (i : nat) (row : list Q) (ar : Q) (w : world) :
  nco_freq_dict w <> [] -> row <> [] ->
  CRS.place_channel (i, row, ar) w = (Ok tt, placed_channels w [(i, row, ar)]).
Proof.
  intros N Hr.
  unfold CRS.place_channel, placed_channels, home_channel, nearest_span.
  destruct w as [nco ? ? ? ? ? ? ? ? ? ? ?]. simpl in N.
  destruct nco as [|kv nco]; [congruence|].
  destruct row as [|x row]; [congruence|]. reflexivity.
Qed.

Lemma place_channels_run (l : list (nat * list Q * Q)) (w : world) :
  nco_freq_dict w <> [] ->
  Forall (fun t => snd (fst t) <> []) l ->
  for_each l CRS.place_channel w = (Ok tt, placed_channels w l).
Proof.
  revert w. induction l as [|[[i row] ar] l IH]; intros w N F.
  - destruct w; reflexivity.
  - simpl for_each. inversion F as [|? ? Hr F']; subst. simpl in Hr.
    rewrite (bind_Ok _ _ _ _ _ (place_channel_step i row ar w N Hr)), IH.
    + destruct w; reflexivity.
    + destruct w; exact N.
    + exact F'.
Qed.

Lemma place_channels_raises (l : list (nat * list Q * Q)) (w : world) :
  nco_freq_dict w <> [] ->
  Exists (fun t => snd (fst t) = []) l ->
  fst (for_each l CRS.place_channel w) = Raise CRS.empty_sequence.
Proof.
  revert w. induction l as [|[[i row] ar] l IH]; intros w N F.
  - inversion F.
  - simpl for_each. destruct row as [|x row].
    + reflexivity.
    + inversion F as [? ? Hr|? ? F']; subst; [discriminate|].
      assert (Hr : x :: row <> []) by discriminate.
      rewrite (bind_Ok _ _ _ _ _ (place_channel_step i (x :: row) ar w N Hr)).
      apply IH; [|exact F']. destruct w; exact N.
Qed.

End SplitFacts.

(** ** The enumerated requests and the recorded indices *)

Lemma zip3_seq_nth {A B} (a : list A) (b : list B) (s i : nat) :
  nth_error (zip3 (seq s (length a)) a b) i =
  match nth_error a i, nth_error b i with
  | Some x, Some y => Some ((s + i)%nat, x, y)
  | _, _ => None
  end.
Proof.
  revert b s i. induction a as [|x a IH]; intros b s i; simpl.
  - now destruct i.
  - destruct b as [|y b]; simpl.
    + destruct i; simpl; [reflexivity|]. now destruct (nth_error a i).
    + destruct i; simpl; [now rewrite Nat.add_0_r|].
      rewrite IH. now rewrite Nat.add_succ_r.
Qed.

Lemma zip3_seq_In {A B} (a : list A) (b : list B) (i : nat) (x : A) (y : B) :
  In (i, x, y) (zip3 (seq 0 (length a)) a b) <->
  nth_error a i = Some x /\ nth_error b i = Some y.
Proof.
  split.
  - intro I. apply In_nth_error in I. destruct I as [j E].
    rewrite zip3_seq_nth in E.
    destruct (nth_error a j) eqn:Ea; [|discriminate].
    destruct (nth_error b j) eqn:Eb; [|discriminate].
    injection E as <- <- <-. auto.
  - intros [Ea Eb]. apply nth_error_In with i.
    now rewrite zip3_seq_nth, Ea, Eb.
Qed.

Lemma zip3_seq_indices {A B} (a : list A) (b : list B) (s : nat) :
  map (fun t => fst (fst t)) (zip3 (seq s (length a)) a b) =
  seq s (Nat.min (length a) (length b)).
Proof.
  revert b s. induction a as [|x a IH]; intros b s; simpl; [reflexivity|].
  destruct b as [|y b]; simpl; [reflexivity|]. now rewrite IH.
Qed.

Lemma dict_set_concat {V} (d : dict (list V)) (k : Z) (l0 : list V) (x : V) :
  dict_get d k = Some l0 ->
  Permutation (concat (map snd (dict_set d k (l0 ++ [x]))))
              (concat (map snd d) ++ [x]).
Proof.
  induction d as [|[k0 v0] d IH]; simpl; [discriminate|].
  destruct (Z.eqb_spec k0 k) as [->|N]; simpl.
  - intros [= ->]. rewrite <- !app_assoc. apply Permutation_app_head.
    apply Permutation_app_comm.
  - intro E. rewrite <- app_assoc. apply Permutation_app_head. now apply IH.
Qed.

Lemma scatter_concat {T V} (place : T -> Z) (g : T -> V) (l : list T) (d0 : dict (list V)) :
  (forall t, In t l -> In (place t) (dict_keys d0)) ->
  Permutation (concat (map snd (scatter place g l d0)))
              (concat (map snd d0) ++ map g l).
Proof.
  unfold scatter. revert d0. induction l as [|t l IH]; intros d0 Hp; simpl.
  - now rewrite app_nil_r.
  - rewrite IH.
    + assert (I : In (place t) (dict_keys d0)) by (apply Hp; now left).
      apply dict_get_keys in I. destruct I as [l0 E].
      unfold dict_append. rewrite E.
      rewrite (dict_set_concat _ _ _ _ E), <- app_assoc. reflexivity.
    + intros t' I. rewrite dict_keys_append. apply Hp. now right.
Qed.

Lemma dict_init_concat {V} (keys : list Z) :
  concat (map snd (@dict_init V keys)) = [].
Proof.
  unfold dict_init.
  assert (G : forall d0 : dict (list V),
            concat (map snd d0) = [] ->
            concat (map snd (fold_left (fun d k => dict_set d k []) keys d0)) = []).
  { induction keys as [|k keys IH]; intros d0 E; simpl; [exact E|].
    apply IH. clear IH. induction d0 as [|[k0 v0] d0 IH]; simpl; [reflexivity|].
    simpl in E. apply app_eq_nil in E. destruct E as [-> E].
    destruct (Z.eqb k0 k); simpl; [exact E|now apply IH]. }
  now apply G.
Qed.

Lemma index_of_spec (x : nat) (l : list nat) :
  match index_of x l with
  | Some j => nth_error l j = Some x
  | None => ~ In x l
  end.
Proof.
  induction l as [|y l IH]; simpl; [tauto|].
  destruct (Nat.eqb_spec y x) as [->|N]; [reflexivity|].
  destruct (index_of x l); simpl; [exact IH|]. intros [E|I]; auto.
Qed.

Lemma find_key_and_index_spec (d : dict (list nat)) (x : nat) :
  match find_key_and_index d x with
  | Some (k, j) => exists l, In (k, l) d /\ nth_error l j = Some x
  | None => forall k l, In (k, l) d -> ~ In x l
  end.
Proof.
  induction d as [|[k0 l0] d IH]; simpl; [tauto|].
  pose proof (index_of_spec x l0) as S.
  destruct (index_of x l0) as [j|].
  - exists l0. split; [now left|exact S].
  - destruct (find_key_and_index d x) as [[k j]|].
    + destruct IH as (l & I & E). exists l. split; [now right|exact E].
    + intros k l [E|I]; [injection E as <- <-; exact S|now apply (IH k l)].
Qed.

Lemma NoDup_app_disjoint {A} (l1 l2 : list A) (x : A) :
  NoDup (l1 ++ l2) -> In x l1 -> ~ In x l2.
Proof.
  induction l1 as [|a l1 IH]; simpl; [intros _ []|].
  intros N [->|I] I2.
  - inversion N as [|? ? Na _]; subst. apply Na. apply in_or_app. now right.
  - inversion N; subst. now apply IH.
Qed.

(** In a dictionary whose lists are disjoint and without repetition, the
    helper finds the one position of an index. *)
Lemma find_key_and_index_unique (d : dict (list nat)) (x : nat) (k : Z) (l : list nat) (j : nat) :
  NoDup (dict_keys d) -> NoDup (concat (map snd d)) ->
  dict_get d k = Some l -> nth_error l j = Some x ->
  find_key_and_index d x = Some (k, j).
Proof.
  intros Nk Nc Ek Ej.
  pose proof (find_key_and_index_spec d x) as S.
  destruct (find_key_and_index d x) as [[k' j']|].
  - destruct S as (l' & I' & E').
    assert (I : In (k, l) d) by now apply dict_get_In.
    clear Ek Nk. revert Nc I I'. induction d as [|[k0 l0] d IH]; simpl; [intros _ []|].
    intros Nc [E|I] [E'0|I'0].
    + injection E as -> ->. injection E'0 as -> ->.
      f_equal. f_equal. apply NoDup_app_remove_r in Nc.
      rewrite NoDup_nth_error in Nc. apply Nc; [|congruence].
      apply nth_error_Some. congruence.
    + injection E as -> ->. exfalso.
      apply (NoDup_app_disjoint _ _ x Nc); [now apply nth_error_In with j|].
      apply in_concat. exists l'. split; [|now apply nth_error_In with j'].
      change l' with (snd (k', l')). now apply in_map.
    + injection E'0 as -> ->. exfalso.
      apply (NoDup_app_disjoint _ _ x Nc); [now apply nth_error_In with j'|].
      apply in_concat. exists l. split; [|now apply nth_error_In with j].
      change l with (snd (k, l)). now apply in_map.
    + apply IH; auto. now apply NoDup_app_remove_l in Nc.
  - exfalso. apply (S k l); [now apply dict_get_In|now apply nth_error_In with j].
Qed.

(** Side conditions of the frame lemmas for a relation that is a
    conjunction of equations between fields. *)
Ltac frame_side R :=
  unfold R; intros; cbn; intuition congruence.

(** ** The runs of [split_tones] and [split_sweep] *)
Section SplitRuns.
Context `{Instrument}.

(** The dictionaries of [self] right after they are created. *)
Definition cleared_tones (w : world) : world :=
  let keys := dict_keys (nco_freq_dict w) in
  with_ch_ix_dict (with_ares_dict (with_fres_dict w (dict_init keys)) (dict_init keys))
                  (dict_init keys).

Definition cleared_channels (w : world) : world :=
  let keys := dict_keys (nco_freq_dict w) in
  with_ch_ix_dict (with_ares_dict (with_frequencies_dict w (dict_init keys)) (dict_init keys))
                  (dict_init keys).

(** The world after the split of [write_tones] and of [sweep]. *)
Definition tones_split (w : world) (fres ares : list Q) : world :=
  placed_tones (cleared_tones w) (zip3 (seq 0 (length fres)) fres ares).

Definition channels_split (w : world) (frequencies : list (list Q)) (ares : list Q) : world :=
  placed_channels (cleared_channels w) (zip3 (seq 0 (length frequencies)) frequencies ares).

Definition tones_bad (w : world) (k : Z) : bool :=
  match dict_get (fres_dict w) k, dict_get (nco_freq_dict w) k with
  | Some fm, Some n => CRS.out_of_band n fm
  | _, _ => false
  end.

Definition channels_bad (w : world) (k : Z) : bool :=
  match dict_get (frequencies_dict w) k, dict_get (nco_freq_dict w) k with
  | Some fm, Some n => CRS.out_of_band n (concat fm)
  | _, _ => false
  end.

Lemma check_tones_run (keys : list Z) (w : world) :
  (forall k, In k keys -> In k (dict_keys (fres_dict w)) /\ In k (dict_keys (nco_freq_dict w))) ->
  for_each keys CRS.check_tones w =
  (if existsb (tones_bad w) keys then Raise CRS.fres_out_of_band else Ok tt, w).
Proof.
  induction keys as [|k keys IH]; intro Hk; simpl; [reflexivity|].
  destruct (Hk k (or_introl eq_refl)) as [I1 I2].
  apply dict_get_keys in I1, I2. destruct I1 as [fm E1]. destruct I2 as [n E2].
  unfold bind at 1. unfold CRS.check_tones at 1. unfold tones_bad at 1.
  unfold bind, get. rewrite E1, E2. simpl.
  destruct (CRS.out_of_band n fm); simpl; [reflexivity|].
  apply IH. intros k' I. apply Hk. now right.
Qed.

Lemma check_frequencies_run (keys : list Z) (w : world) :
  (forall k, In k keys ->
             In k (dict_keys (frequencies_dict w)) /\ In k (dict_keys (nco_freq_dict w))) ->
  for_each keys CRS.check_frequencies w =
  (if existsb (channels_bad w) keys then Raise CRS.frequencies_out_of_band else Ok tt, w).
Proof.
  induction keys as [|k keys IH]; intro Hk; simpl; [reflexivity|].
  destruct (Hk k (or_introl eq_refl)) as [I1 I2].
  apply dict_get_keys in I1, I2. destruct I1 as [fm E1]. destruct I2 as [n E2].
  unfold bind at 1. unfold CRS.check_frequencies at 1. unfold channels_bad at 1.
  unfold bind, get. rewrite E1, E2. simpl.
  destruct (CRS.out_of_band n (concat fm)); simpl; [reflexivity|].
  apply IH. intros k' I. apply Hk. now right.
Qed.

Lemma nco_nonempty (w : world) :
  nco_freq_dict w <> [] -> Nat.eqb (length (nco_freq_dict w)) 0 = false.
Proof. destruct (nco_freq_dict w); [congruence|reflexivity]. Qed.

Lemma tones_split_nco w fres ares :
  nco_freq_dict (tones_split w fres ares) = nco_freq_dict w.
Proof. reflexivity. Qed.

Lemma split_tones_run (fres ares : list Q) (w : world) :
  nco_freq_dict w <> [] ->
  CRS.split_tones fres ares w =
  (if existsb (tones_bad (tones_split w fres ares)) (dict_keys (nco_freq_dict w))
   then Raise CRS.fres_out_of_band else Ok tt,
   tones_split w fres ares).
Proof.
  intro N. unfold CRS.split_tones. unfold bind at 1. unfold get at 1.
  rewrite (nco_nonempty w N).
  assert (E : for_each (zip3 (seq 0 (length fres)) fres ares) CRS.place_tone
                (cleared_tones w) = (Ok tt, tones_split w fres ares)).
  { apply place_tones_run. exact N. }
  unfold bind, modify. fold (cleared_tones w).
  change (with_ch_ix_dict _ _) with (cleared_tones w).
  rewrite E. apply check_tones_run.
  intros k I. split; [|exact I].
  unfold tones_split, placed_tones. simpl.
  rewrite scatter_keys. now apply dict_init_spec.
Qed.


Lemma split_sweep_run (frequencies : list (list Q)) (ares : list Q) (w : world) :
  nco_freq_dict w <> [] ->
  Forall (fun t : nat * list Q * Q => snd (fst t) <> [])
         (zip3 (seq 0 (length frequencies)) frequencies ares) ->
  CRS.split_sweep frequencies ares w =
  (if existsb (channels_bad (channels_split w frequencies ares)) (dict_keys (nco_freq_dict w))
   then Raise CRS.frequencies_out_of_band else Ok tt,
   channels_split w frequencies ares).
Proof.
  intros N F. unfold CRS.split_sweep. unfold bind at 1. unfold get at 1.
  rewrite (nco_nonempty w N).
  assert (E : for_each (zip3 (seq 0 (length frequencies)) frequencies ares) CRS.place_channel
                (cleared_channels w) = (Ok tt, channels_split w frequencies ares)).
  { apply place_channels_run; [exact N|exact F]. }
  unfold bind, modify.
  change (with_ch_ix_dict _ _) with (cleared_channels w).
  rewrite E. apply check_frequencies_run.
  intros k I. split; [|exact I].
  unfold channels_split, placed_channels. simpl.
  rewrite scatter_keys. now apply dict_init_spec.
Qed.

Lemma split_sweep_empty_row (frequencies : list (list Q)) (ares : list Q) (w : world) :
  nco_freq_dict w <> [] ->
  Exists (fun t : nat * list Q * Q => snd (fst t) = [])
         (zip3 (seq 0 (length frequencies)) frequencies ares) ->
  fst (CRS.split_sweep frequencies ares w) = Raise CRS.empty_sequence.
Proof.
  intros N F. unfold CRS.split_sweep. unfold bind at 1. unfold get at 1.
  rewrite (nco_nonempty w N).
  unfold bind, modify.
  change (with_ch_ix_dict _ _) with (cleared_channels w).
  pose proof (place_channels_raises _ (cleared_channels w) N F) as E.
  destruct (for_each _ CRS.place_channel (cleared_channels w)) as [[[]|e] w1];
    simpl in E; [discriminate|now rewrite E].
Qed.

Lemma scatter_init_get {T V} (place : T -> Z) (g : T -> V) (l : list T)
    (keys : list Z) (k : Z) :
  dict_get (scatter place g l (dict_init keys)) k =
  if existsb (Z.eqb k) keys
  then Some (map g (filter (fun t => Z.eqb (place t) k) l)) else None.
Proof.
  rewrite scatter_get. destruct (dict_init_spec (V := V) keys) as (_ & G & _).
  rewrite G. now destruct (existsb _ _).
Qed.

(** The relation between two worlds with the same NCO table, the same
    recorded indices and the same amplitudes. *)
Definition same_split (w w' : world) : Prop :=
  nco_freq_dict w' = nco_freq_dict w /\
  ch_ix_dict w' = ch_ix_dict w /\
  ares_dict w' = ares_dict w.

Lemma bind_keeps_snd {A B} (R : world -> world -> Prop) (m : M A) (k : A -> M B) (w : world) :
  (forall w, R w w) -> (forall a, keeps R (k a)) -> R (snd (m w)) (snd (bind m k w)).
Proof.
  intros Rr Hk. unfold bind. destruct (m w) as [[a|e] w1]; simpl; [apply Hk|apply Rr].
Qed.

Lemma keeps_set_fir_stage_split (n : Z) : keeps same_split (d.set_fir_stage n).
Proof. intro w. unfold same_split. cbn. auto. Qed.

Lemma write_tones_same_split (fres ares : list Q) (w : world) :
  nco_freq_dict w <> [] ->
  same_split (tones_split w fres ares) (snd (CRS.write_tones fres ares w)).
Proof.
  intro N. unfold CRS.write_tones.
  replace (tones_split w fres ares) with (snd (CRS.split_tones fres ares w))
    by now rewrite split_tones_run.
  apply bind_keeps_snd; [frame_side same_split|].
  intros _. apply keeps_write_modules; frame_side same_split.
Qed.

Lemma sweep_same_split (frequencies : list (list Q)) (ares : list Q) (nsamps : nat) (w : world) :
  nco_freq_dict w <> [] ->
  Forall (fun t : nat * list Q * Q => snd (fst t) <> [])
         (zip3 (seq 0 (length frequencies)) frequencies ares) ->
  same_split (channels_split w frequencies ares) (snd (CRS.sweep frequencies ares nsamps w)).
Proof.
  intros N F. unfold CRS.sweep.
  replace (channels_split w frequencies ares)
    with (snd (CRS.split_sweep frequencies ares w))
    by now rewrite split_sweep_run.
  apply bind_keeps_snd; [frame_side same_split|].
  intros _.
  apply keeps_bind; [frame_side same_split|apply keeps_set_fir_stage_split|intros _].
  apply keeps_bind; [frame_side same_split| |intros [sf sz]].
  { apply keeps_sweep_modules; frame_side same_split. }
  apply keeps_bind; [frame_side same_split| |intros [f z]].
  { apply keeps_merge_sweep; frame_side same_split. }
  apply keeps_bind; [frame_side same_split| |intros z'].
  { apply keeps_normalize; frame_side same_split. }
  apply keeps_ret. frame_side same_split.
Qed.

Lemma zip3_rows_nonempty (frequencies : list (list Q)) (ares : list Q) :
  Forall (fun row => row <> []) frequencies ->
  Forall (fun t : nat * list Q * Q => snd (fst t) <> [])
         (zip3 (seq 0 (length frequencies)) frequencies ares).
Proof.
  intro F. apply Forall_forall. intros [[i row] a] I.
  apply zip3_seq_In in I. destruct I as [E _]. simpl.
  rewrite Forall_forall in F. apply F. now apply nth_error_In with i.
Qed.

End SplitRuns.

(** ** C1: the module of a channel *)
Section Assignment.
Context `{Instrument}.

Lemma tones_split_ch_ix (w : world) (fres ares : list Q) (i : nat) (fr : Q) (m : Z) :
  nth_error fres i = Some fr -> (i < length ares)%nat ->
  nearest (nco_freq_dict w) fr = Some m ->
  exists l, dict_get (ch_ix_dict (tones_split w fres ares)) m = Some l /\ In i l.
Proof.
  intros Ef Hi Em.
  destruct (nth_error ares i) as [ar|] eqn:Ea;
    [|apply nth_error_None in Ea; lia].
  unfold tones_split, placed_tones. cbn [ch_ix_dict with_ch_ix_dict].
  cbn [nco_freq_dict cleared_tones with_ch_ix_dict with_ares_dict with_fres_dict].
  unfold cleared_tones at 1. cbn [ch_ix_dict with_ch_ix_dict].
  rewrite scatter_init_get.
  assert (Im : In m (dict_keys (nco_freq_dict w))).
  { unfold nearest in Em. now apply py_min_key_spec in Em. }
  apply existsb_eqb_In in Im. rewrite Im. eexists. split; [reflexivity|].
  apply in_map_iff. exists (i, fr, ar). split; [reflexivity|].
  apply filter_In. split; [now apply zip3_seq_In|].
  unfold home_tone. simpl. rewrite Em. apply Z.eqb_refl.
Qed.

Lemma channels_split_ch_ix (w : world) (frequencies : list (list Q)) (ares : list Q)
    (i : nat) (freqs : list Q) (m : Z) :
  nth_error frequencies i = Some freqs -> (i < length ares)%nat ->
  nearest_span (nco_freq_dict w) freqs = Some m ->
  exists l, dict_get (ch_ix_dict (channels_split w frequencies ares)) m = Some l /\ In i l.
Proof.
  intros Ef Hi Em.
  destruct (nth_error ares i) as [ar|] eqn:Ea;
    [|apply nth_error_None in Ea; lia].
  unfold channels_split, placed_channels. cbn [ch_ix_dict with_ch_ix_dict].
  cbn [nco_freq_dict cleared_channels with_ch_ix_dict with_ares_dict with_frequencies_dict].
  unfold cleared_channels at 1. cbn [ch_ix_dict with_ch_ix_dict].
  rewrite scatter_init_get.
  assert (Im : In m (dict_keys (nco_freq_dict w))).
  { unfold nearest_span in Em.
    destruct (py_max freqs); [|discriminate]. destruct (py_min freqs); [|discriminate].
    now apply py_min_key_spec in Em. }
  apply existsb_eqb_In in Im. rewrite Im. eexists. split; [reflexivity|].
  apply in_map_iff. exists (i, freqs, ar). split; [reflexivity|].
  apply filter_In. split; [now apply zip3_seq_In|].
  unfold home_channel. simpl. rewrite Em. apply Z.eqb_refl.
Qed.

(** The key of [min] at the module [k] of the table, whose NCO is [nk]. *)
Lemma tone_offset_at (nco : dict Q) (fr : Q) (k : Z) (nk : Q) :
  dict_get nco k = Some nk -> CRS.tone_offset nco fr k = Qabs (fl (nk - fr)).
Proof. intro E. unfold CRS.tone_offset, CRS.nco_of. now rewrite E. Qed.

Lemma span_offset_at (nco : dict Q) (hi lo : Q) (k : Z) (nk : Q) :
  dict_get nco k = Some nk ->
  CRS.span_offset nco hi lo k == Qmax (Qabs (fl (nk - hi))) (Qabs (fl (nk - lo))).
Proof.
  intro E. unfold CRS.span_offset, CRS.nco_of. rewrite E. apply max_from_Qmax.
Qed.

(** Two offsets whose doubles are in order are in order up to the rounding
    of either. *)
Lemma rounded_le_exact (a b : Q) :
  Qabs a <= 2 ^ 1023 -> Qabs b <= 2 ^ 1023 ->
  Qabs (fl a) <= Qabs (fl b) ->
  Qabs a <= Qabs b + (Qabs a + Qabs b) * 2 ^ (-53) + 2 ^ (-1074).
Proof.
  intros La Lb L.
  pose proof (fl_abs_error a La) as Ea. pose proof (fl_abs_error b Lb) as Eb.
  apply Qabs_Qle_condition in Ea, Eb.
  assert (V : 2 ^ (-1074) == 2 * 2 ^ (-1075)) by reflexivity.
  rewrite V. set (u := 2 ^ (-53)) in *. set (v := 2 ^ (-1075)) in *.
  clearbody u v. clear V La Lb.
  set (A := Qabs (fl a)) in *. set (B := Qabs (fl b)) in *.
  set (x := Qabs a) in *. set (y := Qabs b) in *. clearbody A B x y.
  lra.
Qed.

Lemma rounded_span_le_exact (a1 a2 b1 b2 : Q) :
  Qmax (Qabs a1) (Qabs a2) <= 2 ^ 1023 -> Qmax (Qabs b1) (Qabs b2) <= 2 ^ 1023 ->
  Qmax (Qabs (fl a1)) (Qabs (fl a2)) <= Qmax (Qabs (fl b1)) (Qabs (fl b2)) ->
  Qmax (Qabs a1) (Qabs a2) <=
  Qmax (Qabs b1) (Qabs b2) +
  (Qmax (Qabs a1) (Qabs a2) + Qmax (Qabs b1) (Qabs b2)) * 2 ^ (-53) + 2 ^ (-1074).
Proof.
  intros La Lb L.
  assert (La1 : Qabs a1 <= 2 ^ 1023) by (eapply Qle_trans; [apply Q.le_max_l|exact La]).
  assert (La2 : Qabs a2 <= 2 ^ 1023) by (eapply Qle_trans; [apply Q.le_max_r|exact La]).
  assert (Lb1 : Qabs b1 <= 2 ^ 1023) by (eapply Qle_trans; [apply Q.le_max_l|exact Lb]).
  assert (Lb2 : Qabs b2 <= 2 ^ 1023) by (eapply Qle_trans; [apply Q.le_max_r|exact Lb]).
  pose proof (fl_abs_error a1 La1) as E1. pose proof (fl_abs_error a2 La2) as E2.
  pose proof (fl_abs_error b1 Lb1) as F1. pose proof (fl_abs_error b2 Lb2) as F2.
  apply Qabs_Qle_condition in E1, E2, F1, F2.
  assert (V : 2 ^ (-1074) == 2 * 2 ^ (-1075)) by reflexivity.
  assert (U : 0 <= 2 ^ (-53)) by discriminate.
  rewrite V. set (u := 2 ^ (-53)) in *. set (v := 2 ^ (-1075)) in *.
  clearbody u v. clear V La Lb La1 La2 Lb1 Lb2.
  pose proof (Q.le_max_l (Qabs (fl a1)) (Qabs (fl a2))) as K1.
  pose proof (Q.le_max_r (Qabs (fl a1)) (Qabs (fl a2))) as K2.
  pose proof (Q.le_max_l (Qabs b1) (Qabs b2)) as S1.
  pose proof (Q.le_max_r (Qabs b1) (Qabs b2)) as S2.
  pose proof (Q.le_max_l (Qabs a1) (Qabs a2)) as T1.
  pose proof (Q.le_max_r (Qabs a1) (Qabs a2)) as T2.
  assert (KB : Qmax (Qabs (fl b1)) (Qabs (fl b2)) <=
               Qmax (Qabs b1) (Qabs b2) + Qmax (Qabs b1) (Qabs b2) * u + v).
  { apply Q.max_lub.
    - apply Qle_trans with (Qabs b1 + Qabs b1 * u + v); [lra|].
      assert (Qabs b1 * u <= Qmax (Qabs b1) (Qabs b2) * u)
        by (apply Qmult_le_compat_r; assumption). lra.
    - apply Qle_trans with (Qabs b2 + Qabs b2 * u + v); [lra|].
      assert (Qabs b2 * u <= Qmax (Qabs b1) (Qabs b2) * u)
        by (apply Qmult_le_compat_r; assumption). lra. }
  set (SB := Qmax (Qabs b1) (Qabs b2)) in *.
  set (KBf := Qmax (Qabs (fl b1)) (Qabs (fl b2))) in *.
  set (KA := Qmax (Qabs (fl a1)) (Qabs (fl a2))) in *.
  assert (M1 : Qabs a1 * u <= Qmax (Qabs a1) (Qabs a2) * u)
    by (apply Qmult_le_compat_r; assumption).
  assert (M2 : Qabs a2 * u <= Qmax (Qabs a1) (Qabs a2) * u)
    by (apply Qmult_le_compat_r; assumption).
  set (SA := Qmax (Qabs a1) (Qabs a2)) in *.
  assert (G1 : Qabs a1 <= SB + (SA + SB) * u + 2 * v) by lra.
  assert (G2 : Qabs a2 <= SB + (SA + SB) * u + 2 * v) by lra.
  unfold SA at 1. now apply Q.max_lub.
Qed.

(** The largest and the least item of a row, up to the way a rational is
    written. *)
Lemma py_max_eq (l : list Q) (hi : Q) :
  In hi l -> (forall x, In x l -> x <= hi) -> exists hi', py_max l = Some hi' /\ hi' == hi.
Proof.
  intros I U. destruct (py_max_some l) as [hi' E]; [now destruct l|].
  exists hi'. split; [exact E|]. apply py_max_spec in E. destruct E as [I' U'].
  apply Qle_antisym; auto.
Qed.

Lemma py_min_eq (l : list Q) (lo : Q) :
  In lo l -> (forall x, In x l -> lo <= x) -> exists lo', py_min l = Some lo' /\ lo' == lo.
Proof.
  intros I U. destruct (py_min_some l) as [lo' E]; [now destruct l|].
  exists lo'. split; [exact E|]. apply py_min_spec in E. destruct E as [I' U'].
  apply Qle_antisym; auto.
Qed.

Lemma fl_minus_comp (n a b : Q) : a == b -> fl (n - a) = fl (n - b).
Proof. intro E. apply fl_comp. now rewrite E. Qed.

(** C1.  With a non-empty NCO table, [write_tones] records every channel
    in the list of the first module of the table whose offset from the
    frequency of the channel, as the double-precision subtraction gives
    it, is least: no module has a smaller double, and the modules listed
    before it have a larger one.  In exact terms the module is the nearest
    up to the rounding of the two offsets.  [sweep], on rows that are not
    empty, does the same with the larger of the two double-precision
    offsets from the largest and the least point of the row.  With the
    table {1: 500e6, 2: 1200e6} the request of 500.1e6 and 1200.2e6 records
    channel 0 for module 1 and channel 1 for module 2. *)
Theorem channels_go_to_nearest_nco (w : world) :
  nco_freq_dict w <> [] ->
  let nco := nco_freq_dict w in
  (forall fres ares i fr,
     nth_error fres i = Some fr -> (i < length ares)%nat ->
     exists m l nm before after,
       dict_get (ch_ix_dict (snd (CRS.write_tones fres ares w))) m = Some l /\ In i l /\
       dict_get nco m = Some nm /\
       dict_keys nco = before ++ m :: after /\
       forall k nk, dict_get nco k = Some nk ->
         Qabs (fl (nm - fr)) <= Qabs (fl (nk - fr)) /\
         (In k before -> Qabs (fl (nm - fr)) < Qabs (fl (nk - fr))) /\
         (Qabs (nm - fr) <= 2 ^ 1023 -> Qabs (nk - fr) <= 2 ^ 1023 ->
          Qabs (nm - fr) <=
          Qabs (nk - fr) + (Qabs (nm - fr) + Qabs (nk - fr)) * 2 ^ (-53) + 2 ^ (-1074))) /\
  (forall frequencies ares nsamps i freqs hi lo,
     Forall (fun row => row <> []) frequencies ->
     nth_error frequencies i = Some freqs -> (i < length ares)%nat ->
     In hi freqs -> (forall x, In x freqs -> x <= hi) ->
     In lo freqs -> (forall x, In x freqs -> lo <= x) ->
     exists m l nm before after,
       dict_get (ch_ix_dict (snd (CRS.sweep frequencies ares nsamps w))) m = Some l /\
       In i l /\
       dict_get nco m = Some nm /\
       dict_keys nco = before ++ m :: after /\
       forall k nk, dict_get nco k = Some nk ->
         Qmax (Qabs (fl (nm - hi))) (Qabs (fl (nm - lo))) <=
         Qmax (Qabs (fl (nk - hi))) (Qabs (fl (nk - lo))) /\
         (In k before ->
          Qmax (Qabs (fl (nm - hi))) (Qabs (fl (nm - lo))) <
          Qmax (Qabs (fl (nk - hi))) (Qabs (fl (nk - lo)))) /\
         (Qmax (Qabs (nm - hi)) (Qabs (nm - lo)) <= 2 ^ 1023 ->
          Qmax (Qabs (nk - hi)) (Qabs (nk - lo)) <= 2 ^ 1023 ->
          Qmax (Qabs (nm - hi)) (Qabs (nm - lo)) <=
          Qmax (Qabs (nk - hi)) (Qabs (nk - lo)) +
          (Qmax (Qabs (nm - hi)) (Qabs (nm - lo)) +
           Qmax (Qabs (nk - hi)) (Qabs (nk - lo))) * 2 ^ (-53) + 2 ^ (-1074))) /\
  (nco = [(1%Z, 500e6); (2%Z, 1200e6)] ->
   forall a0 a1,
     ch_ix_dict (snd (CRS.write_tones [500.1e6; 1200.2e6] [a0; a1] w)) =
     [(1%Z, [0%nat]); (2%Z, [1%nat])]).
Proof.
  intros N nco. split; [|split].
  - intros fres ares i fr Ef Hi.
    destruct (py_min_key_some (CRS.tone_offset nco fr) (dict_keys nco)) as [m Em].
    { subst nco. destruct (nco_freq_dict w); [congruence|discriminate]. }
    destruct (tones_split_ch_ix w fres ares i fr m Ef Hi Em) as (l & El & Il).
    destruct (write_tones_same_split fres ares w N) as (_ & Ec & _).
    destruct (py_min_key_first _ _ _ Em) as (before & after & Ek & Hb & Ha).
    destruct (py_min_key_spec _ _ _ Em) as [Im Min].
    destruct (proj1 (dict_get_keys nco m) Im) as [nm Enm].
    exists m, l, nm, before, after. rewrite Ec.
    split; [exact El|]. split; [exact Il|]. split; [exact Enm|]. split; [exact Ek|].
    intros k nk Ek'.
    assert (Ik : In k (dict_keys nco)) by (apply dict_get_keys; eauto).
    rewrite <- (tone_offset_at nco fr m nm Enm), <- (tone_offset_at nco fr k nk Ek').
    split; [now apply Min|]. split; [now apply Hb|].
    intros La Lb. apply rounded_le_exact; [exact La|exact Lb|].
    rewrite <- (tone_offset_at nco fr m nm Enm), <- (tone_offset_at nco fr k nk Ek').
    now apply Min.
  - intros frequencies ares nsamps i freqs hi lo F Ef Hi Ihi Uhi Ilo Ulo.
    destruct (py_max_eq freqs hi Ihi Uhi) as (hi' & Ehi & Qhi).
    destruct (py_min_eq freqs lo Ilo Ulo) as (lo' & Elo & Qlo).
    destruct (py_min_key_some (CRS.span_offset nco hi' lo') (dict_keys nco)) as [m Em].
    { subst nco. destruct (nco_freq_dict w); [congruence|discriminate]. }
    assert (Es : nearest_span nco freqs = Some m).
    { unfold nearest_span. now rewrite Ehi, Elo. }
    destruct (channels_split_ch_ix w frequencies ares i freqs m Ef Hi Es) as (l & El & Il).
    destruct (sweep_same_split frequencies ares nsamps w N
                (zip3_rows_nonempty frequencies ares F)) as (_ & Ec & _).
    destruct (py_min_key_first _ _ _ Em) as (before & after & Ek & Hb & Ha).
    destruct (py_min_key_spec _ _ _ Em) as [Im Min].
    destruct (proj1 (dict_get_keys nco m) Im) as [nm Enm].
    exists m, l, nm, before, after. rewrite Ec.
    split; [exact El|]. split; [exact Il|]. split; [exact Enm|]. split; [exact Ek|].
    intros k nk Ek'.
    assert (Ik : In k (dict_keys nco)) by (apply dict_get_keys; eauto).
    assert (Km : CRS.span_offset nco hi' lo' m ==
                 Qmax (Qabs (fl (nm - hi))) (Qabs (fl (nm - lo)))).
    { rewrite (span_offset_at nco hi' lo' m nm Enm).
      now rewrite (fl_minus_comp nm hi' hi Qhi), (fl_minus_comp nm lo' lo Qlo). }
    assert (Kk : CRS.span_offset nco hi' lo' k ==
                 Qmax (Qabs (fl (nk - hi))) (Qabs (fl (nk - lo)))).
    { rewrite (span_offset_at nco hi' lo' k nk Ek').
      now rewrite (fl_minus_comp nk hi' hi Qhi), (fl_minus_comp nk lo' lo Qlo). }
    rewrite <- Km, <- Kk.
    split; [now apply Min|]. split; [now apply Hb|].
    intros La Lb. apply rounded_span_le_exact; [exact La|exact Lb|].
    rewrite <- Km, <- Kk. now apply Min.
  - intros E a0 a1.
    destruct (write_tones_same_split [500.1e6; 1200.2e6] [a0; a1] w N) as (_ & Ec & _).
    rewrite Ec. unfold tones_split, placed_tones.
    cbn [ch_ix_dict with_ch_ix_dict nco_freq_dict cleared_tones with_ares_dict with_fres_dict].
    fold nco. rewrite E. vm_compute. reflexivity.
Qed.

End Assignment.

(** ** C3: the check of the bandwidth *)
Section Bandwidth.
Context `{Instrument}.

(** Nothing was sent to the device and its decimation is unchanged. *)
Definition same_device (w w' : world) : Prop :=
  trace w' = trace w /\ fir_stage w' = fir_stage w.

Lemma bind_Raise_fst {A B} (m : M A) (k : A -> M B) (w : world) (e : exn) :
  fst (m w) = Raise e -> bind m k w = (Raise e, snd (m w)).
Proof.
  unfold bind. destruct (m w) as [[a|e'] w1]; simpl; [discriminate|]. now intros [= ->].
Qed.

Lemma rows_empty_dec (l : list (nat * list Q * Q)) :
  Forall (fun t => snd (fst t) <> []) l \/ Exists (fun t => snd (fst t) = []) l.
Proof.
  induction l as [|[[i row] a] l [IH|IH]].
  - left. constructor.
  - destruct row as [|x row].
    + right. now constructor.
    + left. constructor; [discriminate|exact IH].
  - right. now constructor 2.
Qed.

Lemma tones_split_fres (w : world) (fres ares : list Q) (i : nat) (fr : Q) (m : Z) :
  nth_error fres i = Some fr -> (i < length ares)%nat ->
  nearest (nco_freq_dict w) fr = Some m ->
  exists l, dict_get (fres_dict (tones_split w fres ares)) m = Some l /\ In fr l.
Proof.
  intros Ef Hi Em.
  destruct (nth_error ares i) as [ar|] eqn:Ea;
    [|apply nth_error_None in Ea; lia].
  unfold tones_split, placed_tones.
  cbn [fres_dict with_ch_ix_dict with_ares_dict with_fres_dict].
  cbn [nco_freq_dict cleared_tones with_ch_ix_dict with_ares_dict with_fres_dict].
  unfold cleared_tones at 1. cbn [fres_dict with_ch_ix_dict with_ares_dict with_fres_dict].
  rewrite scatter_init_get.
  assert (Im : In m (dict_keys (nco_freq_dict w))).
  { unfold nearest in Em. now apply py_min_key_spec in Em. }
  apply existsb_eqb_In in Im. rewrite Im. eexists. split; [reflexivity|].
  apply in_map_iff. exists (i, fr, ar). split; [reflexivity|].
  apply filter_In. split; [now apply zip3_seq_In|].
  unfold home_tone. simpl. rewrite Em. apply Z.eqb_refl.
Qed.

Lemma channels_split_frequencies (w : world) (frequencies : list (list Q)) (ares : list Q)
    (i : nat) (freqs : list Q) (m : Z) :
  nth_error frequencies i = Some freqs -> (i < length ares)%nat ->
  nearest_span (nco_freq_dict w) freqs = Some m ->
  exists l, dict_get (frequencies_dict (channels_split w frequencies ares)) m = Some l /\
            In freqs l.
Proof.
  intros Ef Hi Em.
  destruct (nth_error ares i) as [ar|] eqn:Ea;
    [|apply nth_error_None in Ea; lia].
  unfold channels_split, placed_channels.
  cbn [frequencies_dict with_ch_ix_dict with_ares_dict with_frequencies_dict].
  cbn [nco_freq_dict cleared_channels with_ch_ix_dict with_ares_dict with_frequencies_dict].
  unfold cleared_channels at 1.
  cbn [frequencies_dict with_ch_ix_dict with_ares_dict with_frequencies_dict].
  rewrite scatter_init_get.
  assert (Im : In m (dict_keys (nco_freq_dict w))).
  { unfold nearest_span in Em.
    destruct (py_max freqs); [|discriminate]. destruct (py_min freqs); [|discriminate].
    now apply py_min_key_spec in Em. }
  apply existsb_eqb_In in Im. rewrite Im. eexists. split; [reflexivity|].
  apply in_map_iff. exists (i, freqs, ar). split; [reflexivity|].
  apply filter_In. split; [now apply zip3_seq_In|].
  unfold home_channel. simpl. rewrite Em. apply Z.eqb_refl.
Qed.

Lemma out_of_band_In (n f : Q) (l : list Q) :
  In f l -> 325e6 + 2 ^ (-25) < Qabs (f - n) -> CRS.out_of_band n l = true.
Proof.
  intros I L. unfold CRS.out_of_band. apply existsb_exists. exists f.
  split; [exact I|]. apply Qltb_lt. unfold CRS.bandwidth. now apply fl_abs_325.
Qed.

Lemma out_of_band_false (n : Q) (l : list Q) :
  (forall f, In f l -> Qabs (f - n) <= 325e6 + 2 ^ (-25)) -> CRS.out_of_band n l = false.
Proof.
  intro A. unfold CRS.out_of_band.
  destruct (existsb _ l) eqn:E; [|reflexivity].
  apply existsb_exists in E. destruct E as (f & I & L).
  apply Qltb_lt in L. unfold CRS.bandwidth in L. apply fl_abs_325 in L.
  exfalso. exact (Qlt_not_le _ _ L (A f I)).
Qed.

Lemma existsb_none {A} (p : A -> bool) (l : list A) :
  (forall x, In x l -> p x = false) -> existsb p l = false.
Proof.
  intro F. destruct (existsb p l) eqn:E; [|reflexivity].
  apply existsb_exists in E. destruct E as (x & I & P). rewrite (F x I) in P. discriminate.
Qed.

Lemma write_tones_out_of_band (w : world) (fres ares : list Q) (i : nat) (fr : Q)
    (m : Z) (nm : Q) :
  nco_freq_dict w <> [] ->
  nth_error fres i = Some fr -> (i < length ares)%nat ->
  nearest (nco_freq_dict w) fr = Some m ->
  dict_get (nco_freq_dict w) m = Some nm ->
  325e6 + 2 ^ (-25) < Qabs (fr - nm) ->
  let r := CRS.write_tones fres ares w in
  fst r = Raise CRS.fres_out_of_band /\ same_device w (snd r).
Proof.
  intros N Ef Hi Em En L r.
  assert (S : CRS.split_tones fres ares w =
              (Raise CRS.fres_out_of_band, tones_split w fres ares)).
  { rewrite split_tones_run by exact N.
    replace (existsb _ _) with true; [reflexivity|].
    symmetry. apply existsb_exists. exists m. split.
    - unfold nearest in Em. now apply py_min_key_spec in Em.
    - destruct (tones_split_fres w fres ares i fr m Ef Hi Em) as (l & El & Il).
      unfold tones_bad. rewrite El. rewrite tones_split_nco, En.
      now apply out_of_band_In with fr. }
  subst r. unfold CRS.write_tones.
  rewrite (bind_Raise_fst _ _ w CRS.fres_out_of_band) by now rewrite S.
  rewrite S. split; [reflexivity|]. split; reflexivity.
Qed.

Lemma sweep_out_of_band (w : world) (frequencies : list (list Q)) (ares : list Q)
    (nsamps i : nat) (freqs : list Q) (f : Q) (m : Z) (nm : Q) :
  nco_freq_dict w <> [] ->
  Forall (fun row => row <> []) frequencies ->
  nth_error frequencies i = Some freqs -> (i < length ares)%nat -> In f freqs ->
  nearest_span (nco_freq_dict w) freqs = Some m ->
  dict_get (nco_freq_dict w) m = Some nm ->
  325e6 + 2 ^ (-25) < Qabs (f - nm) ->
  let r := CRS.sweep frequencies ares nsamps w in
  fst r = Raise CRS.frequencies_out_of_band /\ same_device w (snd r).
Proof.
  intros N F Ef Hi If Em En L r.
  assert (K : same_device w (snd (CRS.split_sweep frequencies ares w))).
  { apply keeps_split_sweep; frame_side same_device. }
  assert (S : fst (CRS.split_sweep frequencies ares w) = Raise CRS.frequencies_out_of_band).
  { rewrite split_sweep_run by (try assumption; now apply zip3_rows_nonempty).
    replace (existsb _ _) with true; [reflexivity|].
    symmetry. apply existsb_exists. exists m. split.
    - unfold nearest_span in Em.
      destruct (py_max freqs); [|discriminate]. destruct (py_min freqs); [|discriminate].
      now apply py_min_key_spec in Em.
    - destruct (channels_split_frequencies w frequencies ares i freqs m Ef Hi Em)
        as (l & El & Il).
      unfold channels_bad. rewrite El.
      change (nco_freq_dict (channels_split w frequencies ares)) with (nco_freq_dict w).
      rewrite En. apply out_of_band_In with f; [|exact L].
      apply in_concat. eauto. }
  subst r. unfold CRS.sweep.
  rewrite (bind_Raise_fst _ _ w _ S). simpl. split; [reflexivity|exact K].
Qed.

Lemma split_tones_passes (w : world) (fres ares : list Q) :
  nco_freq_dict w <> [] ->
  let r := CRS.split_tones fres ares w in
  (forall m frs f nm,
     dict_get (fres_dict (snd r)) m = Some frs -> In f frs ->
     dict_get (nco_freq_dict w) m = Some nm -> Qabs (f - nm) <= 325e6 + 2 ^ (-25)) ->
  fst r = Ok tt.
Proof.
  intros N r. subst r. rewrite split_tones_run by exact N. cbn [fst snd]. intro A.
  rewrite existsb_none; [reflexivity|].
  intros k _. unfold tones_bad.
  destruct (dict_get (fres_dict (tones_split w fres ares)) k) as [frs|] eqn:Ef;
    [|reflexivity].
  rewrite tones_split_nco.
  destruct (dict_get (nco_freq_dict w) k) as [nk|] eqn:En; [|reflexivity].
  apply out_of_band_false. intros f I. now apply (A k frs f nk).
Qed.

Lemma split_sweep_passes (w : world) (frequencies : list (list Q)) (ares : list Q) :
  nco_freq_dict w <> [] ->
  Forall (fun row => row <> []) frequencies ->
  let r := CRS.split_sweep frequencies ares w in
  (forall m rows row f nm,
     dict_get (frequencies_dict (snd r)) m = Some rows -> In row rows -> In f row ->
     dict_get (nco_freq_dict w) m = Some nm -> Qabs (f - nm) <= 325e6 + 2 ^ (-25)) ->
  fst r = Ok tt.
Proof.
  intros N F r. subst r.
  rewrite split_sweep_run by (try assumption; now apply zip3_rows_nonempty).
  cbn [fst snd]. intro A.
  rewrite existsb_none; [reflexivity|].
  intros k _. unfold channels_bad.
  destruct (dict_get (frequencies_dict (channels_split w frequencies ares)) k)
    as [rows|] eqn:Ef; [|reflexivity].
  change (nco_freq_dict (channels_split w frequencies ares)) with (nco_freq_dict w).
  destruct (dict_get (nco_freq_dict w) k) as [nk|] eqn:En; [|reflexivity].
  apply out_of_band_false. intros f I. apply in_concat in I.
  destruct I as (row & Ir & If). now apply (A k rows row f nk).
Qed.

(** C3.  With a non-empty NCO table every channel is recorded for a module,
    and when the frequency of the channel (for [sweep], some point of its
    row) is more than 325e6 + 2^-25 Hz away from the NCO of that module,
    [write_tones] and [sweep] raise the [ValueError] of their check, with
    the trace of commands and the decimation of the device as before the
    call.  The check compares the double-precision offset with 325e6, and
    the numbers whose double exceeds 325e6 are those above 325e6 + 2^-25:
    when no recorded frequency is farther than that from the NCO of its
    module, the checks pass.  With the table {1: 500e6} the request of
    900e6 is refused. *)
Theorem out_of_band_raises_before_any_command (w : world) :
  nco_freq_dict w <> [] ->
  let nco := nco_freq_dict w in
  let limit := 325e6 + 2 ^ (-25) in
  (forall fres ares i fr,
     nth_error fres i = Some fr -> (i < length ares)%nat ->
     let r := CRS.write_tones fres ares w in
     exists m l nm,
       dict_get (ch_ix_dict (snd r)) m = Some l /\ In i l /\
       dict_get nco m = Some nm /\
       (limit < Qabs (fr - nm) ->
        fst r = Raise CRS.fres_out_of_band /\
        trace (snd r) = trace w /\ fir_stage (snd r) = fir_stage w)) /\
  (forall frequencies ares nsamps i freqs,
     Forall (fun row => row <> []) frequencies ->
     nth_error frequencies i = Some freqs -> (i < length ares)%nat ->
     let r := CRS.sweep frequencies ares nsamps w in
     exists m l nm,
       dict_get (ch_ix_dict (snd r)) m = Some l /\ In i l /\
       dict_get nco m = Some nm /\
       forall f, In f freqs -> limit < Qabs (f - nm) ->
         fst r = Raise CRS.frequencies_out_of_band /\
         trace (snd r) = trace w /\ fir_stage (snd r) = fir_stage w) /\
  (forall fres ares,
     let r := CRS.split_tones fres ares w in
     (forall m frs f nm,
        dict_get (fres_dict (snd r)) m = Some frs -> In f frs ->
        dict_get nco m = Some nm -> Qabs (f - nm) <= limit) ->
     fst r = Ok tt) /\
  (forall frequencies ares,
     Forall (fun row => row <> []) frequencies ->
     let r := CRS.split_sweep frequencies ares w in
     (forall m rows row f nm,
        dict_get (frequencies_dict (snd r)) m = Some rows -> In row rows -> In f row ->
        dict_get nco m = Some nm -> Qabs (f - nm) <= limit) ->
     fst r = Ok tt) /\
  (nco = [(1%Z, 500e6)] ->
   forall a,
     let r := CRS.write_tones [900e6] [a] w in
     fst r = Raise CRS.fres_out_of_band /\ trace (snd r) = trace w).
Proof.
  intros N nco limit. split; [|split; [|split; [|split]]].
  - intros fres ares i fr Ef Hi r.
    destruct (py_min_key_some (CRS.tone_offset nco fr) (dict_keys nco)) as [m Em].
    { subst nco. destruct (nco_freq_dict w); [congruence|discriminate]. }
    destruct (tones_split_ch_ix w fres ares i fr m Ef Hi Em) as (l & El & Il).
    destruct (write_tones_same_split fres ares w N) as (_ & Ec & _).
    destruct (py_min_key_spec _ _ _ Em) as [Im _].
    destruct (proj1 (dict_get_keys nco m) Im) as [nm Enm].
    exists m, l, nm. subst r. rewrite Ec.
    split; [exact El|]. split; [exact Il|]. split; [exact Enm|].
    intro L. apply (write_tones_out_of_band w fres ares i fr m nm); assumption.
  - intros frequencies ares nsamps i freqs F Ef Hi r.
    assert (Ne : freqs <> []).
    { rewrite Forall_forall in F. apply F. now apply nth_error_In with i. }
    destruct (py_max_some freqs Ne) as [hi Ehi]. destruct (py_min_some freqs Ne) as [lo Elo].
    destruct (py_min_key_some (CRS.span_offset nco hi lo) (dict_keys nco)) as [m Em].
    { subst nco. destruct (nco_freq_dict w); [congruence|discriminate]. }
    assert (Es : nearest_span nco freqs = Some m).
    { unfold nearest_span. now rewrite Ehi, Elo. }
    destruct (channels_split_ch_ix w frequencies ares i freqs m Ef Hi Es) as (l & El & Il).
    destruct (sweep_same_split frequencies ares nsamps w N
                (zip3_rows_nonempty frequencies ares F)) as (_ & Ec & _).
    destruct (py_min_key_spec _ _ _ Em) as [Im _].
    destruct (proj1 (dict_get_keys nco m) Im) as [nm Enm].
    exists m, l, nm. subst r. rewrite Ec.
    split; [exact El|]. split; [exact Il|]. split; [exact Enm|].
    intros f If L.
    apply (sweep_out_of_band w frequencies ares nsamps i freqs f m nm); assumption.
  - intros fres ares. now apply split_tones_passes.
  - intros frequencies ares F. now apply split_sweep_passes.
  - intros E a.
    destruct (write_tones_out_of_band w [900e6] [a] 0 900e6 1%Z 500e6 N) as (R1 & R2 & _);
      try reflexivity.
    + simpl. lia.
    + fold nco. now rewrite E.
    + fold nco. now rewrite E.
    + split; assumption.
Qed.

End Bandwidth.

(** ** Traces *)

(** From [a] to [b] the decimation of the device is unchanged and the
    trace grew by events that satisfy [P]. *)
Definition calm (P : event -> Prop) (a b : world) : Prop :=
  fir_stage b = fir_stage a /\
  exists t, trace b = trace a ++ t /\ Forall P t.

(** From [a] to [b] the trace grew by events that satisfy [P]. *)
Definition emits_only (P : event -> Prop) (a b : world) : Prop :=
  exists t, trace b = trace a ++ t /\ Forall P t.

Lemma calm_refl (P : event -> Prop) (w : world) : calm P w w.
Proof. split; [reflexivity|]. exists []. now rewrite app_nil_r. Qed.

Lemma calm_trans (P : event -> Prop) (a b c : world) :
  calm P a b -> calm P b c -> calm P a c.
Proof.
  intros [F1 (t1 & E1 & P1)] [F2 (t2 & E2 & P2)]. split; [congruence|].
  exists (t1 ++ t2). rewrite E2, E1, app_assoc. split; [reflexivity|].
  apply Forall_app. now split.
Qed.

Lemma calm_emit (P : event -> Prop) (e : event) (w : world) :
  P e -> calm P w (with_trace w (trace w ++ [e])).
Proof. intro Pe. split; [reflexivity|]. exists [e]. split; [reflexivity|]. now constructor. Qed.

Lemma calm_same (P : event -> Prop) (a b : world) :
  fir_stage b = fir_stage a -> trace b = trace a -> calm P a b.
Proof. intros F T. split; [exact F|]. exists []. now rewrite app_nil_r. Qed.

Lemma emits_only_refl (P : event -> Prop) (w : world) : emits_only P w w.
Proof. exists []. now rewrite app_nil_r. Qed.

Lemma emits_only_trans (P : event -> Prop) (a b c : world) :
  emits_only P a b -> emits_only P b c -> emits_only P a c.
Proof.
  intros (t1 & E1 & P1) (t2 & E2 & P2).
  exists (t1 ++ t2). rewrite E2, E1, app_assoc. split; [reflexivity|].
  apply Forall_app. now split.
Qed.

Lemma emits_only_emit (P : event -> Prop) (e : event) (w : world) :
  P e -> emits_only P w (with_trace w (trace w ++ [e])).
Proof. intro Pe. exists [e]. split; [reflexivity|]. now constructor. Qed.

Lemma emits_only_same (P : event -> Prop) (a b : world) :
  trace b = trace a -> emits_only P a b.
Proof. intro T. exists []. now rewrite app_nil_r. Qed.

(** The events of the macros and of the split: everything but the launch
    of the parser and a change of the decimation. *)
Definition quiet (e : event) : Prop :=
  is_Popen e = false /\ is_set_fir_stage e = false.

Definition no_launch (e : event) : Prop := is_Popen e = false.

Definition is_read (e : event) : Prop :=
  exists m n, e = convert_parser_to_z m n.

Ltac calm_side :=
  intros;
  first [ apply calm_refl
        | eapply calm_trans; eassumption
        | apply calm_emit; first [ split; assumption | assumption | repeat eexists ]
        | apply calm_same; reflexivity
        | apply emits_only_refl
        | eapply emits_only_trans; eassumption
        | apply emits_only_emit; first [ assumption | reflexivity | repeat eexists ]
        | apply emits_only_same; reflexivity ].

(** *** What the import of the parser data leaves unchanged *)
Section ImportFrames.
Context `{Instrument}.
Variable R : world -> world -> Prop.
Hypothesis R_refl : forall w, R w w.
Hypothesis R_trans : forall a b c, R a b -> R b c -> R a c.
Hypothesis R_read : forall m n w, R w (with_trace w (trace w ++ [convert_parser_to_z m n])).
Hypothesis R_files : forall w l, R w (with_files w l).

Lemma keeps_import_module dz acc m : keeps R (CRS.import_module dz acc m).
Proof.
  unfold CRS.import_module.
  apply keeps_bind; [assumption|now apply keeps_get|intro].
  apply keeps_bind; [assumption|now apply keeps_item|intro].
  apply keeps_bind; [assumption|apply keeps_modify; intro; apply R_read|intro].
  repeat (apply keeps_bind; [assumption|now apply keeps_item|intro]).
  apply keeps_for_fold; [assumption..|]. intros. now apply keeps_item.
Qed.

Lemma keeps_gather_streams nres modules dz : keeps R (CRS.gather_streams nres modules dz).
Proof.
  unfold CRS.gather_streams.
  apply keeps_for_fold; [assumption..|]. intros. apply keeps_import_module.
Qed.

Lemma keeps_cut_streams s : keeps R (CRS.cut_streams s).
Proof.
  destruct s as [[z zraw] zcal]. unfold CRS.cut_streams.
  apply keeps_bind; [assumption|now apply keeps_item|intro]. now apply keeps_ret.
Qed.

Lemma keeps_import_streams nres modules dz : keeps R (CRS.import_streams nres modules dz).
Proof.
  unfold CRS.import_streams.
  apply keeps_bind; [assumption|apply keeps_gather_streams|intro].
  apply keeps_cut_streams.
Qed.

Lemma keeps_rmtree_tmp : keeps R rmtree_tmp.
Proof. apply keeps_modify. intro. apply R_files. Qed.

End ImportFrames.

(** ** C10 and C8: the decimation and the launch of the parser *)
Section Decimation.
Context `{Instrument}.

Lemma set_fir_stage_run (n : Z) (w : world) :
  d.set_fir_stage n w =
  (Ok tt, with_fir_stage (with_trace w (trace w ++ [set_fir_stage n])) n).
Proof. reflexivity. Qed.

Lemma keeps_sweep_rest (nsamps nres : nat) (ares : list Q) :
  keeps (calm quiet)
    (' (sweep_f, sweep_z) <- CRS.sweep_modules nsamps ;;
     ' (f, z) <- CRS.merge_sweep nres sweep_f sweep_z ;;
     z <- CRS.normalize z ares ;;
     ret (f, z)).
Proof.
  apply keeps_bind; [calm_side| |intros [sf sz]].
  { apply keeps_sweep_modules; calm_side. }
  apply keeps_bind; [calm_side| |intros [f z]].
  { apply keeps_merge_sweep; calm_side. }
  apply keeps_bind; [calm_side| |intros z'].
  { apply keeps_normalize; calm_side. }
  apply keeps_ret. calm_side.
Qed.

(** A call of [sweep] that passes the checks starts with [set_fir_stage(6)]
    and changes the decimation nowhere else. *)
Lemma sweep_sets_fir_stage (frequencies : list (list Q)) (ares : list Q) (nsamps : nat)
    (w : world) :
  fst (CRS.split_sweep frequencies ares w) = Ok tt ->
  let w' := snd (CRS.sweep frequencies ares nsamps w) in
  fir_stage w' = 6%Z /\
  exists t, trace w' = trace w ++ set_fir_stage 6 :: t /\ Forall quiet t.
Proof.
  intros S w'.
  assert (K : same_device w (snd (CRS.split_sweep frequencies ares w))).
  { apply keeps_split_sweep; frame_side same_device. }
  destruct (CRS.split_sweep frequencies ares w) as [r1 w1] eqn:E1.
  simpl in S, K. subst r1. destruct K as [Kt Kf].
  subst w'. unfold CRS.sweep.
  rewrite (bind_Ok _ _ _ _ _ E1), (bind_Ok _ _ _ _ _ (set_fir_stage_run 6 w1)).
  pose proof (keeps_sweep_rest nsamps (length frequencies) ares
                (with_fir_stage (with_trace w1 (trace w1 ++ [set_fir_stage 6])) 6))
    as [Q1 (t & Q2 & Q3)].
  split; [exact Q1|]. exists t. split; [|exact Q3].
  rewrite Q2. simpl. now rewrite Kt, <- app_assoc.
Qed.

Lemma sweep_Ok_split (frequencies : list (list Q)) (ares : list Q) (nsamps : nat)
    (w w' : world) r :
  CRS.sweep frequencies ares nsamps w = (Ok r, w') ->
  fst (CRS.split_sweep frequencies ares w) = Ok tt.
Proof.
  unfold CRS.sweep. intro E. apply bind_Ok_inv in E.
  destruct E as ([] & w1 & E & _). now rewrite E.
Qed.



Definition stale (w : world) : bool := existsb (path_eqb parser_data_dir) (files w).

Definition stale_error : exn := FileExistsError "tmp/parser_data_00/ already exists".

Lemma precapture_run (stage : Z) (w : world) :
  exists w0,
    CRS.precapture stage w = (if stale w then Raise stale_error else Ok tt, w0) /\
    trace w0 = trace w /\ fir_stage w0 = fir_stage w /\
    nco_freq_dict w0 = nco_freq_dict w.
Proof.
  unfold CRS.precapture, stale.
  assert (G : forall w1, trace w1 = trace w -> fir_stage w1 = fir_stage w ->
                         nco_freq_dict w1 = nco_freq_dict w -> files w1 = files w ->
    exists w0,
      (makedirs tmp_dir ;;
       stale <- path_exists parser_data_dir ;;
       if stale then raise (FileExistsError "tmp/parser_data_00/ already exists")
       else ret tt) w1 =
      (if existsb (path_eqb parser_data_dir) (files w) then Raise stale_error else Ok tt, w0) /\
      trace w0 = trace w /\ fir_stage w0 = fir_stage w /\
      nco_freq_dict w0 = nco_freq_dict w).
  { intros w1 T F N L. unfold bind, makedirs, modify, path_exists, get, ret, raise.
    destruct (existsb (path_eqb tmp_dir) (files w1)) eqn:E; cbn.
    - rewrite L. destruct (existsb _ (files w)); eauto.
    - rewrite L, existsb_app. cbn. rewrite orb_false_r.
      destruct (existsb _ (files w)); eauto. }
  unfold bind at 1. destruct (Z.leb stage 4).
  - exact (G (with_warned w _) eq_refl eq_refl eq_refl eq_refl).
  - exact (G w eq_refl eq_refl eq_refl eq_refl).
Qed.

Lemma repeat_sleep_run (l : list nat) (w : world) :
  for_each l (fun _ => emit (sleep 1)) w =
  (Ok tt, with_trace w (trace w ++ repeat (sleep 1) (length l))).
Proof.
  revert w. induction l as [|x l IH]; intro w; simpl.
  - rewrite app_nil_r. now destruct w.
  - unfold bind at 1. cbn. rewrite IH. cbn. now rewrite <- app_assoc.
Qed.

(** The world that [run_parser] leaves. *)
Definition launched (noise_time : Q) (parser_loc interface : string) (w : world) : world :=
  with_fir_stage
    (with_trace w
       (trace w ++
        Popen parser_loc interface crs_sn (py_int (sample_frequency w * (noise_time + 10))) ::
        repeat (sleep 1) (Z.to_nat (py_int noise_time + 20)) ++ [set_fir_stage 6]))
    6.

Lemma run_parser_run (noise_time : Q) (parser_loc interface : string) (w : world) :
  CRS.run_parser noise_time parser_loc interface w =
  (Ok tt, launched noise_time parser_loc interface w).
Proof.
  unfold CRS.run_parser. unfold bind at 1. unfold get at 1.
  unfold bind at 1. cbn [emit modify].
  unfold bind at 1. rewrite repeat_sleep_run. rewrite set_fir_stage_run.
  unfold launched, range. cbn. rewrite length_seq.
  rewrite <- !app_assoc. reflexivity.
Qed.


Lemma keeps_collect (nres : nat) (modules : list Z) (dz : dict (list sample))
    (ares : list Q) (delete_parser_data return_raw : bool) :
  keeps (calm is_read) (CRS.collect nres ares modules dz delete_parser_data return_raw).
Proof.
  unfold CRS.collect.
  apply keeps_bind; [calm_side| |intros [[z zraw] zcal]].
  { apply keeps_import_streams; calm_side. }
  apply keeps_bind; [calm_side| |intros _].
  { destruct delete_parser_data; [apply keeps_rmtree_tmp|apply keeps_ret]; calm_side. }
  apply keeps_bind; [calm_side| |intro].
  { apply keeps_normalize; calm_side. }
  apply keeps_ret. calm_side.
Qed.



(** After [prepare_capture] the decimation is that of the capture,
    whether the call returned or raised: the first command sets it and
    no later command of the preparation changes it. *)
Lemma prepare_capture_stage (fres ares : list Q) (stage : Z) (verbose : bool) (w : world) :
  exists t,
    trace (snd (CRS.prepare_capture fres ares stage verbose w)) =
      trace w ++ set_fir_stage stage :: t /\
    Forall quiet t /\
    fir_stage (snd (CRS.prepare_capture fres ares stage verbose w)) = stage.
Proof.
  assert (Rr : forall w, calm quiet w w) by calm_side.
  assert (Rt : forall a b c, calm quiet a b -> calm quiet b c -> calm quiet a c) by calm_side.
  unfold CRS.prepare_capture.
  rewrite (bind_Ok _ _ _ _ _ (set_fir_stage_run stage w)). cbv beta.
  match goal with
  | |- exists t, trace (snd (?rest ?w1)) = _ /\ _ /\ _ =>
      assert (Kr : keeps (calm quiet) rest);
        [|destruct (Kr w1) as (Q0 & t & Q1 & Q2)]
  end.
  { assert (Re : forall e, quiet e -> keeps (calm quiet) (emit e)).
    { intros e Pe w0. now apply calm_emit. }
    apply keeps_bind; [exact Rt|apply keeps_modify; calm_side|intros _].
    apply keeps_bind; [exact Rt| |intros _].
    { destruct verbose; [|now apply keeps_ret].
      apply keeps_bind; [exact Rt| |intros _; now apply keeps_ret].
      unfold d.get_fir_stage. apply keeps_bind; [exact Rt|apply Re; now split|intros _].
      apply keeps_bind; [exact Rt|now apply keeps_get|intro]. now apply keeps_ret. }
    apply keeps_bind; [exact Rt| |intros _].
    { apply keeps_write_tones; calm_side. }
    apply keeps_bind; [exact Rt|apply Re; now split|intros _].
    apply keeps_bind; [exact Rt|now apply keeps_get|intro].
    apply keeps_bind; [exact Rt| |intro].
    { apply keeps_for_fold; [exact Rr|exact Rt|]. intros.
      apply keeps_bind; [exact Rt|now apply keeps_get|intro].
      apply keeps_get_noise_cal; calm_side. }
    apply keeps_bind; [exact Rt|apply Re; now split|intros _]. now apply keeps_ret. }
  exists t. split; [|split; [exact Q2|]].
  - etransitivity; [exact Q1|]. cbn. now rewrite <- app_assoc.
  - etransitivity; [exact Q0|reflexivity].
Qed.

Lemma quiet_no_launch (t : list event) : Forall quiet t -> Forall no_launch t.
Proof. apply Forall_impl. now intros e [A _]. Qed.

(** The two ways a capture goes when the output directory is not there:
    it raises before the parser is started, or the parser is started, the
    method sleeps, sets the decimation to 6 and then only reads the data. *)
Lemma capture_noise_cases (fres ares : list Q) (noise_time : Q) (stage : Z)
    (parser_loc interface : string) (delete_parser_data verbose return_raw : bool)
    (w : world) :
  stale w = false ->
  let r := CRS.capture_noise fres ares noise_time stage parser_loc interface
             delete_parser_data verbose return_raw w in
  ((exists e, fst r = Raise e) /\
   exists pre,
     trace (snd r) = trace w ++ set_fir_stage stage :: pre /\
     Forall quiet pre /\ fir_stage (snd r) = stage) \/
  (exists pre n post,
     trace (snd r) =
       trace w ++ set_fir_stage stage :: pre ++
       Popen parser_loc interface crs_sn n ::
       repeat (sleep 1) (Z.to_nat (py_int noise_time + 20)) ++ set_fir_stage 6 :: post /\
     Forall no_launch pre /\ Forall is_read post /\ fir_stage (snd r) = 6%Z).
Proof.
  intros S r.
  destruct (precapture_run stage w) as (w0 & E0 & T0 & F0 & N0). rewrite S in E0.
  destruct (prepare_capture_stage fres ares stage verbose w0) as (pre & P1 & P2 & P3).
  destruct (CRS.prepare_capture fres ares stage verbose w0) as [[dz|e] w2] eqn:E2.
  - right.
    assert (Er : r = CRS.collect (length fres) ares (dict_keys (nco_freq_dict w)) dz
                       delete_parser_data return_raw
                       (launched noise_time parser_loc interface w2)).
    { unfold r, CRS.capture_noise. unfold bind at 1. unfold get at 1.
      rewrite (bind_Ok _ _ _ _ _ E0). cbv beta.
      rewrite (bind_Ok _ _ _ _ _ E2). cbv beta.
      now rewrite (bind_Ok _ _ _ _ _ (run_parser_run noise_time parser_loc interface w2)). }
    rewrite Er.
    destruct (keeps_collect (length fres) (dict_keys (nco_freq_dict w)) dz ares
                delete_parser_data return_raw
                (launched noise_time parser_loc interface w2)) as [Q1 (post & Q2 & Q3)].
    exists pre, (py_int (sample_frequency w2 * (noise_time + 10))), post.
    split; [|split; [now apply quiet_no_launch|split; [exact Q3|exact Q1]]].
    rewrite Q2. unfold launched. cbn [trace with_fir_stage with_trace].
    simpl in P1. rewrite P1, T0. rewrite <- !app_assoc. simpl.
    rewrite <- !app_assoc. reflexivity.
  - left.
    assert (Er : r = (Raise e, w2)).
    { unfold r, CRS.capture_noise. unfold bind at 1. unfold get at 1.
      rewrite (bind_Ok _ _ _ _ _ E0). cbv beta.
      now rewrite (bind_Raise _ _ _ _ _ E2). }
    rewrite Er. simpl. split; [eauto|].
    simpl in P1, P3. exists pre. rewrite P1, T0. auto.
Qed.

Lemma capture_noise_returns (fres ares : list Q) (noise_time : Q) (stage : Z)
    (parser_loc interface : string) (delete_parser_data verbose return_raw : bool)
    (w : world) res :
  let r := CRS.capture_noise fres ares noise_time stage parser_loc interface
             delete_parser_data verbose return_raw w in
  fst r = Ok res ->
  exists pre n post,
    trace (snd r) =
      trace w ++ set_fir_stage stage :: pre ++
      Popen parser_loc interface crs_sn n ::
      repeat (sleep 1) (Z.to_nat (py_int noise_time + 20)) ++ set_fir_stage 6 :: post /\
    Forall no_launch pre /\ Forall is_read post /\ fir_stage (snd r) = 6%Z.
Proof.
  intros r E. destruct (stale w) eqn:S.
  - exfalso.
    destruct (precapture_run stage w) as (w0 & E0 & _). rewrite S in E0.
    assert (Er : r = (Raise stale_error, w0)).
    { unfold r, CRS.capture_noise. unfold bind at 1. unfold get at 1.
      now rewrite (bind_Raise _ _ _ _ _ E0). }
    rewrite Er in E. discriminate.
  - destruct (capture_noise_cases fres ares noise_time stage parser_loc interface
                delete_parser_data verbose return_raw w S) as [[[e Ee] _]|Q].
    + fold r in Ee. congruence.
    + exact Q.
Qed.

(** C8.  When [tmp/parser_data_00/] exists, [capture_noise] raises
    [FileExistsError] with the trace and the decimation as before the call:
    nothing was sent to the device and the parser was not started.  When it
    does not exist, the first command sets the decimation of the capture,
    and then either the call raises before the parser is started, having
    sent no other change of the decimation, so that the decimation of the
    capture stays; or the trace of the call is: the decimation of the
    capture, commands that do not start the parser, the start of the
    parser, [int(noise_time) + 20] sleeps of one second, [set_fir_stage(6)],
    and after it only reads of the parser data, and the decimation in the
    end is 6, whatever it was before the call.  A call that returns is of
    the second kind. *)
Theorem capture_noise_precapture_and_decimation (fres ares : list Q) (noise_time : Q)
    (stage : Z) (parser_loc interface : string)
    (delete_parser_data verbose return_raw : bool) (w : world) :
  let r := CRS.capture_noise fres ares noise_time stage parser_loc interface
             delete_parser_data verbose return_raw w in
  let launch_then_six :=
    exists pre n post,
      trace (snd r) =
        trace w ++ set_fir_stage stage :: pre ++
        Popen parser_loc interface crs_sn n ::
        repeat (sleep 1) (Z.to_nat (py_int noise_time + 20)) ++ set_fir_stage 6 :: post /\
      Forall no_launch pre /\ Forall is_read post /\ fir_stage (snd r) = 6%Z in
  let raise_at_capture_stage :=
    (exists e, fst r = Raise e) /\
    exists pre,
      trace (snd r) = trace w ++ set_fir_stage stage :: pre /\
      Forall (fun e => is_Popen e = false /\ is_set_fir_stage e = false) pre /\
      fir_stage (snd r) = stage in
  (stale w = true ->
   fst r = Raise stale_error /\ trace (snd r) = trace w /\ fir_stage (snd r) = fir_stage w) /\
  (stale w = false -> raise_at_capture_stage \/ launch_then_six) /\
  (forall res, fst r = Ok res -> launch_then_six).
Proof.
  intros r launch_then_six raise_at_capture_stage. split; [|split].
  - intro S.
    destruct (precapture_run stage w) as (w0 & E0 & T0 & F0 & N0). rewrite S in E0.
    assert (Er : r = (Raise stale_error, w0)).
    { unfold r, CRS.capture_noise. unfold bind at 1. unfold get at 1.
      now rewrite (bind_Raise _ _ _ _ _ E0). }
    rewrite Er. simpl. auto.
  - intro S. apply capture_noise_cases. exact S.
  - intros res E.
    exact (capture_noise_returns fres ares noise_time stage parser_loc interface
             delete_parser_data verbose return_raw w res E).
Qed.


End Decimation.

(** ** C2: the merge of the results of the modules *)
Section Merge.
Context `{Instrument}.

Lemma for_fold_inv {A S} (I : S -> world -> Prop) (l : list A) (body : S -> A -> M S) :
  (forall s x w s' w', In x l -> I s w -> body s x w = (Ok s', w') -> I s' w') ->
  forall s w s' w', I s w -> for_fold l s body w = (Ok s', w') -> I s' w'.
Proof.
  induction l as [|x l IH]; intros Hb s w s' w' Hi E; simpl in E.
  - unfold ret in E. now injection E as <- <-.
  - apply bind_Ok_inv in E. destruct E as (s1 & w1 & E1 & E2).
    apply (IH (fun s0 x0 w0 s0' w0' I0 => Hb s0 x0 w0 s0' w0' (or_intror I0)) s1 w1);
      [|exact E2].
    apply (Hb s x w); [now left|exact Hi|exact E1].
Qed.

(** The row of channel [i] in the results of the modules. *)
Definition module_row {V} (ch_ix : dict (list nat)) (results : dict (list V)) (i : nat)
    : option V :=
  match find_key_and_index ch_ix i with
  | None => None
  | Some (m, j) =>
      match dict_get results m with
      | None => None
      | Some rows => nth_error rows j
      end
  end.

Lemma merge_sweep_rows (sf : dict (list (list Q))) (sz : dict (list (list sample)))
    (n s : nat) (fa : list (list Q)) (za : list (list sample)) (w w' : world) f z :
  for_fold (seq s n) (fa, za) (fun acc res_index =>
    w <- get ;;
    ' (module_index, ch_index) <-
        item (find_key_and_index (ch_ix_dict w) res_index) TypeError ;;
    f_m <- item (dict_get sf module_index) KeyError ;;
    f_row <- item (nth_error f_m ch_index) IndexError ;;
    z_m <- item (dict_get sz module_index) KeyError ;;
    z_row <- item (nth_error z_m ch_index) IndexError ;;
    ret (fst acc ++ [f_row], snd acc ++ [z_row])) w = (Ok (f, z), w') ->
  w' = w /\
  exists f1 z1,
    f = fa ++ f1 /\ z = za ++ z1 /\ length f1 = n /\ length z1 = n /\
    forall k, (k < n)%nat ->
      nth_error f1 k = module_row (ch_ix_dict w) sf (s + k) /\
      nth_error z1 k = module_row (ch_ix_dict w) sz (s + k) /\
      nth_error f1 k <> None /\ nth_error z1 k <> None.
Proof.
  revert s fa za w. induction n as [|n IH]; intros s fa za w E; simpl in E.
  - unfold ret in E. injection E as <- <- <-. split; [reflexivity|].
    exists [], []. rewrite !app_nil_r. repeat split; auto; intros; lia.
  - apply bind_Ok_inv in E. destruct E as ([f1 z1] & w1 & E1 & E2).
    unfold bind at 1 in E1. unfold get at 1 in E1.
    apply bind_Ok_inv in E1. destruct E1 as ([m j] & w2 & Ea & E1).
    apply item_Ok_inv in Ea. destruct Ea as [Ea ->].
    apply bind_Ok_inv in E1. destruct E1 as (fm & w2 & Eb & E1).
    apply item_Ok_inv in Eb. destruct Eb as [Eb ->].
    apply bind_Ok_inv in E1. destruct E1 as (frow & w2 & Ec & E1).
    apply item_Ok_inv in Ec. destruct Ec as [Ec ->].
    apply bind_Ok_inv in E1. destruct E1 as (zm & w2 & Ed & E1).
    apply item_Ok_inv in Ed. destruct Ed as [Ed ->].
    apply bind_Ok_inv in E1. destruct E1 as (zrow & w2 & Ee & E1).
    apply item_Ok_inv in Ee. destruct Ee as [Ee ->].
    unfold ret in E1. injection E1 as <- <- <-. simpl in E2.
    destruct (IH _ _ _ _ E2) as (-> & f2 & z2 & -> & -> & L1 & L2 & Hk).
    split; [reflexivity|].
    exists (frow :: f2), (zrow :: z2). rewrite <- !app_assoc. simpl.
    repeat split; try lia.
    + destruct k; simpl.
      * rewrite Nat.add_0_r. unfold module_row. now rewrite Ea, Eb.
      * rewrite Nat.add_succ_r. apply Hk. lia.
    + destruct k; simpl.
      * rewrite Nat.add_0_r. unfold module_row. now rewrite Ea, Ed.
      * rewrite Nat.add_succ_r. apply Hk. lia.
    + destruct k; simpl; [discriminate|]. apply Hk. lia.
    + destruct k; simpl; [discriminate|]. apply Hk. lia.
Qed.

Lemma merge_sweep_Ok (nres : nat) (sf : dict (list (list Q))) (sz : dict (list (list sample)))
    (w w' : world) f z :
  CRS.merge_sweep nres sf sz w = (Ok (f, z), w') ->
  w' = w /\ length f = nres /\ length z = nres /\
  forall i, (i < nres)%nat ->
    nth_error f i = module_row (ch_ix_dict w) sf i /\
    nth_error z i = module_row (ch_ix_dict w) sz i /\
    nth_error f i <> None /\ nth_error z i <> None.
Proof.
  intro E. unfold CRS.merge_sweep in E.
  destruct (merge_sweep_rows sf sz nres 0 [] [] w w' f z E)
    as (-> & f1 & z1 & -> & -> & L1 & L2 & Hk).
  simpl. repeat split; auto; now apply Hk.
Qed.


Lemma nth_error_map_inv {A B} (g : A -> B) (l : list A) (j : nat) (y : B) :
  nth_error (map g l) j = Some y -> exists x, nth_error l j = Some x /\ g x = y.
Proof.
  rewrite nth_error_map. destruct (nth_error l j); simpl; [|discriminate].
  intros [= <-]. eauto.
Qed.

(** Two dictionaries filled by the same loop are aligned: the entries at
    the same key and position come from the same item. *)
Lemma scatter_aligned {T V1 V2} (place : T -> Z) (g1 : T -> V1) (g2 : T -> V2)
    (E : list T) (K : list Z) (m : Z) (l : list V1) (j : nat) (i : V1) :
  dict_get (scatter place g1 E (dict_init K)) m = Some l ->
  nth_error l j = Some i ->
  exists t l2,
    In t E /\ g1 t = i /\ place t = m /\
    dict_get (scatter place g2 E (dict_init K)) m = Some l2 /\
    nth_error l2 j = Some (g2 t).
Proof.
  rewrite !scatter_init_get. destruct (existsb (Z.eqb m) K); [|discriminate].
  intros [= <-] Ej. apply nth_error_map_inv in Ej. destruct Ej as (t & Et & Eg).
  exists t. eexists. assert (I : In t (filter (fun t => Z.eqb (place t) m) E))
    by now apply nth_error_In with j.
  apply filter_In in I. destruct I as [I P]. apply Z.eqb_eq in P.
  repeat split; [exact I|exact Eg|exact P|].
  now apply map_nth_error.
Qed.

Lemma scatter_init_bijection {T} (place : T -> Z) (g : T -> nat) (E : list T) (K : list Z) :
  (forall t, In t E -> In (place t) K) ->
  NoDup (dict_keys (scatter place g E (dict_init K))) /\
  Permutation (concat (map snd (scatter place g E (dict_init K)))) (map g E).
Proof.
  intro Hp. destruct (dict_init_spec (V := nat) K) as (N & _ & Ik). split.
  - now rewrite scatter_keys.
  - rewrite scatter_concat.
    + now rewrite dict_init_concat.
    + intros t I. apply Ik. now apply Hp.
Qed.

Lemma home_tone_key (nco : dict Q) (t : nat * Q * Q) :
  nco <> [] -> In (home_tone nco t) (dict_keys nco).
Proof.
  intro N. unfold home_tone.
  destruct (py_min_key_some (CRS.tone_offset nco (snd (fst t))) (dict_keys nco)) as [m E].
  { destruct nco; [congruence|discriminate]. }
  unfold nearest. rewrite E. simpl. now apply py_min_key_spec in E.
Qed.

Lemma home_channel_key (nco : dict Q) (t : nat * list Q * Q) :
  nco <> [] -> snd (fst t) <> [] -> In (home_channel nco t) (dict_keys nco).
Proof.
  intros N R. unfold home_channel, nearest_span.
  destruct (snd (fst t)) as [|x row]; [congruence|].
  assert (Ehi : exists hi, py_max (x :: row) = Some hi) by (simpl; eauto).
  assert (Elo : exists lo, py_min (x :: row) = Some lo) by (unfold py_min; simpl; eauto).
  destruct Ehi as [hi ->]. destruct Elo as [lo ->].
  destruct (py_min_key_some (CRS.span_offset nco hi lo) (dict_keys nco)) as [m E].
  { destruct nco; [congruence|discriminate]. }
  rewrite E. simpl. now apply py_min_key_spec in E.
Qed.

(** After the split of [write_tones] every index below the number of
    requests is recorded once. *)
Lemma tones_split_bijection (w : world) (fres ares : list Q) :
  nco_freq_dict w <> [] ->
  NoDup (dict_keys (ch_ix_dict (tones_split w fres ares))) /\
  Permutation (concat (map snd (ch_ix_dict (tones_split w fres ares))))
              (seq 0 (Nat.min (length fres) (length ares))).
Proof.
  intro N.
  destruct (scatter_init_bijection (home_tone (nco_freq_dict w)) (fun t => fst (fst t))
              (zip3 (seq 0 (length fres)) fres ares) (dict_keys (nco_freq_dict w)))
    as [A B].
  { intros t _. now apply home_tone_key. }
  rewrite zip3_seq_indices in B. split; [exact A|exact B].
Qed.

Lemma channels_split_bijection (w : world) (frequencies : list (list Q)) (ares : list Q) :
  nco_freq_dict w <> [] ->
  Forall (fun t : nat * list Q * Q => snd (fst t) <> [])
         (zip3 (seq 0 (length frequencies)) frequencies ares) ->
  NoDup (dict_keys (ch_ix_dict (channels_split w frequencies ares))) /\
  Permutation (concat (map snd (ch_ix_dict (channels_split w frequencies ares))))
              (seq 0 (Nat.min (length frequencies) (length ares))).
Proof.
  intros N F.
  destruct (scatter_init_bijection (home_channel (nco_freq_dict w)) (fun t => fst (fst t))
              (zip3 (seq 0 (length frequencies)) frequencies ares)
              (dict_keys (nco_freq_dict w)))
    as [A B].
  { intros t I. apply home_channel_key; [exact N|].
    rewrite Forall_forall in F. now apply F. }
  rewrite zip3_seq_indices in B. split; [exact A|exact B].
Qed.

(** What the split of [sweep] keeps at a position of a module: the index,
    the row of frequencies and the amplitude of one and the same channel. *)
Lemma channels_split_aligned (w : world) (frequencies : list (list Q)) (ares : list Q)
    (m : Z) (l : list nat) (j i : nat) :
  let w1 := channels_split w frequencies ares in
  dict_get (ch_ix_dict w1) m = Some l -> nth_error l j = Some i ->
  exists row a rows amps,
    nth_error frequencies i = Some row /\ nth_error ares i = Some a /\
    dict_get (frequencies_dict w1) m = Some rows /\ nth_error rows j = Some row /\
    dict_get (ares_dict w1) m = Some amps /\ nth_error amps j = Some a.
Proof.
  intros w1 El Ej. subst w1. unfold channels_split, placed_channels in *.
  cbn [ch_ix_dict frequencies_dict ares_dict nco_freq_dict cleared_channels
       with_ch_ix_dict with_ares_dict with_frequencies_dict] in *.
  destruct (scatter_aligned _ _ (fun t : nat * list Q * Q => snd (fst t)) _ _ _ _ _ _ El Ej)
    as ([[i' row] a] & rows & I & Ei & _ & Er & Ejr).
  destruct (scatter_aligned _ _ (fun t : nat * list Q * Q => snd t) _ _ _ _ _ _ El Ej)
    as ([[i2 row2] a2] & amps & I2 & Ei2 & _ & Ea & Eja).
  simpl in *. subst i' i2.
  apply zip3_seq_In in I, I2. destruct I as [I _]. destruct I2 as [I2 I2a].
  exists row, a2, rows, amps. repeat split; try assumption.
Qed.

Lemma tones_split_aligned (w : world) (fres ares : list Q)
    (m : Z) (l : list nat) (j i : nat) :
  let w1 := tones_split w fres ares in
  dict_get (ch_ix_dict w1) m = Some l -> nth_error l j = Some i ->
  exists fr a frs amps,
    nth_error fres i = Some fr /\ nth_error ares i = Some a /\
    dict_get (fres_dict w1) m = Some frs /\ nth_error frs j = Some fr /\
    dict_get (ares_dict w1) m = Some amps /\ nth_error amps j = Some a.
Proof.
  intros w1 El Ej. subst w1. unfold tones_split, placed_tones in *.
  cbn [ch_ix_dict fres_dict ares_dict nco_freq_dict cleared_tones
       with_ch_ix_dict with_ares_dict with_fres_dict] in *.
  destruct (scatter_aligned _ _ (fun t : nat * Q * Q => snd (fst t)) _ _ _ _ _ _ El Ej)
    as ([[i' fr] a] & frs & I & Ei & _ & Er & Ejr).
  destruct (scatter_aligned _ _ (fun t : nat * Q * Q => snd t) _ _ _ _ _ _ El Ej)
    as ([[i2 fr2] a2] & amps & I2 & Ei2 & _ & Ea & Eja).
  simpl in *. subst i' i2.
  apply zip3_seq_In in I, I2. destruct I as [I _]. destruct I2 as [I2 I2a].
  exists fr, a2, frs, amps. repeat split; try assumption.
Qed.


Lemma map2_nth {A B D} (g : A -> B -> D) (a : list A) (b : list B) (i : nat) (x : A) (y : B) :
  nth_error a i = Some x -> nth_error b i = Some y ->
  nth_error (map2 g a b) i = Some (g x y).
Proof.
  revert b i. induction a as [|x0 a IH]; intros b i Ea Eb; [now destruct i|].
  destruct b as [|y0 b]; [now destruct i|].
  destruct i; simpl in *.
  - now injection Ea as ->; injection Eb as ->.
  - now apply IH.
Qed.

Lemma map2_length {A B D} (g : A -> B -> D) (a : list A) (b : list B) :
  length (map2 g a b) = Nat.min (length a) (length b).
Proof. unfold map2. now rewrite length_map, length_combine. Qed.

Lemma normalize_Ok (z0 : list (list sample)) (ares : list Q) (w w' : world) z :
  length ares = length z0 ->
  CRS.normalize z0 ares w = (Ok z, w') ->
  w' = w /\ z = map2 (fun row a => CRS.normalized a row) z0 ares.
Proof.
  intros L E. unfold CRS.normalize, np_expand in E.
  rewrite L, Nat.eqb_refl in E. simpl in E. unfold bind, ret in E. simpl in E.
  now injection E as <- <-.
Qed.

Lemma split_sweep_Ok (frequencies : list (list Q)) (ares : list Q) (w : world) :
  fst (CRS.split_sweep frequencies ares w) = Ok tt ->
  nco_freq_dict w <> [] /\
  Forall (fun t : nat * list Q * Q => snd (fst t) <> [])
         (zip3 (seq 0 (length frequencies)) frequencies ares) /\
  CRS.split_sweep frequencies ares w = (Ok tt, channels_split w frequencies ares).
Proof.
  intro E.
  assert (N : nco_freq_dict w <> []).
  { intro N. unfold CRS.split_sweep in E. unfold bind at 1 in E. unfold get at 1 in E.
    rewrite N in E. discriminate. }
  split; [exact N|].
  destruct (rows_empty_dec (zip3 (seq 0 (length frequencies)) frequencies ares)) as [F|F].
  - split; [exact F|]. rewrite split_sweep_run in * by assumption.
    simpl in E. now rewrite E.
  - rewrite (split_sweep_empty_row frequencies ares w N F) in E. discriminate.
Qed.

(** The rows that [sweep] returns are the rows of the modules at the
    recorded positions. *)
Lemma sweep_rows (frequencies : list (list Q)) (ares : list Q) (nsamps : nat)
    (w w' : world) f z :
  length frequencies = length ares ->
  CRS.sweep frequencies ares nsamps w = (Ok (f, z), w') ->
  let w1 := channels_split w frequencies ares in
  exists sf sz,
    CRS.split_sweep frequencies ares w = (Ok tt, w1) /\
    CRS.sweep_modules nsamps
      (with_fir_stage (with_trace w1 (trace w1 ++ [set_fir_stage 6])) 6) = (Ok (sf, sz), w') /\
    length f = length frequencies /\ length z = length frequencies /\
    forall i row a,
      nth_error frequencies i = Some row -> nth_error ares i = Some a ->
      exists m l j rows amps fm zm frow zrow,
        dict_get (ch_ix_dict w1) m = Some l /\ nth_error l j = Some i /\
        dict_get (frequencies_dict w1) m = Some rows /\ nth_error rows j = Some row /\
        dict_get (ares_dict w1) m = Some amps /\ nth_error amps j = Some a /\
        dict_get sf m = Some fm /\ nth_error fm j = Some frow /\
        nth_error f i = Some frow /\
        dict_get sz m = Some zm /\ nth_error zm j = Some zrow /\
        nth_error z i = Some (CRS.normalized a zrow).
Proof.
  intros L E w1.
  destruct (split_sweep_Ok frequencies ares w (sweep_Ok_split _ _ _ _ _ _ E)) as (N & F & S).
  fold w1 in S. unfold CRS.sweep in E.
  rewrite (bind_Ok _ _ _ _ _ S) in E. cbv beta in E.
  rewrite (bind_Ok _ _ _ _ _ (set_fir_stage_run 6 w1)) in E. cbv beta in E.
  apply bind_Ok_inv in E. destruct E as ([sf sz] & w2 & E2 & E).
  apply bind_Ok_inv in E. destruct E as ([f0 z0] & w3 & E3 & E).
  apply bind_Ok_inv in E. destruct E as (z' & w4 & E4 & E).
  unfold ret in E. injection E as <- <- <-.
  apply merge_sweep_Ok in E3. destruct E3 as (-> & Lf & Lz & Hrows).
  apply normalize_Ok in E4; [|congruence]. destruct E4 as [-> ->].
  exists sf, sz. split; [exact S|]. split; [exact E2|].
  split; [exact Lf|]. split; [rewrite map2_length; lia|].
  assert (D : ch_ix_dict w2 = ch_ix_dict w1).
  { pose proof (keeps_sweep_modules same_split) as K.
    assert (K' : keeps same_split (CRS.sweep_modules nsamps))
      by (apply K; frame_side same_split).
    specialize (K' (with_fir_stage (with_trace w1 (trace w1 ++ [set_fir_stage 6])) 6)).
    rewrite E2 in K'. destruct K' as (_ & K' & _). exact K'. }
  intros i row a Ei Ea.
  assert (Hi : (i < length frequencies)%nat) by (apply nth_error_Some; congruence).
  destruct (Hrows i Hi) as (Rf & Rz & Nf & Nz). rewrite D in Rf, Rz.
  unfold module_row in Rf, Rz.
  pose proof (find_key_and_index_spec (ch_ix_dict w1) i) as Sp.
  destruct (find_key_and_index (ch_ix_dict w1) i) as [[m j]|]; [|congruence].
  destruct Sp as (l & Il & Ej).
  destruct (channels_split_bijection w frequencies ares N F) as [Nk _]. fold w1 in Nk.
  pose proof (dict_In_get _ _ _ Nk Il) as El.
  destruct (channels_split_aligned w frequencies ares m l j i El Ej)
    as (row' & a' & rows & amps & Er & Ea' & Erows & Ejr & Eamps & Eja).
  fold w1 in Erows, Eamps.
  assert (row' = row) by congruence. assert (a' = a) by congruence. subst row' a'.
  destruct (dict_get sf m) as [fm|] eqn:Esf; [|congruence].
  destruct (dict_get sz m) as [zm|] eqn:Esz; [|congruence].
  destruct (nth_error fm j) as [frow|] eqn:Efr; [|congruence].
  destruct (nth_error zm j) as [zrow|] eqn:Ezr; [|congruence].
  exists m, l, j, rows, amps, fm, zm, frow, zrow.
  repeat split; try assumption; try reflexivity.
  apply (map2_nth (fun row0 a0 => CRS.normalized a0 row0)); assumption.
Qed.

End Merge.

(** ** The streams of a noise capture *)

Fixpoint fold_option {A S} (g : S -> A -> option S) (l : list A) (s : S) : option S :=
  match l with
  | [] => Some s
  | x :: r =>
      match g s x with
      | Some s' => fold_option g r s'
      | None => None
      end
  end.

Lemma for_fold_item {A S} (g : S -> A -> option S) (e : exn) (l : list A) (s : S) (w : world) :
  for_fold l s (fun s x => item (g s x) e) w =
  (match fold_option g l s with Some s' => Ok s' | None => Raise e end, w).
Proof.
  revert s. induction l as [|x l IH]; intro s; simpl; [reflexivity|].
  unfold bind. destruct (g s x) as [s'|]; simpl; [apply IH|reflexivity].
Qed.

Lemma list_set_spec {A} (l : list A) (i : nat) (x : A) (l' : list A) :
  list_set l i x = Some l' ->
  length l' = length l /\ nth_error l' i = Some x /\
  forall k, k <> i -> nth_error l' k = nth_error l k.
Proof.
  revert i l'. induction l as [|y l IH]; intros i l' E; [now destruct i|].
  destruct i as [|i]; simpl in E.
  - injection E as <-. repeat split. intros [|k] N; [congruence|reflexivity].
  - destruct (list_set l i x) as [r|] eqn:Er; [|discriminate]. injection E as <-.
    destruct (IH i r Er) as (L & G & O). repeat split; simpl; [now rewrite L|exact G|].
    intros [|k] N; [reflexivity|]. simpl. apply O. congruence.
Qed.

Section Streams.
Context `{Instrument}.

(** The three lists of a value of [streams]. *)
Definition z_of (s : CRS.streams) : list (list sample) := fst (fst s).
Definition zraw_of (s : CRS.streams) : list (list sample) := snd (fst s).
Definition zcal_of (s : CRS.streams) : list (option sample) := snd s.

(** The three lists have the same entries at index [k]. *)
Definition same_at (k : nat) (s s' : CRS.streams) : Prop :=
  nth_error (z_of s') k = nth_error (z_of s) k /\
  nth_error (zraw_of s') k = nth_error (zraw_of s) k /\
  nth_error (zcal_of s') k = nth_error (zcal_of s) k.

Definition same_lengths (s s' : CRS.streams) : Prop :=
  length (z_of s') = length (z_of s) /\
  length (zraw_of s') = length (zraw_of s) /\
  length (zcal_of s') = length (zcal_of s).

(** The lists hold at index [i] the rows of position [j] of a module. *)
Definition holds_at (zi zrawi : list (list sample)) (zcal_m : list sample)
    (j i : nat) (s : CRS.streams) : Prop :=
  exists r1 r2 c,
    nth_error zi j = Some r1 /\ nth_error zrawi j = Some r2 /\ nth_error zcal_m j = Some c /\
    nth_error (z_of s) i = Some r1 /\ nth_error (zraw_of s) i = Some r2 /\
    nth_error (zcal_of s) i = Some (Some c).

Lemma put_channel_spec zi zrawi zcal_m (acc acc' : CRS.streams) (j i : nat) :
  CRS.put_channel zi zrawi zcal_m acc (j, i) = Some acc' ->
  same_lengths acc acc' /\ holds_at zi zrawi zcal_m j i acc' /\
  forall k, k <> i -> same_at k acc acc'.
Proof.
  destruct acc as [[z zraw] zcal]. unfold CRS.put_channel.
  destruct (nth_error zi j) as [r1|] eqn:E1; [|discriminate].
  destruct (list_set z i r1) as [z'|] eqn:S1; [|discriminate].
  destruct (nth_error zrawi j) as [r2|] eqn:E2; [|discriminate].
  destruct (list_set zraw i r2) as [zraw'|] eqn:S2; [|discriminate].
  destruct (nth_error zcal_m j) as [c|] eqn:E3; [|discriminate].
  destruct (list_set zcal i (Some c)) as [zcal'|] eqn:S3; [|discriminate].
  intros [= <-].
  apply list_set_spec in S1, S2, S3.
  destruct S1 as (L1 & G1 & O1), S2 as (L2 & G2 & O2), S3 as (L3 & G3 & O3).
  split; [now repeat split|]. split.
  - exists r1, r2, c. now repeat split.
  - intros k N. repeat split; simpl; auto.
Qed.

Lemma put_channels_spec zi zrawi zcal_m (ch_ix : list nat) :
  NoDup ch_ix ->
  forall (s : nat) (acc acc' : CRS.streams),
    fold_option (CRS.put_channel zi zrawi zcal_m) (combine (seq s (length ch_ix)) ch_ix) acc
      = Some acc' ->
    same_lengths acc acc' /\
    (forall k, ~ In k ch_ix -> same_at k acc acc') /\
    (forall j i, nth_error ch_ix j = Some i ->
                 holds_at zi zrawi zcal_m (s + j) i acc').
Proof.
  induction ch_ix as [|i0 ch_ix IH]; intros N s acc acc' E; simpl in E.
  - injection E as <-. repeat split; auto. intros [|j] i; discriminate.
  - inversion N as [|? ? Ni N']; subst.
    destruct (CRS.put_channel zi zrawi zcal_m acc (s, i0)) as [acc1|] eqn:E1; [|discriminate].
    apply put_channel_spec in E1. destruct E1 as (L1 & H1 & O1).
    destruct (IH N' (S s) acc1 acc' E) as (L2 & O2 & H2).
    split; [|split].
    + destruct L1 as (a1 & a2 & a3), L2 as (b1 & b2 & b3). repeat split; congruence.
    + intros k Nk. simpl in Nk.
      assert (K1 : same_at k acc acc1) by (apply O1; intro; apply Nk; now left).
      assert (K2 : same_at k acc1 acc') by (apply O2; intro; apply Nk; now right).
      destruct K1 as (a1 & a2 & a3), K2 as (b1 & b2 & b3). repeat split; congruence.
    + intros [|j] i Ej; simpl in Ej.
      * injection Ej as <-. rewrite Nat.add_0_r.
        destruct (O2 i0 Ni) as (b1 & b2 & b3).
        destruct H1 as (r1 & r2 & c & X1 & X2 & X3 & Y1 & Y2 & Y3).
        exists r1, r2, c. repeat split; congruence.
      * rewrite Nat.add_succ_r. now apply (H2 j i).
Qed.


Lemma holds_at_same zi zrawi zcal_m (j i : nat) (s s' : CRS.streams) :
  same_at i s s' -> holds_at zi zrawi zcal_m j i s -> holds_at zi zrawi zcal_m j i s'.
Proof.
  intros (a1 & a2 & a3) (r1 & r2 & c & X1 & X2 & X3 & Y1 & Y2 & Y3).
  exists r1, r2, c. repeat split; congruence.
Qed.

Lemma NoDup_concat_In {A} (L : list (list A)) (l : list A) :
  NoDup (concat L) -> In l L -> NoDup l.
Proof.
  induction L as [|l0 L IH]; simpl; [intros _ []|].
  intros N [->|I].
  - now apply NoDup_app_remove_r in N.
  - apply IH; [|exact I]. now apply NoDup_app_remove_l in N.
Qed.

Lemma dict_lists_disjoint (D : dict (list nat)) (m m' : Z) (l l' : list nat) (i : nat) :
  NoDup (concat (map snd D)) ->
  dict_get D m = Some l -> dict_get D m' = Some l' -> m <> m' ->
  In i l -> ~ In i l'.
Proof.
  intros N E E' Nm I I'.
  apply dict_get_In in E, E'.
  induction D as [|[k0 l0] D IH]; simpl in *; [destruct E|].
  destruct E as [E|E], E' as [E'|E'].
  - congruence.
  - injection E as -> ->.
    apply (NoDup_app_disjoint _ _ i N I). apply in_concat. exists l'.
    split; [|exact I']. change l' with (snd (m', l')). now apply in_map.
  - injection E' as -> ->.
    apply (NoDup_app_disjoint _ _ i N I'). apply in_concat. exists l.
    split; [|exact I]. change l with (snd (m, l)). now apply in_map.
  - apply IH; auto. now apply NoDup_app_remove_l in N.
Qed.

(** The rows of position [j] of module [m] are at index [i]. *)
Definition module_holds (FD : dict (list Q)) (nz : dict (list sample)) (m : Z) (n : nat)
    (j i : nat) (s : CRS.streams) : Prop :=
  exists fm zc zi,
    dict_get FD m = Some fm /\ dict_get nz m = Some zc /\
    CRS.calibrate fm (parser_data m n) zc = Some zi /\
    holds_at zi (parser_data m n) zc j i s.

Lemma import_module_Ok (nz : dict (list sample)) (acc acc' : CRS.streams) (m : Z)
    (w w' : world) :
  CRS.import_module nz acc m w = (Ok acc', w') ->
  exists l fm zc zi,
    dict_get (ch_ix_dict w) m = Some l /\ dict_get (fres_dict w) m = Some fm /\
    dict_get nz m = Some zc /\
    CRS.calibrate fm (parser_data m (length l)) zc = Some zi /\
    fold_option (CRS.put_channel zi (parser_data m (length l)) zc) (enumerate l) acc
      = Some acc' /\
    ch_ix_dict w' = ch_ix_dict w /\ fres_dict w' = fres_dict w.
Proof.
  unfold CRS.import_module. intro E.
  unfold bind at 1 in E. unfold get at 1 in E.
  apply bind_Ok_inv in E. destruct E as (l & w1 & E1 & E).
  apply item_Ok_inv in E1. destruct E1 as [E1 ->].
  unfold bind at 1 in E. cbn [emit modify] in E.
  apply bind_Ok_inv in E. destruct E as (fm & w1 & E2 & E).
  apply item_Ok_inv in E2. destruct E2 as [E2 ->].
  apply bind_Ok_inv in E. destruct E as (zc & w1 & E3 & E).
  apply item_Ok_inv in E3. destruct E3 as [E3 ->].
  apply bind_Ok_inv in E. destruct E as (zi & w1 & E4 & E).
  apply item_Ok_inv in E4. destruct E4 as [E4 ->].
  rewrite for_fold_item in E.
  destruct (fold_option _ _ acc) as [s'|] eqn:E5; [|discriminate].
  injection E as <- <-. simpl in E2.
  exists l, fm, zc, zi. repeat split; assumption.
Qed.

Lemma gather_modules (D : dict (list nat)) (FD : dict (list Q)) (nz : dict (list sample)) :
  NoDup (concat (map snd D)) ->
  forall (mods : list Z) (acc acc' : CRS.streams) (w w' : world),
    ch_ix_dict w = D -> fres_dict w = FD ->
    for_fold mods acc (CRS.import_module nz) w = (Ok acc', w') ->
    ch_ix_dict w' = D /\ fres_dict w' = FD /\
    same_lengths acc acc' /\
    (forall k, (forall m l, In m mods -> dict_get D m = Some l -> ~ In k l) ->
               same_at k acc acc') /\
    (forall m l j i, In m mods -> dict_get D m = Some l -> nth_error l j = Some i ->
                     module_holds FD nz m (length l) j i acc').
Proof.
  intros Nc mods. induction mods as [|m0 mods IH]; intros acc acc' w w' Ed Ef E; simpl in E.
  - unfold ret in E. injection E as <- <-.
    repeat split; auto. intros m l j i [].
  - apply bind_Ok_inv in E. destruct E as (acc1 & w1 & E1 & E).
    apply import_module_Ok in E1.
    destruct E1 as (l0 & fm & zc & zi & X1 & X2 & X3 & X4 & X5 & Wd & Wf).
    rewrite Ed in X1, Wd. rewrite Ef in X2, Wf.
    assert (N0 : NoDup l0).
    { apply (NoDup_concat_In _ _ Nc). change l0 with (snd (m0, l0)).
      apply in_map. now apply dict_get_In. }
    destruct (put_channels_spec zi _ zc l0 N0 0 acc acc1 X5) as (L1 & O1 & H1).
    destruct (IH acc1 acc' w1 w' Wd Wf E) as (Rd & Rf & L2 & O2 & H2).
    split; [exact Rd|]. split; [exact Rf|]. split; [|split].
    + destruct L1 as (a1 & a2 & a3), L2 as (b1 & b2 & b3). repeat split; congruence.
    + intros k Hk.
      assert (K1 : same_at k acc acc1).
      { apply O1. apply (Hk m0 l0); [now left|exact X1]. }
      assert (K2 : same_at k acc1 acc').
      { apply O2. intros m l I. apply Hk. now right. }
      destruct K1 as (a1 & a2 & a3), K2 as (b1 & b2 & b3). repeat split; congruence.
    + intros m l j i Im El Ej.
      destruct (in_dec Z.eq_dec m mods) as [I|NI]; [now apply (H2 m l j i)|].
      destruct Im as [<-|Im]; [|contradiction].
      assert (l = l0) by congruence. subst l.
      exists fm, zc, zi. repeat split; try assumption.
      eapply holds_at_same; [|apply (H1 j i Ej)].
      apply O2. intros m' l' I' El'.
      apply (dict_lists_disjoint D m0 m' l0 l' i Nc X1 El').
      * intros ->. contradiction.
      * now apply nth_error_In with j.
Qed.


Lemma py_min_nat_spec (l : list nat) :
  match py_min_nat l with
  | None => l = []
  | Some n => In n l /\ forall x, In x l -> (n <= x)%nat
  end.
Proof.
  destruct l as [|x l]; simpl; [reflexivity|]. apply nat_min_from_spec.
Qed.

(** The cut of the streams: the common length is the least length of a
    row of [z], and every row is cut to it. *)
Lemma cut_streams_spec (s : CRS.streams) (w : world) :
  z_of s <> [] ->
  exists n,
    CRS.cut_streams s w =
      (Ok (map (firstn n) (z_of s), map (firstn n) (zraw_of s), zcal_of s), w) /\
    (exists row, In row (z_of s) /\ length row = n) /\
    (forall row, In row (z_of s) -> (n <= length row)%nat) /\
    (forall row, In row (map (firstn n) (z_of s)) -> length row = n).
Proof.
  destruct s as [[z zraw] zcal]. unfold z_of, zraw_of, zcal_of. simpl. intro Nz.
  pose proof (py_min_nat_spec (map (@length sample) z)) as S.
  destruct (py_min_nat (map (@length sample) z)) as [n|] eqn:E.
  - destruct S as [I L]. exists n. unfold bind, ret. simpl.
    split; [reflexivity|]. split; [|split].
    + apply in_map_iff in I. destruct I as (row & Er & Ir). eauto.
    + intros row Ir. apply L. now apply in_map.
    + intros row Ir. apply in_map_iff in Ir. destruct Ir as (r0 & <- & I0).
      rewrite length_firstn. apply Nat.min_l. apply L. now apply in_map.
  - destruct z; [congruence|discriminate].
Qed.

Lemma cut_streams_empty (s : CRS.streams) (w : world) :
  z_of s = [] -> fst (CRS.cut_streams s w) = Raise CRS.empty_sequence.
Proof.
  destruct s as [[z zraw] zcal]. unfold z_of. simpl. now intros ->.
Qed.

(** The dictionaries of [self] are the same in both worlds. *)
Definition same_dicts (w w' : world) : Prop :=
  nco_freq_dict w' = nco_freq_dict w /\ ch_ix_dict w' = ch_ix_dict w /\
  ares_dict w' = ares_dict w /\ fres_dict w' = fres_dict w.

Lemma write_tones_Ok_nco (fres ares : list Q) (w w' : world) :
  CRS.write_tones fres ares w = (Ok tt, w') -> nco_freq_dict w <> [].
Proof.
  intros E N. unfold CRS.write_tones, CRS.split_tones in E.
  unfold bind at 1 in E. unfold bind at 1 in E. unfold get at 1 in E.
  rewrite N in E. discriminate.
Qed.

Lemma normalized_length (a : Q) (row : list sample) :
  length (CRS.normalized a row) = length row.
Proof.
  unfold CRS.normalized. destruct splitter; now rewrite !length_map.
Qed.

End Streams.

(** ** The run of a noise capture that returns *)
Section CaptureRun.
Context `{Instrument}.

Lemma tones_split_ch_ix_nco (w wb : world) (fres ares : list Q) :
  nco_freq_dict wb = nco_freq_dict w ->
  ch_ix_dict (tones_split wb fres ares) = ch_ix_dict (tones_split w fres ares) /\
  ares_dict (tones_split wb fres ares) = ares_dict (tones_split w fres ares).
Proof.
  intro E. unfold tones_split, placed_tones.
  cbn [ch_ix_dict ares_dict nco_freq_dict cleared_tones
       with_ch_ix_dict with_ares_dict with_fres_dict].
  now rewrite E.
Qed.

Lemma prepare_capture_Ok (fres ares : list Q) (stage : Z) (verbose : bool)
    (w0 w2 : world) (nz : dict (list sample)) :
  CRS.prepare_capture fres ares stage verbose w0 = (Ok nz, w2) ->
  nco_freq_dict w0 <> [] /\
  nco_freq_dict w2 = nco_freq_dict w0 /\
  ch_ix_dict w2 = ch_ix_dict (tones_split w0 fres ares) /\
  ares_dict w2 = ares_dict (tones_split w0 fres ares).
Proof.
  unfold CRS.prepare_capture. intro E.
  rewrite (bind_Ok _ _ _ _ _ (set_fir_stage_run stage w0)) in E. cbv beta in E.
  unfold bind at 1 in E. cbn [modify] in E.
  apply bind_Ok_inv in E. destruct E as ([] & wb & Eb & E).
  assert (Nb : nco_freq_dict wb = nco_freq_dict w0).
  { destruct verbose; cbn in Eb; unfold ret in Eb; injection Eb as <-; reflexivity. }
  apply bind_Ok_inv in E. destruct E as ([] & wt & Et & E).
  pose proof (write_tones_Ok_nco _ _ _ _ Et) as N.
  pose proof (write_tones_same_split fres ares wb N) as St.
  rewrite Et in St. simpl in St.
  assert (K : same_split wt w2).
  { match type of E with
    | ?rest wt = _ => assert (Kr : keeps same_split rest)
    end.
    { apply keeps_bind; [frame_side same_split| |intros _].
      { apply keeps_emit; try reflexivity; frame_side same_split. }
      apply keeps_bind; [frame_side same_split|apply keeps_get; frame_side same_split|intro].
      apply keeps_bind; [frame_side same_split| |intro].
      { apply keeps_for_fold; [frame_side same_split..|]. intros.
        apply keeps_bind; [frame_side same_split|apply keeps_get; frame_side same_split|intro].
        apply keeps_get_noise_cal; frame_side same_split. }
      apply keeps_bind; [frame_side same_split| |intros _].
      { apply keeps_emit; try reflexivity; frame_side same_split. }
      apply keeps_ret. frame_side same_split. }
    specialize (Kr wt). now rewrite E in Kr. }
  destruct St as (S1 & S2 & S3), K as (K1 & K2 & K3).
  destruct (tones_split_ch_ix_nco w0 wb fres ares Nb) as [T1 T2].
  rewrite tones_split_nco in S1.
  split; [now rewrite <- Nb|]. repeat split; congruence.
Qed.


(** The world in which the streams are scaled. *)
Definition cleaned (delete_parser_data : bool) (w : world) : world :=
  if delete_parser_data then with_files w [] else w.

Lemma capture_noise_Ok (fres ares : list Q) (noise_time : Q) (stage : Z)
    (parser_loc interface : string) (delete_parser_data verbose return_raw : bool)
    (w w' : world) zf raw :
  CRS.capture_noise fres ares noise_time stage parser_loc interface
    delete_parser_data verbose return_raw w = (Ok (zf, raw), w') ->
  exists w0 nz w2 s w4 n,
    CRS.precapture stage w = (Ok tt, w0) /\
    nco_freq_dict w0 = nco_freq_dict w /\
    CRS.prepare_capture fres ares stage verbose w0 = (Ok nz, w2) /\
    CRS.gather_streams (length fres) (dict_keys (nco_freq_dict w)) nz
      (launched noise_time parser_loc interface w2) = (Ok s, w4) /\
    CRS.cut_streams s w4 =
      (Ok (map (firstn n) (z_of s), map (firstn n) (zraw_of s), zcal_of s), w4) /\
    (exists row, In row (z_of s) /\ length row = n) /\
    (forall row, In row (z_of s) -> (n <= length row)%nat) /\
    CRS.normalize (map (firstn n) (z_of s)) ares (cleaned delete_parser_data w4) = (Ok zf, w') /\
    raw = (if return_raw then Some (zcal_of s, map (firstn n) (zraw_of s)) else None).
Proof.
  intro E. unfold CRS.capture_noise in E.
  unfold bind at 1 in E. unfold get at 1 in E.
  destruct (precapture_run stage w) as (w0 & E0 & T0 & F0 & N0).
  destruct (stale w).
  { rewrite (bind_Raise _ _ _ _ _ E0) in E. discriminate. }
  rewrite (bind_Ok _ _ _ _ _ E0) in E. cbv beta in E.
  apply bind_Ok_inv in E. destruct E as (nz & w2 & E2 & E).
  rewrite (bind_Ok _ _ _ _ _ (run_parser_run noise_time parser_loc interface w2)) in E.
  cbv beta in E. unfold CRS.collect, CRS.import_streams in E.
  apply bind_Ok_inv in E. destruct E as ([[zc zrawc] zcalc] & w5 & E5 & E).
  apply bind_Ok_inv in E5. destruct E5 as (s & w4 & E4 & E5).
  assert (Nz : z_of s <> []).
  { intro Z. pose proof (cut_streams_empty s w4 Z) as C. rewrite E5 in C. discriminate. }
  destruct (cut_streams_spec s w4 Nz) as (n & C & C1 & C2 & _).
  rewrite C in E5. injection E5 as <- <- <- <-.
  apply bind_Ok_inv in E. destruct E as ([] & w6 & E6 & E).
  assert (W6 : w6 = cleaned delete_parser_data w4).
  { destruct delete_parser_data; cbn in E6; unfold ret in E6; now injection E6 as <-. }
  subst w6.
  apply bind_Ok_inv in E. destruct E as (z' & w7 & E7 & E).
  unfold ret in E. injection E as <- <- <-.
  exists w0, nz, w2, s, w4, n. repeat split; assumption.
Qed.


Lemma tones_split_keys (w : world) (fres ares : list Q) (m : Z) :
  In m (dict_keys (ch_ix_dict (tones_split w fres ares))) <->
  In m (dict_keys (nco_freq_dict w)).
Proof.
  unfold tones_split, placed_tones.
  cbn [ch_ix_dict nco_freq_dict cleared_tones with_ch_ix_dict with_ares_dict with_fres_dict].
  rewrite scatter_keys. apply dict_init_spec.
Qed.

Lemma recorded_position (D : dict (list nat)) (n i : nat) :
  NoDup (dict_keys D) -> Permutation (concat (map snd D)) (seq 0 n) -> (i < n)%nat ->
  exists m l j, dict_get D m = Some l /\ nth_error l j = Some i.
Proof.
  intros Nk P Hi.
  assert (I : In i (concat (map snd D))).
  { apply (Permutation_in i (Permutation_sym P)). apply in_seq. lia. }
  apply in_concat in I. destruct I as (l & Il & Ii).
  apply in_map_iff in Il. destruct Il as ([m l'] & <- & Im). simpl in Ii.
  apply In_nth_error in Ii. destruct Ii as [j Ej].
  exists m, l', j. split; [now apply dict_In_get|exact Ej].
Qed.

(** The streams that a noise capture returns: row [i] is the row that the
    module of channel [i] has at the recorded position, cut to the common
    length and scaled by the amplitude of channel [i]. *)
Lemma capture_noise_rows (fres ares : list Q) (noise_time : Q) (stage : Z)
    (parser_loc interface : string) (delete_parser_data verbose return_raw : bool)
    (w w' : world) zf raw :
  length fres = length ares ->
  CRS.capture_noise fres ares noise_time stage parser_loc interface
    delete_parser_data verbose return_raw w = (Ok (zf, raw), w') ->
  exists (nz : dict (list sample)) (s : CRS.streams) (n : nat),
    (exists w2 w4,
       CRS.gather_streams (length fres) (dict_keys (nco_freq_dict w)) nz
         (launched noise_time parser_loc interface w2) = (Ok s, w4)) /\
    ch_ix_dict w' = ch_ix_dict (tones_split w fres ares) /\
    ares_dict w' = ares_dict (tones_split w fres ares) /\
    length (z_of s) = length fres /\
    (exists row, In row (z_of s) /\ length row = n) /\
    (forall row, In row (z_of s) -> (n <= length row)%nat) /\
    length zf = length fres /\
    (forall row, In row zf -> length row = n) /\
    raw = (if return_raw then Some (zcal_of s, map (firstn n) (zraw_of s)) else None) /\
    forall i a,
      nth_error ares i = Some a ->
      exists m l j full,
        dict_get (ch_ix_dict w') m = Some l /\ nth_error l j = Some i /\
        module_holds (fres_dict w') nz m (length l) j i s /\
        nth_error (z_of s) i = Some full /\
        nth_error zf i = Some (CRS.normalized a (firstn n full)).
Proof.
  intros L E.
  destruct (capture_noise_Ok _ _ _ _ _ _ _ _ _ _ _ _ _ E)
    as (w0 & nz & w2 & s & w4 & n & E0 & N0 & E2 & E4 & E5 & C1 & C2 & E7 & Er).
  destruct (prepare_capture_Ok _ _ _ _ _ _ _ E2) as (N & P1 & P2 & P3).
  rewrite N0 in N.
  destruct (tones_split_ch_ix_nco w w0 fres ares N0) as [T1 T2]. rewrite T1 in P2.
  rewrite T2 in P3.
  assert (Ka : ares_dict w4 = ares_dict w2).
  { assert (K : keeps same_split
                  (CRS.gather_streams (length fres) (dict_keys (nco_freq_dict w)) nz))
      by (apply keeps_gather_streams; frame_side same_split).
    specialize (K (launched noise_time parser_loc interface w2)).
    rewrite E4 in K. destruct K as (_ & _ & K). exact K. }
  destruct (tones_split_bijection w fres ares N) as [Nk Pm].
  rewrite <- L, Nat.min_id in Pm.
  set (D := ch_ix_dict (tones_split w fres ares)) in *.
  assert (Nc : NoDup (concat (map snd D))).
  { apply (Permutation_NoDup (Permutation_sym Pm)). apply seq_NoDup. }
  pose proof E4 as E4'. unfold CRS.gather_streams in E4'.
  destruct (gather_modules D (fres_dict w2) nz Nc _ _ _
              (launched noise_time parser_loc interface w2) _ P2 eq_refl E4')
    as (G1 & G2 & G3 & _ & G5).
  assert (Lz : length (z_of s) = length fres).
  { destruct G3 as (G3 & _). rewrite G3. unfold z_of. simpl. apply repeat_length. }
  apply normalize_Ok in E7; [|now rewrite length_map, Lz].
  destruct E7 as [-> ->].
  assert (Wd : ch_ix_dict (cleaned delete_parser_data w4) = D)
    by (destruct delete_parser_data; exact G1).
  assert (Wf : fres_dict (cleaned delete_parser_data w4) = fres_dict w2)
    by (destruct delete_parser_data; exact G2).
  assert (Wa : ares_dict (cleaned delete_parser_data w4) = ares_dict w4)
    by (destruct delete_parser_data; reflexivity).
  exists nz, s, n. rewrite Wd, Wf, Wa.
  split; [exists w2, w4; exact E4|].
  split; [reflexivity|]. split; [congruence|]. split; [exact Lz|]. split; [exact C1|]. split; [exact C2|].
  split; [rewrite map2_length, length_map, Lz; lia|]. split; [|split; [exact Er|]].
  - intros row I. unfold map2 in I. apply in_map_iff in I.
    destruct I as ([r a] & <- & I). simpl. rewrite normalized_length.
    apply in_combine_l in I. apply in_map_iff in I. destruct I as (r0 & <- & I0).
    rewrite length_firstn. apply Nat.min_l. now apply C2.
  - intros i a Ea.
    assert (Hi : (i < length fres)%nat) by (rewrite L; apply nth_error_Some; congruence).
    destruct (recorded_position D (length fres) i Nk Pm Hi) as (m & l & j & El & Ej).
    assert (Im : In m (dict_keys (nco_freq_dict w))).
    { apply (tones_split_keys w fres ares). apply dict_get_keys. eauto. }
    pose proof (G5 m l j i Im El Ej) as Hm.
    destruct Hm as (fm & zc & zi & X1 & X2 & X3 & Hh).
    destruct Hh as (r1 & r2 & c & Y1 & Y2 & Y3 & Y4 & Y5 & Y6).
    exists m, l, j, r1. split; [exact El|]. split; [exact Ej|]. split; [|split; [exact Y4|]].
    + exists fm, zc, zi. repeat split; try assumption.
      exists r1, r2, c. repeat split; assumption.
    + apply (map2_nth (fun row0 a0 => CRS.normalized a0 row0)); [|exact Ea].
      now apply map_nth_error.
Qed.

End CaptureRun.

(** ** C2 and C7: the merged results *)
Section Merged.
Context `{Instrument}.

(** C2.  With a non-empty NCO table and as many amplitudes as channels:
    after [write_tones] the lists of [ch_ix_dict] hold every index below the
    number of channels once.  After a [sweep] that returns, the same holds,
    [f] and [z] have one row per channel of the caller, and row [i] is the
    row that the macro returned for the module and position at which
    [ch_ix_dict] records [i], where the macro was given the frequencies and
    the amplitude of channel [i]; the row of [z] is scaled by the amplitude
    of channel [i].  After a [capture_noise] that returns, the same holds for
    the streams: row [i] is the stream of the recorded module and position,
    cut to the common length and scaled by the amplitude of channel [i]. *)
Theorem merge_restores_caller_order (w : world) :
  (forall fres ares,
     nco_freq_dict w <> [] -> length fres = length ares ->
     let D := ch_ix_dict (snd (CRS.write_tones fres ares w)) in
     NoDup (dict_keys D) /\ Permutation (concat (map snd D)) (seq 0 (length fres))) /\
  (forall frequencies ares nsamps f z w',
     length frequencies = length ares ->
     CRS.sweep frequencies ares nsamps w = (Ok (f, z), w') ->
     let D := ch_ix_dict w' in
     NoDup (dict_keys D) /\
     Permutation (concat (map snd D)) (seq 0 (length frequencies)) /\
     length f = length frequencies /\ length z = length frequencies /\
     exists w1 sf sz,
       CRS.split_sweep frequencies ares w = (Ok tt, w1) /\
       CRS.sweep_modules nsamps
         (with_fir_stage (with_trace w1 (trace w1 ++ [set_fir_stage 6])) 6)
         = (Ok (sf, sz), w') /\
       forall i row a,
         nth_error frequencies i = Some row -> nth_error ares i = Some a ->
         exists m l j rows amps fm zm frow zrow,
           dict_get D m = Some l /\ nth_error l j = Some i /\
           dict_get (frequencies_dict w1) m = Some rows /\ nth_error rows j = Some row /\
           dict_get (ares_dict w1) m = Some amps /\ nth_error amps j = Some a /\
           dict_get sf m = Some fm /\ nth_error fm j = Some frow /\
           nth_error f i = Some frow /\
           dict_get sz m = Some zm /\ nth_error zm j = Some zrow /\
           nth_error z i = Some (CRS.normalized a zrow)) /\
  (forall fres ares noise_time stage parser_loc interface delete_parser_data verbose
          return_raw zf raw w',
     length fres = length ares ->
     CRS.capture_noise fres ares noise_time stage parser_loc interface
       delete_parser_data verbose return_raw w = (Ok (zf, raw), w') ->
     let D := ch_ix_dict w' in
     NoDup (dict_keys D) /\
     Permutation (concat (map snd D)) (seq 0 (length fres)) /\
     length zf = length fres /\
     exists nz s n,
       (exists w2 w4,
          CRS.gather_streams (length fres) (dict_keys (nco_freq_dict w)) nz
            (launched noise_time parser_loc interface w2) = (Ok s, w4)) /\
       forall i a,
         nth_error ares i = Some a ->
         exists m l j amps full,
           dict_get D m = Some l /\ nth_error l j = Some i /\
           dict_get (ares_dict w') m = Some amps /\ nth_error amps j = Some a /\
           module_holds (fres_dict w') nz m (length l) j i s /\
           nth_error (z_of s) i = Some full /\
           nth_error zf i = Some (CRS.normalized a (firstn n full))).
Proof.
  split; [|split].
  - intros fres ares N L D.
    destruct (write_tones_same_split fres ares w N) as (_ & Ec & _).
    subst D. rewrite Ec.
    destruct (tones_split_bijection w fres ares N) as [A B].
    rewrite <- L, Nat.min_id in B. now split.
  - intros frequencies ares nsamps f z w' L E D.
    destruct (split_sweep_Ok frequencies ares w (sweep_Ok_split _ _ _ _ _ _ E)) as (N & F & S).
    destruct (sweep_same_split frequencies ares nsamps w N F) as (_ & Ec & _).
    rewrite E in Ec. simpl in Ec. subst D. rewrite Ec.
    destruct (channels_split_bijection w frequencies ares N F) as [A B].
    rewrite <- L, Nat.min_id in B.
    destruct (sweep_rows frequencies ares nsamps w w' f z L E)
      as (sf & sz & S1 & S2 & Lf & Lz & Hr).
    split; [exact A|]. split; [exact B|]. split; [exact Lf|]. split; [exact Lz|].
    exists (channels_split w frequencies ares), sf, sz.
    split; [exact S1|]. split; [exact S2|exact Hr].
  - intros fres ares noise_time stage parser_loc interface delete_parser_data verbose
           return_raw zf raw w' L E D.
    destruct (capture_noise_rows _ _ _ _ _ _ _ _ _ _ _ _ _ L E)
      as (nz & s & n & G & Ed & Ea & Lz & _ & _ & Lf & _ & _ & Hr).
    destruct (capture_noise_Ok _ _ _ _ _ _ _ _ _ _ _ _ _ E)
      as (w0 & nz' & w2 & _ & _ & _ & _ & N0 & E2 & _).
    destruct (prepare_capture_Ok _ _ _ _ _ _ _ E2) as (N & _). rewrite N0 in N.
    destruct (tones_split_bijection w fres ares N) as [A B].
    rewrite <- L, Nat.min_id in B.
    subst D. rewrite Ed.
    split; [exact A|]. split; [exact B|]. split; [exact Lf|].
    exists nz, s, n. split; [exact G|].
    intros i a Hi. destruct (Hr i a Hi) as (m & l & j & full & El & Ej & Hm & Ef & Ez).
    rewrite Ed in El.
    destruct (tones_split_aligned w fres ares m l j i El Ej)
      as (fr & a' & frs & amps & _ & Ea' & _ & _ & Eamps & Eja).
    assert (a' = a) by congruence. subst a'.
    exists m, l, j, amps, full. rewrite Ea. repeat split; assumption.
Qed.

(** C7, as the code has it.  The streams are cut to the least length of a
    row of [z]: [cut_streams] returns for every non-empty list of streams,
    every row of [z] and of [zraw] is cut to that length and [zcal] is
    unchanged; with rows of 1000 and of 998 samples the common length is
    998.  A [capture_noise] that returns gives one row per channel, each of
    the least length of the gathered streams; what it returns is the cut
    streams alone, without a mark of a cut. *)
Theorem noise_streams_cut_to_shortest :
  (forall (s : CRS.streams) (w : world),
     z_of s <> [] ->
     exists n,
       CRS.cut_streams s w =
         (Ok (map (firstn n) (z_of s), map (firstn n) (zraw_of s), zcal_of s), w) /\
       (exists row, In row (z_of s) /\ length row = n) /\
       (forall row, In row (z_of s) -> (n <= length row)%nat) /\
       (forall row, In row (map (firstn n) (z_of s)) -> length row = n)) /\
  (forall (s : CRS.streams) (w : world),
     (forall row, In row (z_of s) -> length row = 1000%nat \/ length row = 998%nat) ->
     (exists row, In row (z_of s) /\ length row = 998%nat) ->
     CRS.cut_streams s w =
       (Ok (map (firstn 998) (z_of s), map (firstn 998) (zraw_of s), zcal_of s), w)) /\
  (forall fres ares noise_time stage parser_loc interface delete_parser_data verbose
          return_raw zf raw w w',
     length fres = length ares ->
     CRS.capture_noise fres ares noise_time stage parser_loc interface
       delete_parser_data verbose return_raw w = (Ok (zf, raw), w') ->
     exists nz s n,
       (exists w2 w4,
          CRS.gather_streams (length fres) (dict_keys (nco_freq_dict w)) nz
            (launched noise_time parser_loc interface w2) = (Ok s, w4)) /\
       (exists row, In row (z_of s) /\ length row = n) /\
       (forall row, In row (z_of s) -> (n <= length row)%nat) /\
       length zf = length fres /\
       (forall row, In row zf -> length row = n) /\
       raw = (if return_raw then Some (zcal_of s, map (firstn n) (zraw_of s)) else None)).
Proof.
  split; [|split].
  - intros s w Nz. now apply cut_streams_spec.
  - intros s w Hl (row & Ir & Lr).
    assert (Nz : z_of s <> []) by (intro Z; rewrite Z in Ir; destruct Ir).
    destruct (cut_streams_spec s w Nz) as (n & C & (r0 & I0 & L0) & C2 & _).
    assert (En : n = 998%nat).
    { specialize (C2 row Ir). destruct (Hl r0 I0); lia. }
    rewrite <- En. exact C.
  - intros fres ares noise_time stage parser_loc interface delete_parser_data verbose
           return_raw zf raw w w' L E.
    destruct (capture_noise_rows _ _ _ _ _ _ _ _ _ _ _ _ _ L E)
      as (nz & s & n & G & _ & _ & _ & C1 & C2 & Lf & Lr & Er & _).
    exists nz, s, n. repeat split; assumption.
Qed.

End Merged.

(** * Examples on the bench instrument *)

(** The instrument of the examples with a parser that gives 998 samples
    per tone on every module. *)
Definition bench_even : Instrument := {|
  sample := Q * Q;
  crs_sn := 27;
  splitter := true;
  full_scale_dbm := 1;
  volts_per_roc := 1;
  comb_sampling_freq := 625e6;
  remove_internal_phaseshift := fun _ z c => bench_div z c;
  scale := fun z x => (fst z * x, snd z * x);
  div_dB20 := fun z _ => z;
  mean := fun l => hd (0, 0) l;
  uniform := fun _ => 0;
  adc := fun k m n => repeat (repeat (inject_Z (Z.of_nat (S k)), inject_Z m) n) 4;
  parser_data := fun m n => repeat (repeat (inject_Z m, 1) 998) n
|}.

(** Three tones, two near the NCO of module 1 and one near that of module 2. *)
Definition three_tones : list Q := [500.1e6; 1200.2e6; 500.5e6].
Definition three_powers : list Q := [-10; -20; -30].
(** Two swept channels, one for each module. *)
Definition two_sweeps : list (list Q) := [[500.1e6; 500.2e6]; [1200.2e6; 1200.3e6]].
Definition two_powers : list Q := [-10; -20].

(** Computes the left-hand side of an equation between closed terms. *)
Ltac run :=
  match goal with
  | |- ?l = _ => let v := eval vm_compute in l in
                 (transitivity v; [vm_cast_no_check (eq_refl v)|reflexivity])
  end.

(** C7, as the claim has it, fails: on the bench instrument the parser
    gives 1000 samples per tone on module 1 and 998 on module 2, the capture
    returns streams of 998 samples, and it returns exactly what it returns
    when the parser gives 998 samples on both modules: nothing in the result
    tells the caller that streams were cut. *)
Lemma capture_noise_returns_no_mark_of_the_cut :
  map (@length (Q * Q)) (@parser_data bench 1%Z 2) = [1000; 1000]%nat /\
  map (@length (Q * Q)) (@parser_data bench 2%Z 1) = [998]%nat /\
  @CRS.capture_noise bench three_tones three_powers 1 6 "parser" "enp2s0"
     false false true two_modules =
  @CRS.capture_noise bench_even three_tones three_powers 1 6 "parser" "enp2s0"
     false false true two_modules /\
  exists zf raw w',
    @CRS.capture_noise bench three_tones three_powers 1 6 "parser" "enp2s0"
       false false true two_modules = (Ok (zf, raw), w') /\
    map (@length (Q * Q)) zf = [998; 998; 998]%nat.
Proof.
  split; [vm_compute; reflexivity|]. split; [vm_compute; reflexivity|].
  split; [vm_compute; reflexivity|].
  eexists _, _, _. split; [run|]. vm_compute. reflexivity.
Qed.

Lemma two_modules_nco : nco_freq_dict two_modules <> [].
Proof. discriminate. Qed.

Lemma one_module_nco : nco_freq_dict one_module <> [].
Proof. discriminate. Qed.

(** A session whose NCOs are doubles: the first is the double next below
    100e6, which is 2^-26 away from it. *)
Definition tie_modules : world :=
  mkWorld [(1%Z, 100e6 - 2 ^ (-26)); (2%Z, 700e6)] [] [] [] [] 0 5 [] [] 0 0 [].

Definition edge_module : world :=
  mkWorld [(1%Z, 100e6 - 2 ^ (-26))] [] [] [] [] 0 5 [] [] 0 0 [].

Lemma edge_module_nco : nco_freq_dict edge_module <> [].
Proof. discriminate. Qed.

(** C1 on the bench: channel 1 of the three tones in [write_tones], channel
    1 of two swept channels in [sweep], both of which go to the second
    module, and the scenario of the two tones. *)
Lemma channels_go_to_nearest_nco_witness :
  (exists m l nm before after,
     dict_get (ch_ix_dict (snd (@CRS.write_tones bench three_tones three_powers two_modules)))
              m = Some l /\ In 1%nat l /\
     dict_get (nco_freq_dict two_modules) m = Some nm /\
     [1%Z; 2%Z] = before ++ m :: after /\
     forall k nk, dict_get (nco_freq_dict two_modules) k = Some nk ->
       Qabs (fl (nm - 1200.2e6)) <= Qabs (fl (nk - 1200.2e6)) /\
       (In k before -> Qabs (fl (nm - 1200.2e6)) < Qabs (fl (nk - 1200.2e6))) /\
       (Qabs (nm - 1200.2e6) <= 2 ^ 1023 -> Qabs (nk - 1200.2e6) <= 2 ^ 1023 ->
        Qabs (nm - 1200.2e6) <=
        Qabs (nk - 1200.2e6) + (Qabs (nm - 1200.2e6) + Qabs (nk - 1200.2e6)) * 2 ^ (-53)
        + 2 ^ (-1074))) /\
  (exists m l nm before after,
     dict_get (ch_ix_dict (snd (@CRS.sweep bench two_sweeps two_powers 2 two_modules)))
              m = Some l /\ In 1%nat l /\
     dict_get (nco_freq_dict two_modules) m = Some nm /\
     [1%Z; 2%Z] = before ++ m :: after /\
     forall k nk, dict_get (nco_freq_dict two_modules) k = Some nk ->
       Qmax (Qabs (fl (nm - 1200.3e6))) (Qabs (fl (nm - 1200.2e6))) <=
       Qmax (Qabs (fl (nk - 1200.3e6))) (Qabs (fl (nk - 1200.2e6))) /\
       (In k before ->
        Qmax (Qabs (fl (nm - 1200.3e6))) (Qabs (fl (nm - 1200.2e6))) <
        Qmax (Qabs (fl (nk - 1200.3e6))) (Qabs (fl (nk - 1200.2e6)))) /\
       (Qmax (Qabs (nm - 1200.3e6)) (Qabs (nm - 1200.2e6)) <= 2 ^ 1023 ->
        Qmax (Qabs (nk - 1200.3e6)) (Qabs (nk - 1200.2e6)) <= 2 ^ 1023 ->
        Qmax (Qabs (nm - 1200.3e6)) (Qabs (nm - 1200.2e6)) <=
        Qmax (Qabs (nk - 1200.3e6)) (Qabs (nk - 1200.2e6)) +
        (Qmax (Qabs (nm - 1200.3e6)) (Qabs (nm - 1200.2e6)) +
         Qmax (Qabs (nk - 1200.3e6)) (Qabs (nk - 1200.2e6))) * 2 ^ (-53) + 2 ^ (-1074))) /\
  ch_ix_dict (snd (@CRS.sweep bench two_sweeps two_powers 2 two_modules)) =
  [(1%Z, [0%nat]); (2%Z, [1%nat])] /\
  ch_ix_dict (snd (@CRS.write_tones bench [500.1e6; 1200.2e6] [-10; -20] two_modules)) =
  [(1%Z, [0%nat]); (2%Z, [1%nat])].
Proof.
  destruct (@channels_go_to_nearest_nco bench two_modules two_modules_nco) as (A & B & C).
  split; [|split; [|split]].
  - apply (A three_tones three_powers 1%nat 1200.2e6); [reflexivity|simpl; lia].
  - apply (B two_sweeps two_powers 2%nat 1%nat [1200.2e6; 1200.3e6] 1200.3e6 1200.2e6).
    + repeat constructor; discriminate.
    + reflexivity.
    + simpl; lia.
    + simpl; auto.
    + intros x [<-|[<-|[]]]; vm_compute; discriminate.
    + simpl; auto.
    + intros x [<-|[<-|[]]]; vm_compute; discriminate.
  - vm_compute. reflexivity.
  - apply C. reflexivity.
Defined.

(** The first module keeps a channel that the second is nearer to, when
    the two offsets have the same double: the NCOs 100e6 - 2^-26 and 700e6
    and the tone 400e6 are doubles, the offsets are 300e6 + 2^-26 and
    300e6, and the doubles next to 300e6 are 2^-24 apart. *)
Lemma write_tones_keeps_first_module_on_equal_doubles :
  let nco := nco_freq_dict tie_modules in
  let r := @CRS.write_tones bench [400e6] [-10] tie_modules in
  nco = [(1%Z, 100e6 - 2 ^ (-26)); (2%Z, 700e6)] /\
  Qabs (700e6 - 400e6) < Qabs (100e6 - 2 ^ (-26) - 400e6) /\
  fl (100e6 - 2 ^ (-26) - 400e6) == fl (700e6 - 400e6 - 600e6) /\
  ch_ix_dict (snd r) = [(1%Z, [0%nat]); (2%Z, [])].
Proof.
  split; [reflexivity|]. split; [vm_compute; reflexivity|].
  split; [vm_compute; reflexivity|]. vm_compute. reflexivity.
Qed.

(** C3 on the bench: 900e6 with the only NCO at 500e6, as a tone and as a
    swept channel, is refused; 500.1e6 passes the checks. *)
Lemma out_of_band_raises_before_any_command_witness :
  (fst (@CRS.write_tones bench [900e6] [-10] one_module) = Raise CRS.fres_out_of_band /\
   trace (snd (@CRS.write_tones bench [900e6] [-10] one_module)) = [] /\
   fir_stage (snd (@CRS.write_tones bench [900e6] [-10] one_module)) = 5%Z) /\
  (fst (@CRS.sweep bench [[900e6; 900.1e6]] [-10] 2 one_module)
   = Raise CRS.frequencies_out_of_band /\
   trace (snd (@CRS.sweep bench [[900e6; 900.1e6]] [-10] 2 one_module)) = [] /\
   fir_stage (snd (@CRS.sweep bench [[900e6; 900.1e6]] [-10] 2 one_module)) = 5%Z) /\
  fst (CRS.split_tones [500.1e6] [-10] one_module) = Ok tt /\
  fst (CRS.split_sweep [[500.1e6; 500.2e6]] [-10] one_module) = Ok tt /\
  (fst (@CRS.write_tones bench [900e6] [0] one_module) = Raise CRS.fres_out_of_band /\
   trace (snd (@CRS.write_tones bench [900e6] [0] one_module)) = []).
Proof.
  destruct (@out_of_band_raises_before_any_command bench one_module one_module_nco)
    as (A & B & C & D & E).
  split; [|split; [|split; [|split]]].
  - destruct (A [900e6] [-10] 0%nat 900e6 eq_refl (le_n 1))
      as (m & l & nm & _ & _ & En & Imp).
    change (dict_get [(1%Z, 500e6)] m = Some nm) in En. cbn [dict_get] in En.
    destruct (Z.eqb 1 m); [|discriminate En]. injection En as <-.
    apply Imp. vm_compute. reflexivity.
  - assert (F : Forall (fun row : list Q => row <> []) [[900e6; 900.1e6]])
      by (repeat constructor; discriminate).
    destruct (B [[900e6; 900.1e6]] [-10] 2%nat 0%nat [900e6; 900.1e6] F eq_refl (le_n 1))
      as (m & l & nm & _ & _ & En & Imp).
    change (dict_get [(1%Z, 500e6)] m = Some nm) in En. cbn [dict_get] in En.
    destruct (Z.eqb 1 m); [|discriminate En]. injection En as <-.
    apply (Imp 900e6); [now left|]. vm_compute. reflexivity.
  - apply (C [500.1e6] [-10]).
    intros m frs f nm Ef If En.
    change (dict_get [(1%Z, 500e6)] m = Some nm) in En. cbn [dict_get] in En.
    destruct (Z.eqb 1 m) eqn:Em; [|discriminate En]. injection En as <-.
    apply Z.eqb_eq in Em. subst m.
    assert (X : dict_get (fres_dict (snd (CRS.split_tones [500.1e6] [-10] one_module)))
                         1%Z = Some [500.1e6]) by reflexivity.
    rewrite X in Ef. injection Ef as <-. destruct If as [<-|[]].
    vm_compute. discriminate.
  - apply (D [[500.1e6; 500.2e6]] [-10]); [repeat constructor; discriminate|].
    intros m rows row f nm Ef Ir If En.
    change (dict_get [(1%Z, 500e6)] m = Some nm) in En. cbn [dict_get] in En.
    destruct (Z.eqb 1 m) eqn:Em; [|discriminate En]. injection En as <-.
    apply Z.eqb_eq in Em. subst m.
    assert (X : dict_get (frequencies_dict
                            (snd (CRS.split_sweep [[500.1e6; 500.2e6]] [-10]
                                    one_module)))
                         1%Z = Some [[500.1e6; 500.2e6]]) by reflexivity.
    rewrite X in Ef. injection Ef as <-. destruct Ir as [<-|[]].
    destruct If as [<-|[<-|[]]]; vm_compute; discriminate.
  - apply (E eq_refl 0).
Defined.

(** A tone farther than 325e6 from its NCO that is written: the NCO
    100e6 - 2^-26 and the tone 425e6 are doubles, the offset 325e6 + 2^-26
    has the double 325e6, and the check of [write_tones] passes. *)
Lemma write_tones_accepts_offset_above_bandwidth :
  let r := @CRS.write_tones bench [425e6] [-10] edge_module in
  nco_freq_dict edge_module = [(1%Z, 100e6 - 2 ^ (-26))] /\
  325e6 < Qabs (425e6 - (100e6 - 2 ^ (-26))) /\
  ch_ix_dict (snd r) = [(1%Z, [0%nat])] /\
  fst r = Ok tt /\
  exists f, trace (snd r) =
            [clear_channels 1;
             tuber_context [set_frequency f 1 1; set_amplitude (dB20 (-11)) 1 1]].
Proof.
  split; [reflexivity|]. split; [vm_compute; reflexivity|].
  split; [vm_compute; reflexivity|]. split; [vm_compute; reflexivity|].
  vm_compute. eexists. reflexivity.
Qed.

(** C4 on the bench, where the full scale is 1 dBm: a tone of 0 dBm is
    written, a tone of 2 dBm is refused before any command. *)
Lemma write_tones_full_scale_check_witness :
  fst (@ReadoutModule.write_tones bench 1%Z [(1%Z, 500e6)] [(1%Z, [500.1e6])] [(1%Z, [0])]
         (fun _ w => w) one_module) = Ok tt /\
  fst (@ReadoutModule.write_tones bench 1%Z [(1%Z, 500e6)] [(1%Z, [500.1e6])] [(1%Z, [2])]
         (fun _ w => w) one_module) = Raise (@ReadoutModule.full_scale_error) /\
  trace (snd (@ReadoutModule.write_tones bench 1%Z [(1%Z, 500e6)] [(1%Z, [500.1e6])]
                [(1%Z, [2])] (fun _ w => w) one_module)) = [].
Proof.
  split.
  - apply (proj1 (@write_tones_full_scale_check bench 1%Z [(1%Z, 500e6)] [(1%Z, [500.1e6])]
                    [(1%Z, [0])] (fun _ w => w) one_module [500.1e6] [0] 500e6
                    eq_refl eq_refl eq_refl (fun _ _ => eq_refl))).
    repeat constructor. discriminate.
  - apply (proj2 (@write_tones_full_scale_check bench 1%Z [(1%Z, 500e6)] [(1%Z, [500.1e6])]
                    [(1%Z, [2])] (fun _ w => w) one_module [500.1e6] [2] 500e6
                    eq_refl eq_refl eq_refl (fun _ _ => eq_refl))).
    constructor. reflexivity.
Defined.



(** C2 on the bench: the three tones, a sweep of two channels and a noise
    capture of the three tones. *)
Lemma merge_restores_caller_order_witness :
  Permutation
    (concat (map snd (ch_ix_dict (snd (@CRS.write_tones bench three_tones three_powers
                                                        two_modules)))))
    (seq 0 3) /\
  (exists f z w',
     @CRS.sweep bench two_sweeps two_powers 2 two_modules = (Ok (f, z), w') /\
     Permutation (concat (map snd (ch_ix_dict w'))) (seq 0 2) /\
     length f = 2%nat /\ length z = 2%nat) /\
  (exists zf raw w',
     @CRS.capture_noise bench three_tones three_powers 1 6 "parser" "enp2s0"
        false false true two_modules = (Ok (zf, raw), w') /\
     Permutation (concat (map snd (ch_ix_dict w'))) (seq 0 3) /\
     length zf = 3%nat).
Proof.
  destruct (@merge_restores_caller_order bench two_modules) as (A & B & C).
  split; [|split].
  - apply (A three_tones three_powers two_modules_nco eq_refl).
  - destruct (@CRS.sweep bench two_sweeps two_powers 2 two_modules)
      as [[[f z]|e] w'] eqn:E; [|vm_compute in E; discriminate].
    exists f, z, w'. split; [reflexivity|].
    destruct (B two_sweeps two_powers 2%nat f z w' eq_refl E) as (_ & P & Lf & Lz & _).
    split; [exact P|]. split; [exact Lf|exact Lz].
  - destruct (@CRS.capture_noise bench three_tones three_powers 1 6 "parser" "enp2s0"
                false false true two_modules)
      as [[[zf raw]|e] w'] eqn:E; [|vm_compute in E; discriminate].
    exists zf, raw, w'. split; [reflexivity|].
    destruct (C three_tones three_powers 1 6%Z "parser"%string "enp2s0"%string
                false false true zf raw w' eq_refl E) as (_ & P & Lf & _).
    split; [exact P|exact Lf].
Defined.

(** Streams of two channels, of 1000 and of 998 samples. *)
Definition uneven_streams : @CRS.streams bench :=
  ([repeat (1, 0) 1000; repeat (2, 0) 998],
   [repeat (1, 0) 1000; repeat (2, 0) 998],
   [Some (1, 0); Some (1, 0)]).

(** C7 on the bench: streams of 1000 and 998 samples are cut to 998, and
    the capture of the three tones returns rows of one length. *)
Lemma noise_streams_cut_to_shortest_witness :
  @CRS.cut_streams bench uneven_streams two_modules =
    (Ok (map (firstn 998) (z_of uneven_streams),
         map (firstn 998) (zraw_of uneven_streams), zcal_of uneven_streams),
     two_modules) /\
  (exists zf raw w' n,
     @CRS.capture_noise bench three_tones three_powers 1 6 "parser" "enp2s0"
        false false true two_modules = (Ok (zf, raw), w') /\
     length zf = 3%nat /\ forall row, In row zf -> length row = n).
Proof.
  destruct (@noise_streams_cut_to_shortest bench) as (_ & B & C).
  split.
  - apply B.
    + intros row [<-|[<-|[]]]; [left|right]; vm_compute; reflexivity.
    + exists (repeat (2, 0) 998). split; [right; now left|vm_compute; reflexivity].
  - destruct (@CRS.capture_noise bench three_tones three_powers 1 6 "parser" "enp2s0"
                false false true two_modules)
      as [[[zf raw]|e] w'] eqn:E; [|vm_compute in E; discriminate].
    destruct (C three_tones three_powers 1 6%Z "parser"%string "enp2s0"%string
                false false true zf raw two_modules w' eq_refl E)
      as (nz & s & n & _ & _ & _ & Lf & Lr & _).
    exists zf, raw, w', n. split; [reflexivity|]. split; [exact Lf|exact Lr].
Defined.

(** A session in which the output directory of the parser is left over. *)
Definition stale_session : world :=
  mkWorld [(1%Z, 500e6); (2%Z, 1200e6)] [] [] [] [] 0 5 [] [] 0 0 [tmp_dir; parser_data_dir].

(** C8 on the bench: with the directory left over the capture raises and
    the trace stays empty; without it the capture of the three tones starts
    the parser, sleeps 21 times, sets the decimation to 6 and then reads. *)
Lemma capture_noise_precapture_and_decimation_witness :
  (fst (@CRS.capture_noise bench three_tones three_powers 1 5 "parser" "enp2s0"
          false false true stale_session) = Raise stale_error /\
   trace (snd (@CRS.capture_noise bench three_tones three_powers 1 5 "parser" "enp2s0"
                 false false true stale_session)) = [] /\
   fir_stage (snd (@CRS.capture_noise bench three_tones three_powers 1 5 "parser" "enp2s0"
                     false false true stale_session)) = 5%Z) /\
  (exists pre n post,
     trace (snd (@CRS.capture_noise bench three_tones three_powers 1 5 "parser" "enp2s0"
                   false false true two_modules)) =
       [] ++ set_fir_stage 5 :: pre ++
       Popen "parser" "enp2s0" 27 n ::
       repeat (sleep 1) 21 ++ set_fir_stage 6 :: post /\
     Forall no_launch pre /\ Forall is_read post /\
     fir_stage (snd (@CRS.capture_noise bench three_tones three_powers 1 5 "parser" "enp2s0"
                       false false true two_modules)) = 6%Z).
Proof.
  split.
  - apply (proj1 (@capture_noise_precapture_and_decimation bench three_tones three_powers
                    1 5%Z "parser"%string "enp2s0"%string false false true stale_session)).
    reflexivity.
  - pose proof (proj2 (proj2 (@capture_noise_precapture_and_decimation bench three_tones
                  three_powers 1 5%Z "parser"%string "enp2s0"%string false false true
                  two_modules))) as Q.
    cbv zeta in Q.
    destruct (@CRS.capture_noise bench three_tones three_powers 1 5 "parser" "enp2s0"
                false false true two_modules)
      as [[res|e] w'] eqn:E; [|vm_compute in E; discriminate].
    exact (Q res eq_refl).
Defined.

(** The decimation in force before a capture is not put back.  On the
    bench the decimation is 5 before the call.  A capture at stage 4 that
    returns leaves 6; a capture at stage 4 whose tone is refused by the
    check of the bandwidth raises after [set_fir_stage(4)] and leaves 4. *)
Lemma capture_noise_does_not_put_back_the_decimation :
  let r := @CRS.capture_noise bench three_tones three_powers 1 4 "parser" "enp2s0"
             false false false two_modules in
  let r' := @CRS.capture_noise bench [900e6] [-10] 1 4 "parser" "enp2s0"
              false false false one_module in
  fir_stage two_modules = 5%Z /\ stale two_modules = false /\
  (exists res, fst r = Ok res) /\ fir_stage (snd r) = 6%Z /\
  fir_stage one_module = 5%Z /\ stale one_module = false /\
  fst r' = Raise CRS.fres_out_of_band /\
  trace (snd r') = [set_fir_stage 4] /\ fir_stage (snd r') = 4%Z.
Proof.
  split; [reflexivity|]. split; [reflexivity|]. split.
  { destruct (@CRS.capture_noise bench three_tones three_powers 1 4 "parser" "enp2s0"
                false false false two_modules) as [[res|e] w'] eqn:E;
      [eexists; reflexivity|vm_compute in E; discriminate]. }
  split; [vm_compute; reflexivity|]. split; [reflexivity|]. split; [reflexivity|].
  split; [vm_compute; reflexivity|]. split; vm_compute; reflexivity.
Qed.


(** * Further properties *)

(** ** The configuration: [configure_system] and [set_nco] *)

Lemma setup_bind_Ok {A B} (m : Setup.S A) (k : A -> Setup.S B) (r r' : Setup.rig) (a : A) :
  m r = (Ok a, r') -> Setup.bind m k r = k a r'.
Proof. intro E. unfold Setup.bind. now rewrite E. Qed.

Lemma setup_for_each_app {A} (l1 l2 : list A) (body : A -> Setup.S unit) (r r1 : Setup.rig) :
  Setup.for_each l1 body r = (Ok tt, r1) ->
  Setup.for_each (l1 ++ l2) body r = Setup.for_each l2 body r1.
Proof.
  revert r. induction l1 as [|x l1 IH]; intros r E; simpl in *.
  - unfold Setup.ret in E. now injection E as <-.
  - unfold Setup.bind in *. destruct (body x r) as [[[]|e] r0]; [|discriminate].
    now apply IH.
Qed.

(** The hardware module that stands for module [m] of the table. *)
Definition bank_module (high : bool) (m : Z) : Z :=
  if high then (m + 4)%Z else m.

Lemma bank_offset (high : bool) (m : Z) :
  (m + (if high then 4 else 0))%Z = bank_module high m.
Proof. destruct high; simpl; lia. Qed.

Lemma bank_module_inj (high : bool) (m k : Z) :
  bank_module high m = bank_module high k -> m = k.
Proof. destruct high; simpl; lia. Qed.

(** The NCO registers after the macro has run on the modules [ms]. *)
Definition tuned (tune : Q -> Q) (high : bool) (d : dict Q) (ms : list Z) (regs : dict Q)
    : dict Q :=
  fold_left (fun regs m => dict_set regs (bank_module high m) (tune (CRS.nco_of d m))) ms regs.

Lemma set_nco_modules_run (tune : Q -> Q) (high : bool) (d : dict Q) (ms : list Z)
    (r : Setup.rig) :
  (forall m, In m ms -> In m (dict_keys d)) ->
  Setup.for_each ms (fun m => Setup.set_nco_module tune m d high) r =
  (Ok tt,
   Setup.with_nco_frequency
     (Setup.with_commands r
        (Setup.commands r ++
         map (fun m => Setup.set_nco_frequency (CRS.nco_of d m) (bank_module high m)) ms))
     (tuned tune high d ms (Setup.nco_frequency r))).
Proof.
  revert r. induction ms as [|m ms IH]; intros r Hk.
  - simpl. unfold Setup.ret. destruct r; cbn. now rewrite app_nil_r.
  - assert (Hm : In m (dict_keys d)) by (apply Hk; now left).
    apply dict_get_keys in Hm. destruct Hm as [f Ef].
    simpl Setup.for_each.
    assert (E1 : Setup.set_nco_module tune m d high r =
                 (Ok tt, Setup.with_nco_frequency
                           (Setup.with_commands r
                              (Setup.commands r ++
                               [Setup.set_nco_frequency f (bank_module high m)]))
                           (dict_set (Setup.nco_frequency r) (bank_module high m) (tune f)))).
    { unfold Setup.set_nco_module. rewrite Ef. reflexivity. }
    rewrite (setup_bind_Ok _ _ _ _ _ E1). rewrite IH by (intros; apply Hk; now right).
    destruct r; cbn. unfold CRS.nco_of. rewrite Ef. now rewrite <- app_assoc.
Qed.

(** The table after the NCO of the keys of [d] has been read back from
    the registers [regs]. *)
Definition read_table (high : bool) (regs : dict Q) (d : dict Q) (table : dict Q) : dict Q :=
  fold_left (fun t kv => dict_set t (fst kv)
                           (Setup.register regs (bank_module high (fst kv)))) d table.

Lemma read_back_run (high : bool) (d : dict Q) (r : Setup.rig) :
  Setup.analog_bank_high r = Some high ->
  Setup.for_each d Setup.read_back r =
  (Ok tt,
   Setup.with_nco_freq_dict
     (Setup.with_commands r
        (Setup.commands r ++
         map (fun kv => Setup.get_nco_frequency (bank_module high (fst kv))) d))
     (read_table high (Setup.nco_frequency r) d (Setup.nco_freq_dict r))).
Proof.
  revert r. induction d as [|[k v] d IH]; intros r Hh.
  - simpl. unfold Setup.ret. destruct r; cbn. now rewrite app_nil_r.
  - simpl Setup.for_each.
    assert (E1 : Setup.read_back (k, v) r =
                 (Ok tt, Setup.with_nco_freq_dict
                           (Setup.with_commands r
                              (Setup.commands r ++
                               [Setup.get_nco_frequency (bank_module high k)]))
                           (dict_set (Setup.nco_freq_dict r) k
                              (Setup.register (Setup.nco_frequency r) (bank_module high k))))).
    { unfold Setup.read_back. cbn. rewrite Hh. cbn. rewrite bank_offset. reflexivity. }
    rewrite (setup_bind_Ok _ _ _ _ _ E1). rewrite IH by (destruct r; exact Hh).
    destruct r; cbn. now rewrite <- app_assoc.
Qed.

Lemma read_table_get (high : bool) (regs d table : dict Q) (k : Z) :
  dict_get (read_table high regs d table) k =
  if existsb (Z.eqb k) (dict_keys d)
  then Some (Setup.register regs (bank_module high k))
  else dict_get table k.
Proof.
  revert table. induction d as [|[k' v] d IH]; intro table; simpl; [reflexivity|].
  unfold read_table in *. simpl. rewrite IH. rewrite dict_get_set.
  destruct (existsb (Z.eqb k) (dict_keys d)) eqn:E.
  - now rewrite orb_true_r.
  - rewrite orb_false_r. rewrite (Z.eqb_sym k k').
    destruct (Z.eqb k' k) eqn:Ek; [|reflexivity].
    apply Z.eqb_eq in Ek. now subst.
Qed.

Lemma read_table_keys (high : bool) (regs d table : dict Q) (k : Z) :
  In k (dict_keys (read_table high regs d table)) <->
  In k (dict_keys d) \/ In k (dict_keys table).
Proof.
  rewrite !dict_get_keys. rewrite read_table_get.
  destruct (existsb (Z.eqb k) (dict_keys d)) eqn:E.
  - apply existsb_eqb_In in E. split; [intros _; left; now apply dict_get_keys|eauto].
  - split; [intros [v Ev]; right; eauto|].
    intros [[v Ev]|Hv]; [|exact Hv].
    assert (In k (dict_keys d)) by (apply dict_get_keys; eauto).
    apply existsb_eqb_In in H. congruence.
Qed.

Lemma read_table_NoDup (high : bool) (regs d table : dict Q) :
  NoDup (dict_keys table) -> NoDup (dict_keys (read_table high regs d table)).
Proof.
  revert table. induction d as [|[k v] d IH]; intros table N; [exact N|].
  unfold read_table in *. simpl. apply IH. now apply dict_set_NoDup.
Qed.

Lemma tuned_get (tune : Q -> Q) (high : bool) (d : dict Q) (ms : list Z) (regs : dict Q)
    (x : Z) :
  dict_get (tuned tune high d ms regs) x =
  match find (fun m => Z.eqb (bank_module high m) x) (rev ms) with
  | Some m => Some (tune (CRS.nco_of d m))
  | None => dict_get regs x
  end.
Proof.
  induction ms as [|m ms IH] using rev_ind; [reflexivity|].
  unfold tuned in *. rewrite fold_left_app, rev_app_distr. simpl.
  rewrite dict_get_set. destruct (Z.eqb (bank_module high m) x); [reflexivity|exact IH].
Qed.

Lemma tuned_register (tune : Q -> Q) (high : bool) (d : dict Q) (ms : list Z) (regs : dict Q)
    (k : Z) :
  In k ms ->
  Setup.register (tuned tune high d ms regs) (bank_module high k) = tune (CRS.nco_of d k).
Proof.
  intro Hk. unfold Setup.register. rewrite tuned_get.
  destruct (find _ (rev ms)) as [m|] eqn:E.
  - apply find_some in E. destruct E as [_ E].
    apply Z.eqb_eq, bank_module_inj in E. now subst.
  - apply find_none with (x := k) in E; [|now apply in_rev in Hk].
    now rewrite Z.eqb_refl in E.
Qed.

Lemma modules_in_spec (keys : list Z) (m : Z) :
  In m (modules_in keys) <-> In m device_modules /\ In m keys.
Proof.
  unfold modules_in. rewrite filter_In. now rewrite existsb_eqb_In.
Qed.

Lemma outside_device_false (keys : list Z) :
  Setup.outside_device keys = false <-> Forall (fun m => In m device_modules) keys.
Proof.
  unfold Setup.outside_device. rewrite Forall_forall. split.
  - intros E m Hm. destruct (existsb (Z.eqb m) [1; 2; 3; 4]%Z) eqn:Em.
    + now apply existsb_eqb_In in Em.
    + exfalso. assert (X : existsb (fun m0 => negb (existsb (Z.eqb m0) [1; 2; 3; 4]%Z)) keys = true).
      { apply existsb_exists. exists m. split; [exact Hm|]. now rewrite Em. }
      congruence.
  - intro F. destruct (existsb _ keys) eqn:E; [|reflexivity].
    apply existsb_exists in E. destruct E as (m & Hm & E).
    apply F in Hm. apply existsb_eqb_In in Hm. unfold device_modules in Hm.
    now rewrite Hm in E.
Qed.

Lemma outside_device_true (keys : list Z) :
  Setup.outside_device keys = true <-> Exists (fun m => ~ In m device_modules) keys.
Proof.
  rewrite Exists_exists. unfold Setup.outside_device. rewrite existsb_exists.
  split; intros (m & Hm & E); exists m; (split; [exact Hm|]).
  - intro Hd. apply existsb_eqb_In in Hd. unfold device_modules in Hd. now rewrite Hd in E.
  - destruct (existsb (Z.eqb m) [1; 2; 3; 4]%Z) eqn:Em; [|reflexivity].
    apply existsb_eqb_In in Em. contradiction.
Qed.

Definition nyquist_limit : Q := 2175000000.

Lemma nyquist_limit_eq : 2.5e9 - 325e6 == nyquist_limit.
Proof. reflexivity. Qed.

Lemma above_nyquist_false (ncos : list Q) :
  Setup.above_nyquist ncos = false <-> Forall (fun nco => nco <= nyquist_limit) ncos.
Proof.
  unfold Setup.above_nyquist. rewrite Forall_forall. split.
  - intros E f Hf. destruct (Qltb (2.5e9 - 325e6) f) eqn:Ef.
    + exfalso. assert (X : existsb (fun nco => Qltb (2.5e9 - 325e6) nco) ncos = true).
      { apply existsb_exists. eauto. }
      congruence.
    + apply Qltb_ge in Ef. now rewrite nyquist_limit_eq in Ef.
  - intro F. destruct (existsb _ ncos) eqn:E; [|reflexivity].
    apply existsb_exists in E. destruct E as (f & Hf & E).
    apply F in Hf. apply Qltb_lt in E. rewrite nyquist_limit_eq in E.
    exfalso. exact (Qlt_not_le _ _ E Hf).
Qed.

Lemma above_nyquist_true (ncos : list Q) :
  Setup.above_nyquist ncos = true <-> Exists (fun nco => nyquist_limit < nco) ncos.
Proof.
  rewrite Exists_exists. unfold Setup.above_nyquist. rewrite existsb_exists.
  split; intros (f & Hf & E); exists f; (split; [exact Hf|]).
  - apply Qltb_lt in E. now rewrite nyquist_limit_eq in E.
  - apply Qltb_lt. now rewrite nyquist_limit_eq.
Qed.

(** [set_nco] checks its argument before it touches the device: a key
    outside 1..4 raises the [ValueError] of the modules, and otherwise an
    NCO above 2.175 GHz raises the [ValueError] of the Nyquist limit; 2.175
    GHz itself is accepted.  A valid argument given before
    [configure_system] has assigned [analog_bank_high] raises
    [AttributeError].  In the three cases no command has been sent and no
    attribute has changed. *)
Theorem set_nco_rejects_before_any_command (tune : Q -> Q) (nco_freq_dict : dict Q)
    (verbose : bool) (r : Setup.rig) :
  (Exists (fun m => ~ In m device_modules) (dict_keys nco_freq_dict) ->
   Setup.set_nco tune nco_freq_dict verbose r = (Raise Setup.bad_module, r)) /\
  (Forall (fun m => In m device_modules) (dict_keys nco_freq_dict) ->
   Exists (fun nco => nyquist_limit < nco) (map snd nco_freq_dict) ->
   Setup.set_nco tune nco_freq_dict verbose r = (Raise Setup.bad_nco, r)) /\
  (Forall (fun m => In m device_modules) (dict_keys nco_freq_dict) ->
   Forall (fun nco => nco <= nyquist_limit) (map snd nco_freq_dict) ->
   Setup.analog_bank_high r = None ->
   Setup.set_nco tune nco_freq_dict verbose r = (Raise Setup.not_configured, r)).
Proof.
  split; [|split].
  - intro E. apply outside_device_true in E. unfold Setup.set_nco. now rewrite E.
  - intros F E. apply outside_device_false in F. apply above_nyquist_true in E.
    unfold Setup.set_nco. now rewrite F, E.
  - intros F G Hn. apply outside_device_false in F. apply above_nyquist_false in G.
    unfold Setup.set_nco. rewrite F, G. cbn. now rewrite Hn.
Qed.

Lemma set_nco_run (tune : Q -> Q) (d : dict Q) (verbose high : bool) (r : Setup.rig) :
  Forall (fun m => In m device_modules) (dict_keys d) ->
  Forall (fun nco => nco <= nyquist_limit) (map snd d) ->
  Setup.analog_bank_high r = Some high ->
  Setup.set_nco tune d verbose r =
  (Ok tt,
   Setup.mkRig
     (read_table high (tuned tune high d (modules_in (dict_keys d)) (Setup.nco_frequency r))
                 d (Setup.nco_freq_dict r))
     (Some high) (Setup.full_scale_dbm r) (Setup.timestamp_port r)
     (tuned tune high d (modules_in (dict_keys d)) (Setup.nco_frequency r))
     (Setup.commands r ++
      map (fun m => Setup.set_nco_frequency (CRS.nco_of d m) (bank_module high m))
          (modules_in (dict_keys d)) ++
      map (fun kv => Setup.get_nco_frequency (bank_module high (fst kv))) d)).
Proof.
  intros F G Hh. apply outside_device_false in F. apply above_nyquist_false in G.
  unfold Setup.set_nco. rewrite F, G. cbn. rewrite Hh. cbn.
  rewrite (setup_bind_Ok _ _ _ _ _
             (set_nco_modules_run tune high d (modules_in (dict_keys d)) r
                (fun m Hm => proj2 (proj1 (modules_in_spec _ _) Hm)))).
  rewrite (read_back_run high) by (destruct r; exact Hh).
  destruct r; cbn in *. subst. now rewrite <- app_assoc.
Qed.

(** A valid call of [set_nco] after [configure_system] returns.  Every
    module of the argument is sent its frequency once, on the hardware
    module of the selected bank ([key + 4] for the high bank), and is then
    read back on the same hardware module; [self.nco_freq_dict] holds for
    every key of the argument what the device tuned to, and keeps the
    entries of the keys that are not in the argument. *)
Theorem set_nco_reads_back_what_it_set (tune : Q -> Q) (nco_freq_dict : dict Q)
    (verbose high : bool) (r : Setup.rig) :
  Forall (fun m => In m device_modules) (dict_keys nco_freq_dict) ->
  Forall (fun nco => nco <= nyquist_limit) (map snd nco_freq_dict) ->
  Setup.analog_bank_high r = Some high ->
  let r' := snd (Setup.set_nco tune nco_freq_dict verbose r) in
  fst (Setup.set_nco tune nco_freq_dict verbose r) = Ok tt /\
  (forall k f, dict_get nco_freq_dict k = Some f ->
               dict_get (Setup.nco_freq_dict r') k = Some (tune f) /\
               Setup.register (Setup.nco_frequency r') (bank_module high k) = tune f) /\
  (forall k, dict_get nco_freq_dict k = None ->
             dict_get (Setup.nco_freq_dict r') k = dict_get (Setup.nco_freq_dict r) k) /\
  Setup.commands r' =
    Setup.commands r ++
    map (fun m => Setup.set_nco_frequency (CRS.nco_of nco_freq_dict m) (bank_module high m))
        (modules_in (dict_keys nco_freq_dict)) ++
    map (fun kv => Setup.get_nco_frequency (bank_module high (fst kv))) nco_freq_dict.
Proof.
  intros F G Hh r'. subst r'. rewrite (set_nco_run tune _ verbose high r F G Hh). cbn.
  split; [reflexivity|]. split; [|split; [|reflexivity]].
  - intros k f Ek.
    assert (Hk : In k (dict_keys nco_freq_dict)) by (apply dict_get_keys; eauto).
    assert (Hm : In k (modules_in (dict_keys nco_freq_dict))).
    { apply modules_in_spec. split; [|exact Hk].
      rewrite Forall_forall in F. now apply F. }
    assert (Er : Setup.register
                   (tuned tune high nco_freq_dict (modules_in (dict_keys nco_freq_dict))
                      (Setup.nco_frequency r)) (bank_module high k) = tune f).
    { rewrite tuned_register by exact Hm. unfold CRS.nco_of. now rewrite Ek. }
    split; [|exact Er].
    rewrite read_table_get. apply existsb_eqb_In in Hk. rewrite Hk. f_equal. exact Er.
  - intros k Ek. rewrite read_table_get.
    destruct (existsb (Z.eqb k) (dict_keys nco_freq_dict)) eqn:E; [|reflexivity].
    apply existsb_eqb_In, dict_get_keys in E. destruct E as [v Ev]. congruence.
Qed.

(** The table of NCO frequencies is a dictionary whose keys are modules of
    the device. *)
Definition table_on_device (r : Setup.rig) : Prop :=
  NoDup (dict_keys (Setup.nco_freq_dict r)) /\
  Forall (fun m => In m device_modules) (dict_keys (Setup.nco_freq_dict r)).

Lemma modules_in_NoDup (keys : list Z) : NoDup (modules_in keys).
Proof.
  unfold modules_in. apply NoDup_filter. unfold device_modules.
  repeat constructor; simpl; intuition lia.
Qed.

Lemma modules_in_all (keys : list Z) :
  NoDup keys -> Forall (fun m => In m device_modules) keys ->
  Permutation (modules_in keys) keys.
Proof.
  intros N F. apply NoDup_Permutation; [apply modules_in_NoDup|exact N|].
  intro m. rewrite modules_in_spec. rewrite Forall_forall in F. intuition.
Qed.

(** The keys of [self.nco_freq_dict] stay modules of the device: the table
    is empty after [__init__], and a call of [set_nco], whether it returns
    or raises, leaves a table with distinct keys among 1..4.  For such a
    table the filter of the device modules by the keys, on which the
    acquisition macros are run, lists every key of the table once. *)
Theorem set_nco_keeps_table_on_device (tune : Q -> Q) (nco_freq_dict : dict Q)
    (verbose : bool) (r : Setup.rig) :
  (forall port, table_on_device (Setup.init port)) /\
  (table_on_device r ->
   let r' := snd (Setup.set_nco tune nco_freq_dict verbose r) in
   table_on_device r' /\
   Permutation (modules_in (dict_keys (Setup.nco_freq_dict r')))
               (dict_keys (Setup.nco_freq_dict r'))).
Proof.
  split.
  - intro port. split; [constructor|constructor].
  - intros [N F] r'.
    assert (T : table_on_device r').
    { subst r'. destruct (Setup.outside_device (dict_keys nco_freq_dict)) eqn:Eo.
      { unfold Setup.set_nco. rewrite Eo. now split. }
      destruct (Setup.above_nyquist (map snd nco_freq_dict)) eqn:Ea.
      { unfold Setup.set_nco. rewrite Eo, Ea. now split. }
      destruct (Setup.analog_bank_high r) as [high|] eqn:Eh.
      - apply outside_device_false in Eo. apply above_nyquist_false in Ea.
        rewrite (set_nco_run tune _ verbose high r Eo Ea Eh). cbn. split.
        + now apply read_table_NoDup.
        + rewrite Forall_forall in *. intros m Hm.
          apply read_table_keys in Hm. destruct Hm as [Hm|Hm]; auto.
      - unfold Setup.set_nco. rewrite Eo, Ea. cbn. rewrite Eh. now split. }
    split; [exact T|]. destruct T as [N' F']. now apply modules_in_all.
Qed.

(** The commands that [configure_system] sends. *)
Definition configure_commands (port clock_source : string) (full_scale_dbm : Q)
    (analog_bank_high verbose : bool) : list Setup.command :=
  [Setup.resolve; Setup.get_timestamp_port] ++
  (if String.eqb port "TEST" then [] else [Setup.set_timestamp_port "TEST"]) ++
  [Setup.set_clock_source clock_source; Setup.set_analog_bank analog_bank_high] ++
  flat_map (fun m => [Setup.set_dmfd_routing ADC m;
                      Setup.set_dac_scale full_scale_dbm (bank_module analog_bank_high m)])
           device_modules ++
  [Setup.sleep 1] ++ (if verbose then [Setup.get_clock_source] else []).

Lemma configure_system_run (clock_source : string) (full_scale_dbm : Q)
    (analog_bank_high verbose : bool) (r : Setup.rig) :
  Setup.configure_system clock_source full_scale_dbm analog_bank_high verbose r =
  (Ok tt,
   Setup.mkRig (Setup.nco_freq_dict r) (Some analog_bank_high) (Some full_scale_dbm)
     "TEST" (Setup.nco_frequency r)
     (Setup.commands r ++
      configure_commands (Setup.timestamp_port r) clock_source full_scale_dbm
        analog_bank_high verbose)).
Proof.
  destruct r as [t a f p n c]. unfold configure_commands.
  cbv -[app String.eqb]. 
  destruct (String.eqb p "TEST") eqn:Ep;
    [apply String.eqb_eq in Ep; subst p|];
    destruct analog_bank_high, verbose; cbn; rewrite <- ?app_assoc; reflexivity.
Qed.

(** [configure_system] always returns.  It records the bank and the full
    scale and leaves the timestamp port at TEST; it sets the port only when
    it was not TEST before, so a second call never sets it.  The DAC scale
    is set on the four hardware modules of the selected bank, 5..8 for the
    high bank, while the routing to the ADC is set on modules 1..4 for
    either bank.  The table of NCO frequencies is not touched. *)
Theorem configure_system_selects_the_bank (clock_source : string) (full_scale_dbm : Q)
    (analog_bank_high verbose : bool) (r : Setup.rig) :
  let run := Setup.configure_system clock_source full_scale_dbm analog_bank_high verbose r in
  exists new,
    fst run = Ok tt /\
    Setup.commands (snd run) = Setup.commands r ++ new /\
    Setup.analog_bank_high (snd run) = Some analog_bank_high /\
    Setup.full_scale_dbm (snd run) = Some full_scale_dbm /\
    Setup.timestamp_port (snd run) = "TEST"%string /\
    Setup.nco_freq_dict (snd run) = Setup.nco_freq_dict r /\
    Setup.nco_frequency (snd run) = Setup.nco_frequency r /\
    (forall p, In (Setup.set_timestamp_port p) new <->
               p = "TEST"%string /\ Setup.timestamp_port r <> "TEST"%string) /\
    (forall dbm m, In (Setup.set_dac_scale dbm m) new <->
                   dbm = full_scale_dbm /\
                   In m (map (bank_module analog_bank_high) device_modules)) /\
    (forall x m, In (Setup.set_dmfd_routing x m) new <-> x = ADC /\ In m device_modules) /\
    (forall f m, ~ In (Setup.set_nco_frequency f m) new).
Proof.
  intro run. subst run. rewrite configure_system_run. cbn [fst snd].
  exists (configure_commands (Setup.timestamp_port r) clock_source full_scale_dbm
            analog_bank_high verbose).
  repeat (split; [reflexivity|]).
  unfold configure_commands.
  destruct (String.eqb (Setup.timestamp_port r) "TEST") eqn:Ep.
  - apply String.eqb_eq in Ep.
    split; [|split; [|split]].
    + intro p. split.
      * destruct verbose; cbn; intuition discriminate.
      * intros [_ Hp]. contradiction.
    + intros dbm m. destruct verbose, analog_bank_high; cbn; split; intro Hx;
        intuition (try discriminate; try congruence);
        repeat match goal with
               | E : Setup.set_dac_scale _ _ = Setup.set_dac_scale _ _ |- _ =>
                   injection E as <- <-
               end; subst; auto 20.
    + intros x m. destruct verbose, analog_bank_high; cbn; split; intro Hx;
        intuition (try discriminate; try congruence);
        repeat match goal with
               | E : Setup.set_dmfd_routing _ _ = Setup.set_dmfd_routing _ _ |- _ =>
                   injection E as <- <-
               end; subst; auto 20.
    + intros f m. destruct verbose; cbn; intuition discriminate.
  - apply String.eqb_neq in Ep.
    split; [|split; [|split]].
    + intro p. split.
      * destruct verbose; cbn; intro Hx;
          intuition (try discriminate); injection H as <-; auto.
      * intros [-> _]. destruct verbose; cbn; auto 10.
    + intros dbm m. destruct verbose, analog_bank_high; cbn; split; intro Hx;
        intuition (try discriminate; try congruence);
        repeat match goal with
               | E : Setup.set_dac_scale _ _ = Setup.set_dac_scale _ _ |- _ =>
                   injection E as <- <-
               end; subst; auto 20.
    + intros x m. destruct verbose, analog_bank_high; cbn; split; intro Hx;
        intuition (try discriminate; try congruence);
        repeat match goal with
               | E : Setup.set_dmfd_routing _ _ = Setup.set_dmfd_routing _ _ |- _ =>
                   injection E as <- <-
               end; subst; auto 20.
    + intros f m. destruct verbose; cbn; intuition discriminate.
Qed.

(** ** Calls that cannot proceed *)
Section EdgeCases.
Context `{Instrument}.

Lemma capture_fast_noise_run (frequency amplitude time : Q) (verbose : bool) (w : world) :
  CRS.capture_fast_noise frequency amplitude time verbose w =
  (Raise match nearest (nco_freq_dict w) frequency with
         | None => CRS.empty_sequence
         | Some m =>
             match dict_get (nco_freq_dict w) m with
             | None => KeyError
             | Some nco =>
                 if Qltb 300e6 (fl (frequency - nco)) then CRS.too_far
                 else CRS.no_sz_noise_dict
             end
         end, w).
Proof.
  unfold CRS.capture_fast_noise, nearest.
  cbv beta iota delta [bind get item ret raise].
  destruct (py_min_key _ _) as [m|]; [|reflexivity].
  destruct (dict_get (nco_freq_dict w) m) as [n|]; [|reflexivity].
  destruct (Qltb 300e6 (fl (frequency - n))); reflexivity.
Qed.

(** [capture_fast_noise] never returns and never touches the device.  With
    an empty table of NCO frequencies [min] raises [ValueError]; when the
    tone is more than 300e6 + 2^-25 Hz above the NCO of its module, which
    is when the double-precision difference exceeds 300e6, the check
    raises [ValueError]; in every other case, also for a tone more than
    300 MHz below that NCO, the method raises [AttributeError] at its
    first call on the device.  The state is the one before the call. *)
Theorem capture_fast_noise_always_raises (frequency amplitude time : Q) (verbose : bool)
    (w : world) :
  let r := CRS.capture_fast_noise frequency amplitude time verbose w in
  snd r = w /\
  (exists e, fst r = Raise e) /\
  (nco_freq_dict w = [] -> fst r = Raise CRS.empty_sequence) /\
  (forall m nco,
     nearest (nco_freq_dict w) frequency = Some m ->
     dict_get (nco_freq_dict w) m = Some nco ->
     (300e6 + 2 ^ (-25) < frequency - nco -> fst r = Raise CRS.too_far) /\
     (frequency - nco <= 300e6 + 2 ^ (-25) -> fst r = Raise CRS.no_sz_noise_dict)).
Proof.
  intro r. subst r. rewrite capture_fast_noise_run. cbn [fst snd].
  split; [reflexivity|]. split; [eexists; reflexivity|]. split.
  - intro E. unfold nearest. now rewrite E.
  - intros m nco Em En. rewrite Em, En.
    destruct (Qltb 300e6 (fl (frequency - nco))) eqn:Ef.
    + apply Qltb_lt in Ef. apply fl_300 in Ef. split; [reflexivity|].
      intro L. exfalso. exact (Qlt_not_le _ _ Ef L).
    + split; [|reflexivity].
      intro L. apply fl_300 in L. apply Qltb_lt in L. congruence.
Qed.

Lemma path_eqb_eq (p q : path) : path_eqb p q = true -> p = q.
Proof.
  destruct p, q; simpl; intro E; try discriminate; try reflexivity.
  apply Z.eqb_eq in E. now subst.
Qed.

Lemma precapture_files (stage : Z) (w : world) :
  In tmp_dir (files (snd (CRS.precapture stage w))).
Proof.
  assert (G : forall w1 : world,
            In tmp_dir
              (files (if existsb (path_eqb tmp_dir) (files w1) then w1
                      else with_files w1 (files w1 ++ [tmp_dir])))).
  { intro w1. destruct (existsb (path_eqb tmp_dir) (files w1)) eqn:Et.
    - apply existsb_exists in Et. destruct Et as (p & Hp & Ep).
      apply path_eqb_eq in Ep. now subst.
    - cbn. apply in_or_app. right. now left. }
  unfold CRS.precapture.
  cbv beta iota delta [bind get ret raise warn modify makedirs path_exists].
  destruct (Z.leb stage 4); cbv beta iota;
    match goal with
    | |- In _ (files (snd ((if ?b then _ else _) _))) => destruct b; apply G
    end.
Qed.

Definition not_set : exn := PyException "NCO frequencies are not set".

Definition nothing_to_concatenate : exn :=
  ValueError "need at least one array to concatenate".

Lemma zip3_firstn {A B} (a : list A) (b : list B) (s : nat) :
  zip3 (seq s (length a)) a b =
  zip3 (seq s (length (firstn (Nat.min (length a) (length b)) a)))
       (firstn (Nat.min (length a) (length b)) a)
       (firstn (Nat.min (length a) (length b)) b).
Proof.
  revert b s. induction a as [|x a IH]; intros b s; [reflexivity|].
  destruct b as [|y b]; [reflexivity|]. simpl. f_equal. apply IH.
Qed.

(** [write_tones] pairs the frequencies with the amplitudes by [zip]: when
    the two arrays differ in length the entries past the shorter one are
    dropped without an error.  The call does what the call on the first
    [min(len(fres), len(ares))] entries of both does, and the channel
    indices it records are the ones below that number. *)
Theorem write_tones_drops_unpaired_entries (fres ares : list Q) (w : world) :
  let n := Nat.min (length fres) (length ares) in
  CRS.write_tones fres ares w = CRS.write_tones (firstn n fres) (firstn n ares) w /\
  (nco_freq_dict w <> [] ->
   Permutation (concat (map snd (ch_ix_dict (snd (CRS.write_tones fres ares w)))))
               (seq 0 n)).
Proof.
  intro n. split.
  - unfold CRS.write_tones, CRS.split_tones. subst n.
    now rewrite (zip3_firstn fres ares 0).
  - intro N. destruct (write_tones_same_split fres ares w N) as (_ & Ec & _).
    rewrite Ec. now destruct (tones_split_bijection w fres ares N).
Qed.

(** With an empty table of NCO frequencies, [write_tones], [sweep] and
    [sweep_linear] raise the exception "NCO frequencies are not set" and
    [sweep_full] raises the [ValueError] of [np.concatenate]; the state and
    the device are as before the call.  [capture_noise] raises the same
    exception as [write_tones], but only after it has created [tmp/] and
    has set the decimation of the capture, which stays on the device. *)
Theorem empty_table_raises (w : world) :
  nco_freq_dict w = [] ->
  (forall fres ares, CRS.write_tones fres ares w = (Raise not_set, w)) /\
  (forall frequencies ares nsamps,
     CRS.sweep frequencies ares nsamps w = (Raise not_set, w)) /\
  (forall fres ares bw npoints nsamps,
     CRS.sweep_linear fres ares bw npoints nsamps w = (Raise not_set, w)) /\
  (forall amplitude npoints nsamps,
     npoints <> 0%nat ->
     CRS.sweep_full amplitude npoints nsamps w = (Raise nothing_to_concatenate, w)) /\
  (forall fres ares noise_time stage parser_loc interface delete_parser_data verbose
          return_raw,
     stale w = false ->
     let r := CRS.capture_noise fres ares noise_time stage parser_loc interface
                delete_parser_data verbose return_raw w in
     fst r = Raise not_set /\
     trace (snd r) =
       trace w ++ set_fir_stage stage :: (if verbose then [get_fir_stage] else []) /\
     fir_stage (snd r) = stage /\
     In tmp_dir (files (snd r))).
Proof.
  intro E.
  assert (Ew : forall fres ares, CRS.write_tones fres ares w = (Raise not_set, w)).
  { intros. unfold CRS.write_tones, CRS.split_tones.
    cbv beta iota delta [bind get]. now rewrite E. }
  assert (Es : forall frequencies ares nsamps,
             CRS.sweep frequencies ares nsamps w = (Raise not_set, w)).
  { intros. unfold CRS.sweep, CRS.split_sweep.
    cbv beta iota delta [bind get]. now rewrite E. }
  split; [exact Ew|]. split; [exact Es|]. split; [|split].
  - intros. unfold CRS.sweep_linear. apply Es.
  - intros amplitude npoints nsamps Hn. unfold CRS.sweep_full.
    cbv beta iota delta [bind get]. rewrite E.
    destruct npoints; [contradiction|reflexivity].
  - intros fres ares noise_time stage parser_loc interface delete_parser_data verbose
           return_raw S r.
    destruct (precapture_run stage w) as (w0 & E0 & T0 & F0 & N0). rewrite S in E0.
    assert (Ef : In tmp_dir (files w0)).
    { pose proof (precapture_files stage w) as G. now rewrite E0 in G. }
    assert (Ep : CRS.prepare_capture fres ares stage verbose w0 =
                 (Raise not_set,
                  with_sample_frequency
                    (with_fir_stage
                       (with_trace w0
                          (trace w0 ++ set_fir_stage stage ::
                           (if verbose then [get_fir_stage] else []))) stage)
                    (625e6 / (256 * 64 * 2 ^ stage)))).
    { unfold CRS.prepare_capture, CRS.write_tones, CRS.split_tones.
      destruct w0 as [a b c dd e f g h i j k l]. cbn in N0. rewrite E in N0. subst a.
      destruct verbose; cbn; rewrite <- ?app_assoc; reflexivity. }
    assert (Er : r = (Raise not_set,
                      with_sample_frequency
                        (with_fir_stage
                           (with_trace w0
                              (trace w0 ++ set_fir_stage stage ::
                               (if verbose then [get_fir_stage] else []))) stage)
                        (625e6 / (256 * 64 * 2 ^ stage)))).
    { subst r. unfold CRS.capture_noise. unfold bind at 1. unfold get at 1. cbv beta iota.
      rewrite (bind_Ok _ _ _ _ _ E0). now rewrite (bind_Raise _ _ _ _ _ Ep). }
    rewrite Er. cbn [fst snd]. split; [reflexivity|].
    unfold with_sample_frequency, with_fir_stage, with_trace.
    cbn [trace fir_stage files]. rewrite T0. auto.
Qed.

End EdgeCases.

(** ** What [write_tones] sends and records *)
Section WriteFacts.
Context `{Instrument}.

(** A value of the generator of [np.random.uniform]. *)
Definition drawn (x : Q) : Prop := exists k, x = uniform k.

Lemma drawn_seq (p n : nat) : Forall drawn (map uniform (seq p n)).
Proof.
  apply Forall_forall. intros x Hx. apply in_map_iff in Hx.
  destruct Hx as (k & <- & _). now exists k.
Qed.


Lemma nth_error_combine {A B} (a : list A) (b : list B) (j : nat) (x : A) (y : B) :
  nth_error (combine a b) j = Some (x, y) <->
  nth_error a j = Some x /\ nth_error b j = Some y.
Proof.
  revert b j. induction a as [|x0 a IH]; intros b j.
  - destruct j; simpl; split; intro E; try discriminate; destruct E; discriminate.
  - destruct b as [|y0 b].
    + destruct j; simpl; split; intro E; try discriminate; destruct E; discriminate.
    + destruct j; simpl.
      * split; [intro E; injection E as <- <-; auto|intros [E1 E2]; congruence].
      * apply IH.
Qed.

Lemma randomize_nth (fres noise : list Q) (j : nat) (f : Q) :
  nth_error (ReadoutModule.randomize fres noise) j = Some f ->
  exists fr x, nth_error fres j = Some fr /\ nth_error noise j = Some x /\
               f = ReadoutModule.nudge (fr + x).
Proof.
  unfold ReadoutModule.randomize, map2. intro E.
  apply nth_error_map_inv in E. destruct E as (s & E & <-).
  apply nth_error_map_inv in E. destruct E as ([fr x] & E & <-).
  apply nth_error_combine in E. destruct E as [E1 E2]. exists fr, x. auto.
Qed.

(** The entry of a module in a dictionary of arrays. *)
Definition entries {V} (d : dict (list V)) (m : Z) : list V :=
  match dict_get d m with
  | Some l => l
  | None => []
  end.

(** The commands of the macro [write_tones] on one module. *)
Definition tone_commands (m : Z) (nco : Q) (fres ares : list Q) : list event :=
  [clear_channels m; tuber_context (ReadoutModule.tone_calls m nco fres ares)].

Lemma macro_write_tones_Ok m nco_d fres_d ares_d store (w w' : world) :
  ReadoutModule.write_tones m nco_d fres_d ares_d store w = (Ok tt, w') ->
  exists fres ares nco,
    dict_get fres_d m = Some fres /\ dict_get ares_d m = Some ares /\
    dict_get nco_d m = Some nco /\ ReadoutModule.over_full_scale ares = false /\
    let F := ReadoutModule.randomize fres (map uniform (seq (rng_pos w) (length fres))) in
    let w1 := perturbed store fres w in
    nco_freq_dict w' = nco_freq_dict w1 /\ fres_dict w' = fres_dict w1 /\
    ares_dict w' = ares_dict w1 /\ ch_ix_dict w' = ch_ix_dict w1 /\
    frequencies_dict w' = frequencies_dict w1 /\ fir_stage w' = fir_stage w1 /\
    sample_frequency w' = sample_frequency w1 /\ files w' = files w1 /\
    reads w' = reads w1 /\
    trace w' = trace w1 ++ tone_commands m nco F ares.
Proof.
  unfold ReadoutModule.write_tones. intro E.
  destruct (dict_get fres_d m) as [fres|] eqn:Ef; [|discriminate].
  destruct (dict_get ares_d m) as [ares|] eqn:Ea; [|discriminate].
  cbn in E.
  destruct (dict_get nco_d m) as [nco|] eqn:En; [|discriminate].
  cbn in E.
  destruct (ReadoutModule.over_full_scale ares) eqn:Eo; [discriminate|].
  exists fres, ares, nco. do 3 (split; [reflexivity|]). split; [exact Eo|].
  unfold perturbed. cbv zeta.
  destruct (ReadoutModule.low_power ares); cbn in E; injection E as <-; cbn;
    rewrite <- app_assoc; repeat split; reflexivity.
Qed.

(** The body of the loop of [write_modules]. *)
Definition write_module (module_index : Z) : M unit :=
  w <- get ;;
  ReadoutModule.write_tones module_index (nco_freq_dict w) (fres_dict w) (ares_dict w)
    (fun a w => with_fres_dict w (dict_set (fres_dict w) module_index a)).

Lemma write_module_Ok (m : Z) (w w' : world) :
  write_module m w = (Ok tt, w') ->
  exists fres ares nco,
    dict_get (fres_dict w) m = Some fres /\ dict_get (ares_dict w) m = Some ares /\
    dict_get (nco_freq_dict w) m = Some nco /\
    let F := ReadoutModule.randomize fres (map uniform (seq (rng_pos w) (length fres))) in
    nco_freq_dict w' = nco_freq_dict w /\
    fres_dict w' = dict_set (fres_dict w) m F /\
    ares_dict w' = ares_dict w /\ ch_ix_dict w' = ch_ix_dict w /\
    fir_stage w' = fir_stage w /\
    trace w' = trace w ++ tone_commands m nco F ares.
Proof.
  unfold write_module. unfold bind at 1. unfold get at 1. intro E.
  apply macro_write_tones_Ok in E.
  destruct E as (fres & ares & nco & Ef & Ea & En & _ & E).
  exists fres, ares, nco. repeat (split; [assumption|]).
  cbv zeta in *. unfold perturbed in E. cbn in E.
  destruct E as (E1 & E2 & E3 & E4 & _ & E6 & _ & _ & _ & E7).
  repeat split; assumption.
Qed.

Lemma write_modules_loop (ms : list Z) :
  NoDup ms ->
  forall w w',
    for_each ms write_module w = (Ok tt, w') ->
    nco_freq_dict w' = nco_freq_dict w /\ ares_dict w' = ares_dict w /\
    ch_ix_dict w' = ch_ix_dict w /\ fir_stage w' = fir_stage w /\
    (forall k, ~ In k ms -> dict_get (fres_dict w') k = dict_get (fres_dict w) k) /\
    (forall m, In m ms ->
       exists fres noise,
         dict_get (fres_dict w) m = Some fres /\ length noise = length fres /\
         Forall drawn noise /\
         dict_get (fres_dict w') m = Some (ReadoutModule.randomize fres noise)) /\
    trace w' =
      trace w ++
      flat_map (fun m => tone_commands m (CRS.nco_of (nco_freq_dict w) m)
                           (entries (fres_dict w') m) (entries (ares_dict w) m)) ms.
Proof.
  induction 1 as [|m ms Hm N IH]; intros w w' E.
  - simpl in E. unfold ret in E. injection E as <-.
    repeat split; try reflexivity; [intros m []|now rewrite app_nil_r].
  - simpl in E. apply bind_Ok_inv in E. destruct E as ([] & w1 & E1 & E2).
    apply write_module_Ok in E1.
    destruct E1 as (fres & ares & nco & Ef & Ea & En & E1). cbv zeta in E1.
    destruct E1 as (A1 & A2 & A3 & A4 & A5 & A6).
    destruct (IH _ _ E2) as (B1 & B2 & B3 & B4 & B5 & B6 & B7).
    assert (Em : dict_get (fres_dict w') m =
                 Some (ReadoutModule.randomize fres
                         (map uniform (seq (rng_pos w) (length fres))))).
    { rewrite (B5 m Hm), A2, dict_get_set, Z.eqb_refl. reflexivity. }
    split; [congruence|]. split; [congruence|]. split; [congruence|].
    split; [congruence|]. split; [|split].
    + intros k Hk. rewrite B5 by (intro; apply Hk; now right).
      rewrite A2, dict_get_set.
      destruct (Z.eqb m k) eqn:Ek; [|reflexivity].
      apply Z.eqb_eq in Ek. subst. exfalso. apply Hk. now left.
    + intros k [<-|Hk].
      * exists fres, (map uniform (seq (rng_pos w) (length fres))).
        split; [exact Ef|]. split; [now rewrite length_map, length_seq|].
        split; [apply drawn_seq|exact Em].
      * destruct (B6 k Hk) as (fk & noise & Ek & Ln & Dn & Ek').
        exists fk, noise. split; [|auto].
        rewrite A2, dict_get_set in Ek.
        destruct (Z.eqb m k) eqn:Emk; [|exact Ek].
        apply Z.eqb_eq in Emk. subst. contradiction.
    + rewrite B7, A6. cbn [flat_map]. rewrite <- app_assoc. f_equal. f_equal.
      * unfold entries, CRS.nco_of. now rewrite Em, En, Ea.
      * rewrite A1, A3. reflexivity.
Qed.

Lemma modules_in_ext (a b : list Z) :
  (forall k, In k a <-> In k b) -> modules_in a = modules_in b.
Proof.
  intro E. unfold modules_in. apply filter_ext. intro m.
  destruct (existsb (Z.eqb m) b) eqn:Eb.
  - apply existsb_eqb_In. apply E. now apply existsb_eqb_In.
  - destruct (existsb (Z.eqb m) a) eqn:Ea; [|reflexivity].
    apply existsb_eqb_In, E, existsb_eqb_In in Ea. congruence.
Qed.

Lemma tones_split_fres_keys (w : world) (fres ares : list Q) (k : Z) :
  In k (dict_keys (fres_dict (tones_split w fres ares))) <->
  In k (dict_keys (nco_freq_dict w)).
Proof.
  unfold tones_split, placed_tones, cleared_tones. cbn -[scatter dict_init zip3 dict_keys].
  rewrite scatter_keys. apply dict_init_spec.
Qed.

Lemma write_modules_run_Ok (w w' : world) :
  CRS.write_modules w = (Ok tt, w') ->
  for_each (modules_in (dict_keys (fres_dict w))) write_module w = (Ok tt, w').
Proof. intro E. exact E. Qed.

(** What a [write_tones] that returns has done, for the state [w1] after
    the split of the tones. *)
Lemma write_tones_Ok_loop (fres ares : list Q) (w w' : world) :
  CRS.write_tones fres ares w = (Ok tt, w') ->
  nco_freq_dict w <> [] /\
  for_each (modules_in (dict_keys (nco_freq_dict w))) write_module
           (tones_split w fres ares) = (Ok tt, w').
Proof.
  intro E. pose proof (write_tones_Ok_nco _ _ _ _ E) as N. split; [exact N|].
  unfold CRS.write_tones in E. apply bind_Ok_inv in E.
  destruct E as ([] & w1 & E1 & E2).
  rewrite split_tones_run in E1 by exact N.
  injection E1 as _ <-.
  apply write_modules_run_Ok in E2.
  now rewrite (modules_in_ext _ _ (tones_split_fres_keys w fres ares)) in E2.
Qed.

(** After a [write_tones] that returns, [self.fres_dict] holds for every
    module the frequencies that were sent to it.  The commands of the call
    are, for every module of the table that the device has, in the order of
    the device: [clear_channels], then one batch that sets on channel
    [j + 1] the frequency [fres_dict[m][j] - nco] and the amplitude
    [10 ** ((ares_dict[m][j] - full_scale_dbm) / 20)].  A module of the
    table that received no tone is cleared as well; the decimation is not
    changed. *)
Theorem write_tones_records_what_it_sends (fres ares : list Q) (w w' : world) :
  CRS.write_tones fres ares w = (Ok tt, w') ->
  trace w' =
    trace w ++
    flat_map (fun m => [clear_channels m;
                        tuber_context
                          (ReadoutModule.tone_calls m (CRS.nco_of (nco_freq_dict w') m)
                             (entries (fres_dict w') m) (entries (ares_dict w') m))])
             (modules_in (dict_keys (nco_freq_dict w'))) /\
  nco_freq_dict w' = nco_freq_dict w /\ fir_stage w' = fir_stage w.
Proof.
  intro E. destruct (write_tones_Ok_loop _ _ _ _ E) as [N L].
  destruct (write_modules_loop _ (modules_in_NoDup _) _ _ L)
    as (B1 & B2 & B3 & B4 & _ & _ & B7).
  change (nco_freq_dict (tones_split w fres ares)) with (nco_freq_dict w) in *.
  change (trace (tones_split w fres ares)) with (trace w) in B7.
  change (fir_stage (tones_split w fres ares)) with (fir_stage w) in B4.
  rewrite B1, B2. split; [exact B7|]. split; [reflexivity|exact B4].
Qed.


End WriteFacts.

(** ** The macro [sweep] *)
Section SweepFacts.
Context `{Instrument}.

Lemma np_expand_length {A} (n : nat) (l l' : list A) :
  np_expand n l = Some l' -> length l' = n.
Proof.
  unfold np_expand. destruct (Nat.eqb (length l) n) eqn:E.
  - intro E'. injection E' as <-. now apply Nat.eqb_eq.
  - destruct l as [|x [|y l]]; try discriminate.
    intro E'. injection E' as <-. apply repeat_length.
Qed.

Lemma bind_item_Some {A B} (a : A) (e : exn) (k : A -> M B) (w : world) :
  bind (item (Some a) e) k w = k a w.
Proof. reflexivity. Qed.

Lemma bind_modify {B} (f : world -> world) (k : unit -> M B) (w : world) :
  bind (modify f) k w = k tt (f w).
Proof. reflexivity. Qed.

(** The commands of one point of the sweep of a module. *)
Definition point_commands (m : Z) (nco : Q) (nsamps : nat) (F : list (list Q)) (k : nat)
    : list event :=
  [tuber_context
     (map (fun c => set_frequency (snd c - nco) (S (fst c)) m)
          (enumerate (map (fun row => nth k row 0) F)));
   set_dmfd_routing CARRIER m; sleep 0.5; py_get_samples 20 m;
   set_dmfd_routing ADC m; sleep 0.5; py_get_samples nsamps m].

(** What a module of the sweep leaves alone. *)
Definition same_self (w w' : world) : Prop :=
  nco_freq_dict w' = nco_freq_dict w /\ fres_dict w' = fres_dict w /\
  ares_dict w' = ares_dict w /\ ch_ix_dict w' = ch_ix_dict w /\
  frequencies_dict w' = frequencies_dict w /\ fir_stage w' = fir_stage w.

Lemma same_self_refl (w : world) : same_self w w.
Proof. unfold same_self. intuition. Qed.

Lemma same_self_trans (a b c : world) : same_self a b -> same_self b c -> same_self a c.
Proof. unfold same_self. intuition congruence. Qed.

Lemma sweep_point_Ok m nco nsamps (F : list (list Q)) (z z' : list (list sample))
    (k : nat) (w w' : world) :
  ReadoutModule.sweep_point m nco nsamps F z k w = (Ok z', w') ->
  trace w' = trace w ++ point_commands m nco nsamps F k /\
  (exists col, length col = length F /\ z' = map2 (fun row x => row ++ [x]) z col) /\
  same_self w w'.
Proof.
  unfold ReadoutModule.sweep_point. intro E.
  cbv beta iota zeta delta [bind emit modify get ret d.py_get_samples d.set_dmfd_routing] in E.
  match type of E with
  | context [item (np_expand ?n ?l) ?e] =>
      destruct (np_expand n l) as [c1|] eqn:E1; [|discriminate]
  end.
  cbv beta iota zeta delta [item ret] in E.
  match type of E with
  | context [np_expand ?n ?l] =>
      destruct (np_expand n l) as [c2|] eqn:E2; [|discriminate]
  end.
  cbv beta iota zeta delta [item ret] in E.
  match type of E with
  | context [broadcast3 ?g ?a ?b ?c] =>
      destruct (broadcast3 g a b c) as [zi|] eqn:E3; [|discriminate]
  end.
  cbv beta iota zeta delta [item ret] in E.
  match type of E with
  | context [np_expand ?n ?l] =>
      destruct (np_expand n l) as [col|] eqn:E4; [|discriminate]
  end.
  cbv beta iota zeta delta [item ret] in E.
  injection E as <- <-.
  split; [|split].
  - unfold point_commands. cbn. rewrite <- !app_assoc. reflexivity.
  - exists col. split; [now apply np_expand_length in E4|reflexivity].
  - unfold same_self. cbn. intuition.
Qed.

Lemma map2_app_rows {A} (z : list (list A)) (col : list A) (c : nat) :
  length z = length col -> Forall (fun r => length r = c) z ->
  length (map2 (fun row x => row ++ [x]) z col) = length z /\
  Forall (fun r => length r = S c) (map2 (fun row x => row ++ [x]) z col).
Proof.
  intros L F. split; [rewrite map2_length; lia|].
  apply Forall_forall. intros r Hr. unfold map2 in Hr.
  apply in_map_iff in Hr. destruct Hr as ([row x] & <- & Hp).
  apply in_combine_l in Hp. rewrite Forall_forall in F.
  simpl. rewrite length_app, (F row Hp). simpl. lia.
Qed.

Lemma sweep_points_Ok m nco nsamps (F : list (list Q)) (n : nat) :
  forall (s c : nat) (z0 z : list (list sample)) (w w' : world),
    length z0 = length F -> Forall (fun r => length r = c) z0 ->
    for_fold (seq s n) z0 (ReadoutModule.sweep_point m nco nsamps F) w = (Ok z, w') ->
    trace w' = trace w ++ flat_map (point_commands m nco nsamps F) (seq s n) /\
    length z = length F /\ Forall (fun r => length r = (c + n)%nat) z /\
    same_self w w'.
Proof.
  induction n as [|n IH]; intros s c z0 z w w' L0 F0 E.
  - simpl in E. unfold ret in E. injection E as <- <-.
    rewrite app_nil_r, Nat.add_0_r. split; [reflexivity|]. split; [exact L0|].
    split; [exact F0|apply same_self_refl].
  - simpl in E. apply bind_Ok_inv in E. destruct E as (z1 & w1 & E1 & E2).
    apply sweep_point_Ok in E1. destruct E1 as (T1 & (col & Lc & ->) & S1).
    destruct (map2_app_rows z0 col c) as [L1 F1]; [congruence|exact F0|].
    destruct (IH (S s) (S c) _ _ _ _ (eq_trans L1 L0) F1 E2) as (T2 & L2 & F2 & S2).
    split; [|split; [exact L2|split]].
    + rewrite T2, T1. cbn [flat_map]. now rewrite <- app_assoc.
    + replace (c + S n)%nat with (S c + n)%nat by lia. exact F2.
    + eapply same_self_trans; eassumption.
Qed.

(** A row of the perturbed matrix: the row of the request plus draws of
    the generator, nudged. *)
Definition perturbed_row (row row' : list Q) : Prop :=
  exists noise, length noise = length row /\ Forall drawn noise /\
                row' = ReadoutModule.randomize row noise.

Lemma randomize_rows_drawn (rows : list (list Q)) (w : world) :
  exists rows',
    ReadoutModule.randomize_rows rows w =
      (Ok rows', with_rng_pos w (rng_pos w + length (concat rows))) /\
    Forall2 perturbed_row rows rows'.
Proof.
  unfold ReadoutModule.randomize_rows.
  assert (G : forall acc w,
    exists out,
      for_fold rows acc (fun acc row =>
        noise <- np_random_uniform (length row) ;;
        ret (acc ++ [ReadoutModule.randomize row noise])) w =
        (Ok (acc ++ out), with_rng_pos w (rng_pos w + length (concat rows))) /\
      Forall2 perturbed_row rows out).
  { clear w. induction rows as [|row rows IH]; intros acc w; simpl.
    - exists []. rewrite app_nil_r, Nat.add_0_r. split; [now destruct w|constructor].
    - unfold bind at 1. unfold bind at 1. rewrite np_random_uniform_run.
      unfold ret at 1.
      destruct (IH (acc ++ [ReadoutModule.randomize row
                              (map uniform (seq (rng_pos w) (length row)))])
                   (with_rng_pos w (rng_pos w + length row)))
        as (out & E & F).
      exists (ReadoutModule.randomize row (map uniform (seq (rng_pos w) (length row))) :: out).
      rewrite E, <- app_assoc. split.
      + simpl. rewrite length_app. destruct w; cbn. now rewrite Nat.add_assoc.
      + constructor; [|exact F]. eexists. split; [|split; [apply drawn_seq|reflexivity]].
        now rewrite length_map, length_seq. }
  destruct (G [] w) as (out & E & F). exists out. now rewrite E.
Qed.

(** The state in which the macro starts to send commands: the matrix has
    been perturbed and stored. *)
Definition sweep_ready (store : list (list Q) -> world -> world) (rows F : list (list Q))
    (w : world) : world :=
  store F (with_rng_pos w (rng_pos w + length (concat rows))).

Lemma macro_sweep_Ok m nco_d fd ad sf sz nsamps store (w w' : world) sf' sz' :
  ReadoutModule.sweep m nco_d fd ad sf sz nsamps store w = (Ok (sf', sz'), w') ->
  exists rows ares F,
    dict_get fd m = Some rows /\ dict_get ad m = Some ares /\
    Forall2 perturbed_row rows F /\
    let w1 := sweep_ready store rows F w in
    (F = [] /\ sf' = sf /\ sz' = sz /\ w' = w1) \/
    (F <> [] /\
     exists nco col0 noise Z,
       dict_get nco_d m = Some nco /\ length ares = length F /\
       ReadoutModule.first_column F = Some col0 /\
       length noise = length col0 /\ Forall drawn noise /\
       sf' = dict_set sf m F /\ sz' = dict_set sz m Z /\
       length Z = length F /\
       Forall (fun r => length r = length (hd [] F)) Z /\
       same_self w1 w' /\
       trace w' =
         trace w1 ++
         tone_commands m nco (ReadoutModule.randomize col0 noise) ares ++
         flat_map (point_commands m nco nsamps F) (seq 0 (length (hd [] F))) ++
         [clear_channels m]).
Proof.
  unfold ReadoutModule.sweep. intro E.
  apply bind_Ok_inv in E. destruct E as (rows & w0 & R & E).
  apply item_Ok_inv in R. destruct R as [Ef ->].
  apply bind_Ok_inv in E. destruct E as (ares & w0 & R & E).
  apply item_Ok_inv in R. destruct R as [Ea ->].
  apply bind_Ok_inv in E. destruct E as (F & w0 & R & E).
  destruct (randomize_rows_drawn rows w) as (F' & ER & FR). rewrite ER in R.
  injection R as <- <-.
  apply bind_Ok_inv in E. destruct E as ([] & w1 & R & E).
  unfold modify in R. injection R as <-.
  exists rows, ares, F'. do 3 (split; [assumption|]).
  cbv zeta. fold (sweep_ready store rows F' w) in E.
  set (w1 := sweep_ready store rows F' w) in *.
  destruct (Nat.eqb (length F') 0) eqn:E0.
  - left. apply Nat.eqb_eq, length_zero_iff_nil in E0.
    unfold ret in E. injection E as <- <- <-. auto.
  - right. split; [intro X; now rewrite X in E0|].
    apply bind_Ok_inv in E. destruct E as (nco & w0 & R & E).
    apply item_Ok_inv in R. destruct R as [En ->].
    destruct (negb (Nat.eqb (length ares) (length F'))) eqn:El; [discriminate|].
    apply negb_false_iff, Nat.eqb_eq in El.
    apply bind_Ok_inv in E. destruct E as (col0 & w0 & R & E).
    apply item_Ok_inv in R. destruct R as [Ec ->].
    apply bind_Ok_inv in E. destruct E as ([] & w2 & R & E).
    apply macro_write_tones_Ok in R.
    destruct R as (fres0 & ares0 & nco0 & Ef0 & Ea0 & En0 & _ & R).
    simpl in Ef0. rewrite Z.eqb_refl in Ef0. injection Ef0 as <-.
    assert (ares0 = ares) by congruence. assert (nco0 = nco) by congruence. subst ares0 nco0.
    cbv zeta in R. unfold perturbed in R. cbn in R.
    destruct R as (A1 & A2 & A3 & A4 & A5 & A6 & _ & _ & _ & A7).
    apply bind_Ok_inv in E. destruct E as (Z & w3 & R & E).
    apply (sweep_points_Ok m nco nsamps F' (length (hd [] F')) 0 0) in R;
      [|apply repeat_length|apply Forall_forall; intros r Hr; apply repeat_spec in Hr; now subst].
    destruct R as (T3 & L3 & F3 & S3).
    apply bind_Ok_inv in E. destruct E as ([] & w4 & R & E).
    unfold d.clear_channels, emit, modify in R. injection R as <-.
    unfold ret in E. injection E as <- <- <-.
    exists nco, col0, (map uniform (seq (rng_pos w1) (length col0))), Z.
    split; [exact En|]. split; [exact El|]. split; [exact Ec|].
    split; [now rewrite length_map, length_seq|]. split; [apply drawn_seq|].
    split; [reflexivity|]. split; [reflexivity|]. split; [exact L3|].
    split; [exact F3|]. split.
    + destruct S3 as (B1 & B2 & B3 & B4 & B5 & B6).
      unfold same_self. cbn. repeat split; congruence.
    + cbn. rewrite T3, A7. rewrite <- !app_assoc. reflexivity.
Qed.


(** The calls of the macro [sweep] that send nothing.  On a module without
    channels the macro returns at once: [sweep_f] and [sweep_z] are as they
    were given and no command is sent.  When the number of amplitudes
    differs from the number of channels the macro raises [ValueError]
    before any command. *)
Theorem macro_sweep_sends_nothing m nco_d fd ad sf sz nsamps store (w : world) rows ares :
  (forall a w0, trace (store a w0) = trace w0) ->
  dict_get fd m = Some rows -> dict_get ad m = Some ares ->
  let r := ReadoutModule.sweep m nco_d fd ad sf sz nsamps store w in
  (rows = [] -> fst r = Ok (sf, sz) /\ trace (snd r) = trace w) /\
  (rows <> [] -> length ares <> length rows -> forall nco, dict_get nco_d m = Some nco ->
   fst r = Raise (ValueError "ares and frequencies are not the same length") /\
   trace (snd r) = trace w).
Proof.
  intros St Ef Ea r.
  destruct (randomize_rows_drawn rows w) as (F & ER & FR).
  assert (LF : length F = length rows) by (symmetry; exact (Forall2_length FR)).
  split.
  - intros ->. destruct F; [|discriminate].
    assert (Er : r = (Ok (sf, sz), sweep_ready store [] [] w)).
    { unfold r, ReadoutModule.sweep. rewrite Ef, Ea. rewrite !bind_item_Some.
      rewrite (bind_Ok _ _ _ _ _ ER). rewrite bind_modify. reflexivity. }
    rewrite Er. cbn [fst snd]. split; [reflexivity|]. unfold sweep_ready. now rewrite St.
  - intros Hr Hl nco En.
    assert (E0 : Nat.eqb (length F) 0 = false).
    { apply Nat.eqb_neq. destruct rows; [congruence|simpl in LF; lia]. }
    assert (El : Nat.eqb (length ares) (length F) = false).
    { apply Nat.eqb_neq. congruence. }
    assert (Er : r = (Raise (ValueError "ares and frequencies are not the same length"),
                      sweep_ready store rows F w)).
    { unfold r, ReadoutModule.sweep. rewrite Ef, Ea. rewrite !bind_item_Some.
      rewrite (bind_Ok _ _ _ _ _ ER). rewrite bind_modify. rewrite E0, En.
      rewrite bind_item_Some. rewrite El. reflexivity. }
    rewrite Er. cbn [fst snd]. split; [reflexivity|]. unfold sweep_ready. now rewrite St.
Qed.

End SweepFacts.

(** ** What [sweep] returns *)
Section SweepReturns.
Context `{Instrument}.

(** The body of the loop of [sweep_modules]. *)
Definition sweep_module (nsamps : nat)
    (acc : dict (list (list Q)) * dict (list (list sample))) (module_index : Z)
    : M (dict (list (list Q)) * dict (list (list sample))) :=
  w <- get ;;
  ReadoutModule.sweep module_index (nco_freq_dict w) (frequencies_dict w) (ares_dict w)
    (fst acc) (snd acc) nsamps
    (fun a w => with_frequencies_dict w (dict_set (frequencies_dict w) module_index a)).

(** The rows of [sweep_z] fit the matrix of [sweep_f]. *)
Definition fits (fm : list (list Q)) (zm : list (list sample)) : Prop :=
  length zm = length fm /\ Forall (fun r => length r = length (hd [] fm)) zm.

Lemma sweep_module_Ok (nsamps : nat) sf sz sf' sz' (m : Z) (w w' : world) :
  sweep_module nsamps (sf, sz) m w = (Ok (sf', sz'), w') ->
  exists rows F,
    dict_get (frequencies_dict w) m = Some rows /\ Forall2 perturbed_row rows F /\
    frequencies_dict w' = dict_set (frequencies_dict w) m F /\
    ((F = [] /\ sf' = sf /\ sz' = sz) \/
     (F <> [] /\ exists Z, sf' = dict_set sf m F /\ sz' = dict_set sz m Z /\ fits F Z)).
Proof.
  unfold sweep_module. unfold bind at 1. unfold get at 1. cbn [fst snd]. intro E.
  apply macro_sweep_Ok in E. destruct E as (rows & ares & F & Ef & Ea & FR & E).
  exists rows, F. split; [exact Ef|]. split; [exact FR|]. cbv zeta in E.
  destruct E as [(E0 & -> & -> & ->)|(N0 & nco & col0 & noise & Z & _ & _ & _ & _ & _ & -> & ->
                                      & LZ & FZ & S & _)].
  - split; [reflexivity|]. left. auto.
  - destruct S as (_ & _ & _ & _ & S & _). split; [exact S|].
    right. split; [exact N0|]. exists Z. repeat split; assumption.
Qed.

Lemma sweep_modules_loop (nsamps : nat) (ms : list Z) :
  NoDup ms ->
  forall sf sz sf' sz' (w w' : world),
    for_fold ms (sf, sz) (sweep_module nsamps) w = (Ok (sf', sz'), w') ->
    (forall k, ~ In k ms ->
       dict_get (frequencies_dict w') k = dict_get (frequencies_dict w) k /\
       dict_get sf' k = dict_get sf k /\ dict_get sz' k = dict_get sz k) /\
    (forall m, In m ms ->
       dict_get sf' m = dict_get sf m /\ dict_get sz' m = dict_get sz m \/
       exists rows fm zm,
         dict_get (frequencies_dict w) m = Some rows /\ Forall2 perturbed_row rows fm /\
         dict_get sf' m = Some fm /\ dict_get sz' m = Some zm /\ fits fm zm).
Proof.
  induction 1 as [|m ms Hm N IH]; intros sf sz sf' sz' w w' E.
  - simpl in E. unfold ret in E. injection E as <- <- <-.
    split; [auto|intros m []].
  - simpl in E. apply bind_Ok_inv in E. destruct E as ([sf1 sz1] & w1 & E1 & E2).
    apply sweep_module_Ok in E1. destruct E1 as (rows & F & Er & FR & EF & E1).
    destruct (IH _ _ _ _ _ _ E2) as (B1 & B2).
    assert (Ek : forall k, k <> m ->
                 dict_get (frequencies_dict w1) k = dict_get (frequencies_dict w) k /\
                 dict_get sf1 k = dict_get sf k /\ dict_get sz1 k = dict_get sz k).
    { intros k Hk. rewrite EF, dict_get_set.
      assert (Em : Z.eqb m k = false) by (apply Z.eqb_neq; congruence).
      rewrite Em. split; [reflexivity|].
      destruct E1 as [(_ & -> & ->)|(_ & Z & -> & -> & _)]; [auto|].
      now rewrite !dict_get_set, Em. }
    split.
    + intros k Hk.
      assert (Hk1 : ~ In k ms) by (intro; apply Hk; now right).
      assert (Hk2 : k <> m) by (intro; apply Hk; now left).
      destruct (B1 k Hk1) as (C1 & C2 & C3). destruct (Ek k Hk2) as (D1 & D2 & D3).
      repeat split; congruence.
    + intros k [<-|Hk].
      * destruct (B1 m Hm) as (C1 & C2 & C3).
        destruct E1 as [(_ & -> & ->)|(_ & Z & -> & -> & FZ)]; [left; auto|].
        right. exists rows, F, Z. rewrite C2, C3, !dict_get_set, Z.eqb_refl. auto.
      * assert (Hk2 : k <> m) by (intro; subst; contradiction).
        destruct (Ek k Hk2) as (D1 & D2 & D3).
        destruct (B2 k Hk) as [[C2 C3]|(rk & fm & zm & C1 & C2 & C3 & C4 & C5)].
        -- left. split; congruence.
        -- right. exists rk, fm, zm. rewrite <- D1. auto.
Qed.

Lemma sweep_modules_Ok (nsamps : nat) (w w' : world) sf sz :
  CRS.sweep_modules nsamps w = (Ok (sf, sz), w') ->
  forall m fm zm,
    dict_get sf m = Some fm -> dict_get sz m = Some zm ->
    exists rows,
      dict_get (frequencies_dict w) m = Some rows /\ Forall2 perturbed_row rows fm /\
      fits fm zm.
Proof.
  intros E m fm zm Ef Ez.
  assert (L : for_fold (modules_in (dict_keys (frequencies_dict w))) ([], [])
                       (sweep_module nsamps) w = (Ok (sf, sz), w')) by exact E.
  destruct (sweep_modules_loop nsamps _ (modules_in_NoDup _) _ _ _ _ _ _ L) as (B1 & B2).
  destruct (in_dec Z.eq_dec m (modules_in (dict_keys (frequencies_dict w)))) as [Hm|Hm].
  - destruct (B2 m Hm) as [[C _]|(rows & fm' & zm' & C1 & C2 & C3 & C4 & C5)].
    + rewrite Ef in C. discriminate.
    + exists rows. assert (fm' = fm) by congruence. assert (zm' = zm) by congruence.
      subst. auto.
  - destruct (B1 m Hm) as (_ & C & _). rewrite Ef in C. discriminate.
Qed.


(** Row [i] of the [f] and of the [z] that [sweep] returns. *)
Lemma sweep_row (frequencies : list (list Q)) (ares : list Q) (nsamps : nat)
    (w w' : world) f z (i : nat) (row : list Q) :
  length frequencies = length ares ->
  CRS.sweep frequencies ares nsamps w = (Ok (f, z), w') ->
  nth_error frequencies i = Some row ->
  exists frow zrow rows fm,
    nth_error f i = Some frow /\ nth_error z i = Some zrow /\
    perturbed_row row frow /\
    Forall2 perturbed_row rows fm /\ In frow fm /\
    (forall r, In r rows -> In r frequencies) /\
    length zrow = length (hd [] fm).
Proof.
  intros L E Ei.
  assert (Hi : (i < length ares)%nat) by (rewrite <- L; apply nth_error_Some; congruence).
  destruct (nth_error ares i) as [a|] eqn:Ea; [|apply nth_error_None in Ea; lia].
  destruct (sweep_rows frequencies ares nsamps w w' f z L E) as (sf & sz & S1 & S2 & _ & _ & Hr).
  destruct (Hr i row a Ei Ea)
    as (m & l & j & rows & amps & fm & zm & frow & zrow & _ & _ & Er & Ej & _ & _ & Esf & Efj
        & Efi & Esz & Ezj & Ezi).
  destruct (sweep_modules_Ok nsamps _ _ _ _ S2 m fm zm Esf Esz) as (rows' & Er' & FR & LZ & FZ).
  change (frequencies_dict
            (with_fir_stage
               (with_trace (channels_split w frequencies ares)
                  (trace (channels_split w frequencies ares) ++ [set_fir_stage 6])) 6))
    with (frequencies_dict (channels_split w frequencies ares)) in Er'.
  assert (rows' = rows) by congruence. subst rows'.
  exists frow, (CRS.normalized a zrow), rows, fm.
  split; [exact Efi|]. split; [exact Ezi|]. split; [|split; [exact FR|split; [|split]]].
  - clear - FR Ej Efj. revert j Ej Efj.
    induction FR as [|r r' rows fm P _ IH]; intros [|j] Ej Efj; simpl in *; try discriminate.
    + injection Ej as <-. injection Efj as <-. exact P.
    + now apply (IH j).
  - now apply nth_error_In in Efj.
  - intros r Hr'. unfold channels_split, placed_channels, cleared_channels in Er.
    cbn -[scatter dict_init zip3 dict_keys] in Er. rewrite scatter_init_get in Er.
    destruct (existsb _ _); [|discriminate]. injection Er as <-.
    apply in_map_iff in Hr'. destruct Hr' as ([[i0 r0] a0] & <- & Hf).
    apply filter_In in Hf. destruct Hf as [Hf _].
    apply zip3_seq_In in Hf. destruct Hf as [Hf _]. simpl. now apply nth_error_In in Hf.
  - rewrite normalized_length. rewrite Forall_forall in FZ. apply FZ.
    now apply nth_error_In in Ezj.
Qed.


End SweepReturns.

(** ** The grids of [sweep_linear] and [sweep_full] *)
Section Grids.
Context `{Instrument}.

Lemma linspace_length (a b : Q) (num : nat) : length (linspace a b num) = num.
Proof.
  unfold linspace. destruct num as [|[|n]]; [reflexivity|reflexivity|].
  now rewrite length_map, length_seq.
Qed.

Lemma linspace_nth (a b : Q) (num k : nat) :
  (2 <= num)%nat -> (k < num)%nat ->
  nth_error (linspace a b num) k =
  Some (a + inject_Z (Z.of_nat k) * ((b - a) / inject_Z (Z.of_nat (num - 1)))).
Proof.
  intros H2 Hk. unfold linspace. destruct num as [|[|n]]; [lia|lia|].
  replace (S (S n) - 1)%nat with (S n) by lia.
  apply (map_nth_error
           (fun i => a + inject_Z (Z.of_nat i) * ((b - a) / inject_Z (Z.of_nat (S n))))
           k (seq 0 (S (S n)))).
  rewrite nth_error_nth' with (d := 0%nat) by (now rewrite length_seq).
  now rewrite seq_nth.
Qed.

Lemma linspace_one (a b : Q) : linspace a b 1 = [a].
Proof. reflexivity. Qed.

Lemma inject_Z_nat_pos (n : nat) : (0 < n)%nat -> 0 < inject_Z (Z.of_nat n).
Proof.
  intro Hn. change 0 with (inject_Z 0). rewrite <- Zlt_Qlt. lia.
Qed.

Lemma inject_Z_nat_le (k n : nat) :
  (k <= n)%nat -> inject_Z (Z.of_nat k) <= inject_Z (Z.of_nat n).
Proof. intro Hk. rewrite <- Zle_Qle. lia. Qed.

(** A point [a + k * ((b - a) / n)] with [k <= n] lies between [a] and
    [b]. *)
Lemma between_ends (a b : Q) (k n : nat) :
  (0 < n)%nat -> (k <= n)%nat ->
  let x := a + inject_Z (Z.of_nat k) * ((b - a) / inject_Z (Z.of_nat n)) in
  (a <= b -> a <= x /\ x <= b) /\ (b <= a -> b <= x /\ x <= a).
Proof.
  intros Hn Hk x.
  pose proof (inject_Z_nat_pos n Hn) as Pn.
  pose proof (inject_Z_nat_le k n Hk) as Lk.
  assert (Pk : 0 <= inject_Z (Z.of_nat k)).
  { change 0 with (inject_Z 0). rewrite <- Zle_Qle. lia. }
  set (qn := inject_Z (Z.of_nat n)) in *. set (qk := inject_Z (Z.of_nat k)) in *.
  set (d := (b - a) / qn).
  assert (Ed : qn * d == b - a).
  { unfold d. field. intro X. rewrite X in Pn. exact (Qlt_irrefl _ Pn). }
  assert (Ex : x == a + qk * d) by reflexivity.
  split; intro Hab.
  - assert (Pd : 0 <= d).
    { unfold d. apply Qle_shift_div_l; [exact Pn|]. lra. }
    assert (K1 : 0 <= qk * d) by (apply Qmult_le_0_compat; assumption).
    assert (K2 : qk * d <= qn * d) by (apply Qmult_le_compat_r; assumption).
    rewrite Ex. split; lra.
  - assert (Pd : d <= 0).
    { unfold d. apply Qle_shift_div_r; [exact Pn|]. lra. }
    assert (K1 : 0 <= qk * (- d)) by (apply Qmult_le_0_compat; [assumption|lra]).
    assert (K2 : qk * (- d) <= qn * (- d)) by (apply Qmult_le_compat_r; [assumption|lra]).
    rewrite Ex. split; lra.
Qed.

Lemma linspace_between (a b x : Q) (num : nat) :
  In x (linspace a b num) ->
  (a <= b -> a <= x /\ x <= b) /\ (b <= a -> b <= x /\ x <= a).
Proof.
  intro Hx. destruct num as [|[|n]].
  - destruct Hx.
  - destruct Hx as [<-|[]]. split; intro; split; lra.
  - apply In_nth_error in Hx. destruct Hx as [k Ek].
    assert (Hk : (k < S (S n))%nat).
    { rewrite <- (linspace_length a b (S (S n))). apply nth_error_Some. congruence. }
    rewrite linspace_nth in Ek by lia. injection Ek as <-.
    apply (between_ends a b k (S n)); lia.
Qed.


(** The rows that [sweep_linear] asks [sweep] for. *)
Definition linear_rows (fres : list Q) (bw : Q) (npoints : nat) : list (list Q) :=
  map (fun fr => linspace (fr + bw / 2) (fr - bw / 2) npoints) fres.



End Grids.

(** ** [sweep_full] *)
Section FullSweep.
Context `{Instrument}.

(** [bw = 600e6 / 1024 + 200] *)
Definition full_bw : Q := 600e6 / 1024 + 200.

(** The centres of the channels of [sweep_full], 1024 per NCO. *)
Definition full_fres (ncos : list Q) : list Q :=
  concat (map (fun nco => linspace (nco - 300e6 + 10 + full_bw)
                                   (nco + 300e6 - 10 - full_bw) 1024) ncos).

(** The rows that [sweep_full] asks [sweep] for. *)
Definition full_rows (ncos : list Q) (npoints : nat) : list (list Q) :=
  linear_rows (full_fres ncos) (full_bw - full_bw / inject_Z (Z.of_nat npoints)) npoints.

(** A point between the ends of a span is no farther from an NCO than the
    farther end, also after rounding. *)
Lemma offset_within_span (nco : dict Q) (hi lo f : Q) (k : Z) :
  lo <= f -> f <= hi ->
  Qabs (fl (CRS.nco_of nco k - f)) <= CRS.span_offset nco hi lo k.
Proof.
  intros L1 L2. unfold CRS.span_offset. set (n := CRS.nco_of nco k).
  destruct (max_from_pair (Qabs (fl (n - hi))) (Qabs (fl (n - lo)))) as [M1 M2].
  destruct (Qlt_le_dec n f) as [C|C].
  - apply Qle_trans with (Qabs (fl (n - hi))); [|exact M1].
    apply fl_abs_le. rewrite (Qabs_neg (n - f)) by lra. rewrite (Qabs_neg (n - hi)) by lra.
    lra.
  - apply Qle_trans with (Qabs (fl (n - lo))); [|exact M2].
    apply fl_abs_le. rewrite (Qabs_pos (n - f)) by lra. rewrite (Qabs_pos (n - lo)) by lra.
    lra.
Qed.

(** The farther end of a span around a centre near the NCO is within the
    bandwidth, also after rounding. *)
Lemma span_offset_bound (nco : dict Q) (hi lo fr A h : Q) (k : Z) :
  fr - h <= lo -> lo <= fr + h -> fr - h <= hi -> hi <= fr + h ->
  CRS.nco_of nco k - A <= fr -> fr <= CRS.nco_of nco k + A ->
  A + h <= 325000000 ->
  CRS.span_offset nco hi lo k <= CRS.bandwidth.
Proof.
  intros B1 B2 B3 B4 C1 C2 Lim. unfold CRS.span_offset. set (n := CRS.nco_of nco k) in *.
  assert (P : 0 < 2 ^ (-25)) by reflexivity.
  assert (E325 : 325e6 == 325000000) by reflexivity.
  assert (X1 : Qabs (n - hi) <= A + h) by (apply Qabs_Qle_condition; split; lra).
  assert (X2 : Qabs (n - lo) <= A + h) by (apply Qabs_Qle_condition; split; lra).
  assert (Y1 : Qabs (fl (n - hi)) <= CRS.bandwidth).
  { apply Qnot_lt_le. intro F. apply fl_abs_325 in F. lra. }
  assert (Y2 : Qabs (fl (n - lo)) <= CRS.bandwidth).
  { apply Qnot_lt_le. intro F. apply fl_abs_325 in F. lra. }
  destruct (max_from_spec [Qabs (fl (n - lo))] (Qabs (fl (n - hi)))) as [[E|[E|[]]] _];
    rewrite <- E; assumption.
Qed.

Lemma full_bw_value : full_bw == 586137.5.
Proof. reflexivity. Qed.

Lemma full_span (npoints : nat) :
  (0 < npoints)%nat ->
  0 <= full_bw - full_bw / inject_Z (Z.of_nat npoints) /\
  full_bw - full_bw / inject_Z (Z.of_nat npoints) <= full_bw.
Proof.
  intro Hn. pose proof (inject_Z_nat_pos npoints Hn) as Pn.
  assert (P1 : 1 <= inject_Z (Z.of_nat npoints)).
  { change 1 with (inject_Z 1). rewrite <- Zle_Qle. lia. }
  pose proof full_bw_value as Eb. set (b := full_bw) in *.
  set (q := inject_Z (Z.of_nat npoints)) in *.
  assert (D1 : 0 <= b / q) by (apply Qle_shift_div_l; [exact Pn|lra]).
  assert (D2 : b / q <= b).
  { apply Qle_shift_div_r; [exact Pn|]. 
    assert (X : b * 1 <= b * q) by (apply Qmult_le_l; [lra|exact P1]). lra. }
  split; lra.
Qed.

Lemma full_fres_near (ncos : list Q) (fr : Q) :
  In fr (full_fres ncos) ->
  exists nco, In nco ncos /\
              nco - (300000000 - 10 - full_bw) <= fr /\
              fr <= nco + (300000000 - 10 - full_bw).
Proof.
  unfold full_fres. intro Hf. apply in_concat in Hf. destruct Hf as (l & Hl & Hf).
  apply in_map_iff in Hl. destruct Hl as (nco & <- & Hn).
  exists nco. split; [exact Hn|].
  apply linspace_between in Hf. destruct Hf as [Hf _].
  pose proof full_bw_value as Eb.
  assert (E3 : 300e6 == 300000000) by reflexivity.
  set (b := full_bw) in *. set (c := 300e6) in *.
  assert (Hab : nco - c + 10 + b <= nco + c - 10 - b) by lra.
  destruct (Hf Hab). split; lra.
Qed.

Lemma full_rows_nonempty (ncos : list Q) (npoints : nat) :
  (0 < npoints)%nat -> Forall (fun row => row <> []) (full_rows ncos npoints).
Proof.
  intro Hn. apply Forall_forall. intros row Hr. unfold full_rows, linear_rows in Hr.
  apply in_map_iff in Hr. destruct Hr as (fr & <- & _).
  intro X. apply (f_equal (@length Q)) in X. rewrite linspace_length in X. simpl in X. lia.
Qed.

(** The checks of [sweep] pass on the rows of [sweep_full]. *)
Lemma full_rows_in_band (npoints : nat) (ares : list Q) (w : world) :
  (0 < npoints)%nat -> nco_freq_dict w <> [] -> NoDup (dict_keys (nco_freq_dict w)) ->
  fst (CRS.split_sweep (full_rows (map snd (nco_freq_dict w)) npoints) ares w) = Ok tt.
Proof.
  intros Hn N ND. set (rows := full_rows (map snd (nco_freq_dict w)) npoints).
  pose proof (zip3_rows_nonempty rows ares (full_rows_nonempty _ npoints Hn)) as NE.
  rewrite split_sweep_run by assumption. cbn [fst].
  destruct (existsb _ _) eqn:Ex; [exfalso|reflexivity].
  apply existsb_exists in Ex. destruct Ex as (k & Hk & Bad).
  unfold channels_bad in Bad.
  change (nco_freq_dict (channels_split w rows ares)) with (nco_freq_dict w) in Bad.
  destruct (dict_get (frequencies_dict (channels_split w rows ares)) k) as [fm|] eqn:Efm;
    [|discriminate].
  destruct (dict_get (nco_freq_dict w) k) as [nk|] eqn:Enk; [|discriminate].
  unfold CRS.out_of_band in Bad. apply existsb_exists in Bad.
  destruct Bad as (f & Hf & Far). apply Qltb_lt in Far.
  apply in_concat in Hf. destruct Hf as (row & Hrow & Hf).
  (* the row comes from a triple of the split whose home is [k] *)
  unfold channels_split, placed_channels, cleared_channels in Efm.
  cbn -[scatter dict_init zip3 dict_keys] in Efm. rewrite scatter_init_get in Efm.
  destruct (existsb (Z.eqb k) (dict_keys (nco_freq_dict w))); [|discriminate].
  injection Efm as <-.
  apply in_map_iff in Hrow. destruct Hrow as ([[i row'] a] & Er & Ht). simpl in Er. subst row'.
  apply filter_In in Ht. destruct Ht as [Ht Hh]. apply Z.eqb_eq in Hh.
  apply zip3_seq_In in Ht. destruct Ht as [Hi _]. apply nth_error_In in Hi.
  (* the row is a span around a centre of the grid *)
  unfold rows, full_rows, linear_rows in Hi. apply in_map_iff in Hi.
  destruct Hi as (fr & Erow & Hfr).
  destruct (full_fres_near _ _ Hfr) as (n0 & Hn0 & C1 & C2).
  apply in_map_iff in Hn0. destruct Hn0 as ([k0 n0'] & En0 & Hk0). simpl in En0. subst n0'.
  pose proof (dict_In_get _ _ _ ND Hk0) as Ek0.
  assert (Hk0' : In k0 (dict_keys (nco_freq_dict w))) by (apply dict_get_keys; eauto).
  (* the ends of the row *)
  assert (Hne : row <> []).
  { intro X. subst row. apply (f_equal (@length Q)) in X.
    rewrite linspace_length in X. simpl in X. lia. }
  destruct (py_max_some row Hne) as [hi Ehi]. destruct (py_min_some row Hne) as [lo Elo].
  destruct (py_max_spec _ _ Ehi) as [Ihi Mhi]. destruct (py_min_spec _ _ Elo) as [Ilo Mlo].
  destruct (full_span npoints Hn) as [S1 S2].
  set (hb := full_bw - full_bw / inject_Z (Z.of_nat npoints)) in *. clearbody hb.
  set (h := hb / 2) in *.
  assert (Eh : h == hb * (1 # 2)) by (unfold h; field).
  clearbody h.
  assert (Rng : forall x, In x row -> fr - h <= x /\ x <= fr + h).
  { intros x Hx. rewrite <- Erow in Hx. apply linspace_between in Hx.
    destruct Hx as [_ Hx]. apply Hx. lra. }
  (* the home of the row minimises the offset of the farther end *)
  unfold home_channel, nearest_span in Hh. simpl in Hh. rewrite Ehi, Elo in Hh.
  destruct (py_min_key (dict_keys (nco_freq_dict w))
              (CRS.span_offset (nco_freq_dict w) hi lo)) as [m|] eqn:Em.
  2:{ destruct (py_min_key_some (CRS.span_offset (nco_freq_dict w) hi lo)
                  (dict_keys (nco_freq_dict w))) as [m Em'].
      - intro X. apply N. destruct (nco_freq_dict w); [reflexivity|discriminate].
      - congruence. }
  simpl in Hh. subst m. apply py_min_key_spec in Em. destruct Em as [_ Min].
  specialize (Min k0 Hk0').
  assert (Nk : CRS.nco_of (nco_freq_dict w) k = nk) by (unfold CRS.nco_of; now rewrite Enk).
  assert (Nk0 : CRS.nco_of (nco_freq_dict w) k0 = n0)
    by (unfold CRS.nco_of; now rewrite Ek0).
  pose proof (offset_within_span (nco_freq_dict w) hi lo f k (Mlo f Hf) (Mhi f Hf)) as O1.
  destruct (Rng hi Ihi) as [H1 H2]. destruct (Rng lo Ilo) as [L1 L2].
  assert (O2 : CRS.span_offset (nco_freq_dict w) hi lo k0 <= CRS.bandwidth).
  { apply span_offset_bound with fr (300000000 - 10 - full_bw) h;
      rewrite ?Nk0; try assumption.
    pose proof full_bw_value as Eb. set (b := full_bw) in *. lra. }
  rewrite Nk in O1.
  assert (Ab : Qabs (fl (f - nk)) == Qabs (fl (nk - f))).
  { apply fl_abs_eq. rewrite <- (Qabs_opp (nk - f)). apply Qabs_wd. ring. }
  rewrite Ab in Far.
  set (B := CRS.bandwidth) in *.
  set (s1 := CRS.span_offset (nco_freq_dict w) hi lo k) in *.
  set (s0 := CRS.span_offset (nco_freq_dict w) hi lo k0) in *.
  set (ab := Qabs (fl (nk - f))) in *.
  lra.
Qed.

Lemma sweep_full_unfold (amplitude : Q) (npoints nsamps : nat) (w : world) :
  npoints <> 0%nat -> nco_freq_dict w <> [] ->
  CRS.sweep_full amplitude npoints nsamps w =
  bind (CRS.sweep (full_rows (map snd (nco_freq_dict w)) npoints)
                  (map (fun _ => amplitude * 1) (full_fres (map snd (nco_freq_dict w))))
                  nsamps)
       (fun r => match r with
                 | (f, z) =>
                     let sorted := CRS.sort_by_f (combine (concat f) (concat z)) in
                     ret (map fst sorted, map snd sorted)
                 end) w.
Proof.
  intros Hn N. unfold CRS.sweep_full. unfold bind at 1. unfold get at 1.
  destruct npoints as [|n]; [contradiction|]. cbn [Nat.eqb]. cbv zeta.
  destruct (nco_freq_dict w) as [|kv l] eqn:E; [contradiction|].
  cbn [map length Nat.eqb]. reflexivity.
Qed.

(** [sweep_full] never fails the checks of [sweep].  With at least one
    point per channel and a table of NCO frequencies that is not empty,
    every point that it requests lies within 325 MHz of the NCO of the
    module it is assigned to, so the call reaches the device: its first
    command is [set_fir_stage(6)], no later command changes the decimation
    or starts a process, and the decimation is 6 when the call ends,
    whether it returns or raises in a module. *)
Theorem sweep_full_stays_in_band (amplitude : Q) (npoints nsamps : nat) (w : world) :
  npoints <> 0%nat -> nco_freq_dict w <> [] -> NoDup (dict_keys (nco_freq_dict w)) ->
  let r := CRS.sweep_full amplitude npoints nsamps w in
  fst (CRS.split_sweep (full_rows (map snd (nco_freq_dict w)) npoints)
         (map (fun _ => amplitude * 1) (full_fres (map snd (nco_freq_dict w)))) w) = Ok tt /\
  fir_stage (snd r) = 6%Z /\
  exists t, trace (snd r) = trace w ++ set_fir_stage 6 :: t /\ Forall quiet t.
Proof.
  intros Hn N ND r.
  assert (S : fst (CRS.split_sweep (full_rows (map snd (nco_freq_dict w)) npoints)
                (map (fun _ => amplitude * 1) (full_fres (map snd (nco_freq_dict w)))) w)
              = Ok tt) by (apply full_rows_in_band; [lia|assumption|assumption]).
  split; [exact S|].
  pose proof (sweep_sets_fir_stage _ _ nsamps w S) as K. cbv zeta in K.
  assert (Er : snd r =
               snd (CRS.sweep (full_rows (map snd (nco_freq_dict w)) npoints)
                      (map (fun _ => amplitude * 1) (full_fres (map snd (nco_freq_dict w))))
                      nsamps w)).
  { subst r. rewrite sweep_full_unfold by assumption. unfold bind.
    destruct (CRS.sweep _ _ nsamps w) as [[[f z]|e] w1]; reflexivity. }
  rewrite Er. exact K.
Qed.


(** A list of frequencies in ascending order. *)
Definition lower_bound (x : Q) (l : list Q) : Prop :=
  match l with
  | [] => True
  | y :: _ => x <= y
  end.

Fixpoint ascending (l : list Q) : Prop :=
  match l with
  | [] => True
  | x :: r => lower_bound x r /\ ascending r
  end.

Lemma insert_by_f_perm (p : Q * sample) (l : list (Q * sample)) :
  Permutation (CRS.insert_by_f p l) (p :: l).
Proof.
  induction l as [|q r IH]; simpl; [reflexivity|].
  destruct (Qltb (fst q) (fst p) || Qeq_bool (fst q) (fst p)); [|reflexivity].
  rewrite IH. apply perm_swap.
Qed.

Lemma sort_by_f_perm (l : list (Q * sample)) : Permutation (CRS.sort_by_f l) l.
Proof.
  unfold CRS.sort_by_f.
  assert (G : forall acc, Permutation (fold_left (fun acc p => CRS.insert_by_f p acc) l acc)
                                      (acc ++ l)).
  { induction l as [|p l IH]; intro acc; simpl; [now rewrite app_nil_r|].
    rewrite IH, insert_by_f_perm. simpl. apply Permutation_middle. }
  exact (G []).
Qed.

Lemma insert_by_f_lower_bound (x : Q) (p : Q * sample) (l : list (Q * sample)) :
  x <= fst p -> lower_bound x (map fst l) ->
  lower_bound x (map fst (CRS.insert_by_f p l)).
Proof.
  intros Hp Hl. destruct l as [|q r]; simpl; [exact Hp|].
  destruct (Qltb (fst q) (fst p) || Qeq_bool (fst q) (fst p)); simpl; assumption.
Qed.

Lemma insert_by_f_ascending (p : Q * sample) (l : list (Q * sample)) :
  ascending (map fst l) -> ascending (map fst (CRS.insert_by_f p l)).
Proof.
  induction l as [|q r IH]; simpl; [auto|].
  intros [Hq Hr].
  destruct (Qltb (fst q) (fst p) || Qeq_bool (fst q) (fst p)) eqn:E; simpl.
  - split; [|now apply IH].
    apply insert_by_f_lower_bound; [|exact Hq].
    apply orb_true_iff in E. destruct E as [E|E].
    + apply Qltb_lt in E. now apply Qlt_le_weak.
    + apply Qeq_bool_iff in E. rewrite E. apply Qle_refl.
  - split; [|split; assumption].
    apply orb_false_iff in E. destruct E as [E _]. now apply Qltb_ge in E.
Qed.

Lemma sort_by_f_ascending (l : list (Q * sample)) : ascending (map fst (CRS.sort_by_f l)).
Proof.
  unfold CRS.sort_by_f.
  assert (G : forall acc, ascending (map fst acc) ->
                          ascending (map fst (fold_left (fun acc p => CRS.insert_by_f p acc)
                                                        l acc))).
  { induction l as [|p l IH]; intros acc Ha; simpl; [exact Ha|].
    apply IH. now apply insert_by_f_ascending. }
  apply G. exact I.
Qed.

Lemma combine_fst_snd {A B} (l : list (A * B)) : combine (map fst l) (map snd l) = l.
Proof. induction l as [|[a b] l IH]; simpl; [reflexivity|now rewrite IH]. Qed.

Lemma concat_length_rows {A} (l : list (list A)) (n : nat) :
  Forall (fun r => length r = n) l -> length (concat l) = (length l * n)%nat.
Proof.
  induction 1 as [|r l Hr _ IH]; simpl; [reflexivity|].
  rewrite length_app, IH, Hr. reflexivity.
Qed.

(** The shape of what [sweep] returns for a request with [n] points per
    channel. *)
Lemma sweep_rectangular (frequencies : list (list Q)) (ares : list Q) (nsamps n : nat)
    (w w' : world) f z :
  length frequencies = length ares ->
  Forall (fun row => length row = n) frequencies ->
  CRS.sweep frequencies ares nsamps w = (Ok (f, z), w') ->
  length f = length frequencies /\ length z = length frequencies /\
  Forall (fun row => length row = n) f /\ Forall (fun row => length row = n) z.
Proof.
  intros L Fn E.
  destruct (sweep_rows frequencies ares nsamps w w' f z L E) as (_ & _ & _ & _ & Lf & Lz & _).
  split; [exact Lf|]. split; [exact Lz|].
  rewrite Forall_forall in Fn.
  split; apply Forall_forall; intros r Hr; apply In_nth_error in Hr; destruct Hr as [i Er].
  - assert (Hi : (i < length frequencies)%nat)
      by (rewrite <- Lf; apply nth_error_Some; congruence).
    destruct (nth_error frequencies i) as [row|] eqn:Ei; [|apply nth_error_None in Ei; lia].
    destruct (sweep_row _ _ _ _ _ _ _ i row L E Ei)
      as (frow & zrow & rows & fm & Ef & _ & (noise & Ln & _ & Efr) & _).
    assert (X : r = frow) by congruence. rewrite X, Efr.
    rewrite randomize_length by exact Ln. apply Fn. now apply nth_error_In in Ei.
  - assert (Hi : (i < length frequencies)%nat)
      by (rewrite <- Lz; apply nth_error_Some; congruence).
    destruct (nth_error frequencies i) as [row|] eqn:Ei; [|apply nth_error_None in Ei; lia].
    destruct (sweep_row _ _ _ _ _ _ _ i row L E Ei)
      as (frow & zrow & rows & fm & _ & Ez & _ & FR & Hin & Hrows & Lzr).
    assert (X : r = zrow) by congruence. rewrite X, Lzr.
    destruct FR as [|r0 r' rows fm P0 FR]; [destruct Hin|]. simpl.
    destruct P0 as (noise & Ln & _ & ->). rewrite randomize_length by exact Ln.
    apply Fn. apply Hrows. now left.
Qed.

Lemma full_fres_length (ncos : list Q) : length (full_fres ncos) = (length ncos * 1024)%nat.
Proof.
  unfold full_fres. rewrite (concat_length_rows _ 1024%nat); [now rewrite length_map|].
  apply Forall_forall. intros r Hr. apply in_map_iff in Hr. destruct Hr as (nco & <- & _).
  apply linspace_length.
Qed.

(** A [sweep_full] that returns gives the frequencies in ascending order
    and [z] in the order of [f]: the pairs [(f[i], z[i])] are the pairs of
    the flattened result of [sweep_linear], rearranged.  Both arrays have
    [1024 * npoints] entries per NCO of the table. *)
Theorem sweep_full_returns_sorted (amplitude : Q) (npoints nsamps : nat) (w w' : world) f z :
  CRS.sweep_full amplitude npoints nsamps w = (Ok (f, z), w') ->
  ascending f /\
  length f = (length (nco_freq_dict w) * 1024 * npoints)%nat /\
  length z = length f /\
  exists f0 z0,
    CRS.sweep_linear (full_fres (map snd (nco_freq_dict w)))
      (map (fun _ => amplitude * 1) (full_fres (map snd (nco_freq_dict w))))
      (full_bw - full_bw / inject_Z (Z.of_nat npoints)) npoints nsamps w = (Ok (f0, z0), w') /\
    Permutation (combine f z) (combine (concat f0) (concat z0)).
Proof.
  intro E.
  assert (Hn : npoints <> 0%nat).
  { intro X. subst. unfold CRS.sweep_full in E. cbn in E. discriminate. }
  assert (N : nco_freq_dict w <> []).
  { intro X. unfold CRS.sweep_full in E. unfold bind at 1 in E. unfold get at 1 in E.
    rewrite X in E. destruct npoints; [contradiction|]. cbn in E. discriminate. }
  rewrite sweep_full_unfold in E by assumption.
  apply bind_Ok_inv in E. destruct E as ([f0 z0] & w1 & E1 & E2).
  cbv zeta in E2. unfold ret in E2. injection E2 as <- <- <-.
  set (ncos := map snd (nco_freq_dict w)) in *.
  assert (L : length (full_rows ncos npoints) =
              length (map (fun _ : Q => amplitude * 1) (full_fres ncos))).
  { unfold full_rows, linear_rows. now rewrite !length_map. }
  assert (Fn : Forall (fun row => length row = npoints) (full_rows ncos npoints)).
  { apply Forall_forall. intros r Hr. unfold full_rows, linear_rows in Hr.
    apply in_map_iff in Hr. destruct Hr as (fr & <- & _). apply linspace_length. }
  destruct (sweep_rectangular _ _ nsamps npoints w w1 f0 z0 L Fn E1) as (Lf & Lz & Ff & Fz).
  assert (Lr : length (full_rows ncos npoints) = (length (nco_freq_dict w) * 1024)%nat).
  { unfold full_rows, linear_rows. rewrite length_map, full_fres_length.
    unfold ncos. now rewrite length_map. }
  set (l := combine (concat f0) (concat z0)).
  assert (Ll : length l = (length (nco_freq_dict w) * 1024 * npoints)%nat).
  { unfold l. rewrite length_combine.
    rewrite (concat_length_rows f0 npoints Ff), (concat_length_rows z0 npoints Fz).
    rewrite Lf, Lz, Lr. apply Nat.min_id. }
  pose proof (sort_by_f_perm l) as P.
  split; [apply sort_by_f_ascending|].
  split; [rewrite length_map, (Permutation_length P); exact Ll|].
  split; [now rewrite !length_map|].
  exists f0, z0. split; [exact E1|]. now rewrite combine_fst_snd.
Qed.

End FullSweep.

(** ** The sample rate of a capture *)
Section CaptureRate.
Context `{Instrument}.






End CaptureRate.

(** ** Further edge cases of the macros and of [sweep_qres] *)
Section MoreFacts.
Context `{Instrument}.

Definition nco_not_set : exn := PyException "NCO frequency has not been set".

(** The lookups of the macro [write_tones].  A module without an entry in
    [fres_dict] or in [ares_dict] raises [KeyError] with nothing changed.  A
    module without an NCO raises the exception of the [try] block, also
    when an amplitude is above full scale; by then the array of frequencies
    has been perturbed in place, but no command has been sent. *)
Theorem macro_write_tones_missing_entries m nco_d fres_d ares_d store (w : world) :
  (forall a w0, trace (store a w0) = trace w0) ->
  let r := ReadoutModule.write_tones m nco_d fres_d ares_d store w in
  (dict_get fres_d m = None -> r = (Raise KeyError, w)) /\
  (dict_get ares_d m = None -> fst r = Raise KeyError /\ snd r = w) /\
  (forall fres ares,
     dict_get fres_d m = Some fres -> dict_get ares_d m = Some ares ->
     dict_get nco_d m = None ->
     r = (Raise nco_not_set, perturbed store fres w) /\ trace (snd r) = trace w).
Proof.
  intros St r. subst r. unfold ReadoutModule.write_tones. split; [|split].
  - intro E. now rewrite E.
  - intro E. rewrite E. destruct (dict_get fres_d m); split; reflexivity.
  - intros fres ares Ef Ea En. rewrite Ef, Ea, En. cbn. unfold perturbed.
    split; [reflexivity|]. now rewrite St.
Qed.

Lemma existsb_path_In (p : path) (l : list path) :
  existsb (path_eqb p) l = true <-> In p l.
Proof.
  rewrite existsb_exists. split.
  - intros (q & Hq & E). apply path_eqb_eq in E. now subst.
  - intro Hp. exists p. split; [exact Hp|]. destruct p; simpl; auto. apply Z.eqb_refl.
Qed.

Definition file_not_found : exn := PyException "FileNotFoundError".

(** The macro [get_noise_cal] reads one frame of 20 samples with the
    routing at CARRIER and sets the routing back to ADC before it saves
    the calibration: whether the call returns or raises, its commands are
    these three.  With [tmp/] in place it returns with one calibration
    value per tone, or per channel that the device returned if these are
    fewer, and [tmp/zcal_m.npy] exists afterwards; without [tmp/] the save
    raises and no file is created. *)
Theorem get_noise_cal_restores_routing m fres_d (noise_zcal_dict : dict (list sample))
    (w : world) fres :
  dict_get fres_d m = Some fres ->
  let r := ReadoutModule.get_noise_cal m fres_d noise_zcal_dict w in
  trace (snd r) =
    trace w ++ [set_dmfd_routing CARRIER m; py_get_samples 20 m; set_dmfd_routing ADC m] /\
  (In tmp_dir (files w) ->
   exists zcal,
     fst r = Ok (dict_set noise_zcal_dict m zcal) /\
     length zcal = Nat.min (length fres) (length (adc (reads w) m 20)) /\
     In (zcal_file m) (files (snd r))) /\
  (~ In tmp_dir (files w) -> fst r = Raise file_not_found /\ files (snd r) = files w).
Proof.
  intros Ef r.
  assert (Er : r =
    let w3 := with_trace (with_reads w (S (reads w)))
                (trace w ++ [set_dmfd_routing CARRIER m; py_get_samples 20 m;
                             set_dmfd_routing ADC m]) in
    if existsb (path_eqb tmp_dir) (files w)
    then (Ok (dict_set noise_zcal_dict m
                (map mean (firstn (length fres) (adc (reads w) m 20)))),
          if existsb (path_eqb (zcal_file m)) (files w) then w3
          else with_files w3 (files w ++ [zcal_file m]))
    else (Raise file_not_found, w3)).
  { subst r. unfold ReadoutModule.get_noise_cal. rewrite Ef.
    destruct w as [a b c dd e f g h i j k l].
    cbv beta iota zeta delta [bind item ret emit modify get raise d.set_dmfd_routing
                              d.py_get_samples ReadoutModule.save_zcal path_exists makedirs
                              with_trace with_reads with_files trace reads files
                              nco_freq_dict fres_dict ares_dict ch_ix_dict frequencies_dict
                              sample_frequency fir_stage warned rng_pos fst snd].
    rewrite <- !app_assoc. cbn [app].
    destruct (existsb (path_eqb tmp_dir) l); [|reflexivity].
    destruct (existsb (path_eqb (zcal_file m)) l); reflexivity. }
  rewrite Er. cbv zeta. clear Er r. split; [|split].
  - destruct (existsb (path_eqb tmp_dir) (files w)); cbn [snd]; [|reflexivity].
    destruct (existsb (path_eqb (zcal_file m)) (files w)); reflexivity.
  - intro Ht. apply existsb_path_In in Ht. rewrite Ht. cbn [fst snd].
    eexists. split; [reflexivity|]. split.
    + rewrite length_map, length_firstn. reflexivity.
    + destruct (existsb (path_eqb (zcal_file m)) (files w)) eqn:Ez.
      * cbn. now apply existsb_path_In.
      * cbn. apply in_or_app. right. now left.
  - intro Ht. destruct (existsb (path_eqb tmp_dir) (files w)) eqn:E.
    + apply existsb_path_In in E. contradiction.
    + cbn. auto.
Qed.



End MoreFacts.

(** ** The properties above on the bench *)

(** A session before [set_nco]. *)
Definition unset_session : world :=
  mkWorld [] [] [] [] [] 0 5 [] [] 0 0 [].

(** A device whose NCO keeps the whole hertz of the frequency it is given,
    after [configure_system] chose the high bank. *)
Definition whole_hertz (f : Q) : Q := inject_Z (Qfloor f).

Definition configured_rig : Setup.rig :=
  snd (Setup.configure_system "SMA" 1 true false (Setup.init "SMA")).

Lemma set_nco_rejects_before_any_command_witness :
  Setup.set_nco whole_hertz [(5%Z, 1e9)] false (Setup.init "SMA") =
    (Raise Setup.bad_module, Setup.init "SMA") /\
  Setup.set_nco whole_hertz [(1%Z, 3e9)] false (Setup.init "SMA") =
    (Raise Setup.bad_nco, Setup.init "SMA") /\
  Setup.set_nco whole_hertz [(1%Z, 1e9)] false (Setup.init "SMA") =
    (Raise Setup.not_configured, Setup.init "SMA").
Proof.
  split; [|split].
  - apply (proj1 (set_nco_rejects_before_any_command whole_hertz [(5%Z, 1e9)] false
                    (Setup.init "SMA"))).
    constructor. simpl. intuition discriminate.
  - apply (proj1 (proj2 (set_nco_rejects_before_any_command whole_hertz [(1%Z, 3e9)] false
                           (Setup.init "SMA")))).
    + repeat (apply Forall_cons; [simpl; auto 10|]); apply Forall_nil.
    + constructor; vm_compute; reflexivity.
  - apply (proj2 (proj2 (set_nco_rejects_before_any_command whole_hertz [(1%Z, 1e9)] false
                           (Setup.init "SMA")))).
    + repeat (apply Forall_cons; [simpl; auto 10|]); apply Forall_nil.
    + repeat (apply Forall_cons; [vm_compute; discriminate|]); apply Forall_nil.
    + reflexivity.
Defined.

Lemma set_nco_reads_back_what_it_set_witness :
  fst (Setup.set_nco whole_hertz [(1%Z, 500e6); (2%Z, 1200.5)] false configured_rig) = Ok tt /\
  dict_get (Setup.nco_freq_dict
              (snd (Setup.set_nco whole_hertz [(1%Z, 500e6); (2%Z, 1200.5)] false
                      configured_rig))) 2%Z = Some 1200.
Proof.
  destruct (set_nco_reads_back_what_it_set whole_hertz [(1%Z, 500e6); (2%Z, 1200.5)]
              false true configured_rig) as (A & B & _).
  - repeat (apply Forall_cons; [simpl; auto 10|]); apply Forall_nil.
  - repeat (apply Forall_cons; [vm_compute; discriminate|]); apply Forall_nil.
  - reflexivity.
  - split; [exact A|]. exact (proj1 (B 2%Z 1200.5 eq_refl)).
Defined.

Lemma set_nco_keeps_table_on_device_witness :
  table_on_device
    (snd (Setup.set_nco whole_hertz [(1%Z, 500e6); (2%Z, 1200.5)] false configured_rig)) /\
  table_on_device (snd (Setup.set_nco whole_hertz [(1%Z, 1e9)] false (Setup.init "SMA"))).
Proof.
  split.
  - destruct (set_nco_keeps_table_on_device whole_hertz [(1%Z, 500e6); (2%Z, 1200.5)] false
                configured_rig) as [_ B].
    apply B. split; constructor.
  - destruct (set_nco_keeps_table_on_device whole_hertz [(1%Z, 1e9)] false
                (Setup.init "SMA")) as [A B].
    apply B. apply A.
Defined.

Lemma capture_fast_noise_always_raises_witness :
  fst (@CRS.capture_fast_noise bench 1600e6 (-10) 1 false two_modules) = Raise CRS.too_far /\
  fst (@CRS.capture_fast_noise bench 900e6 (-10) 1 false two_modules)
  = Raise CRS.no_sz_noise_dict /\
  fst (@CRS.capture_fast_noise bench 900e6 (-10) 1 false unset_session)
  = Raise CRS.empty_sequence.
Proof.
  split; [|split].
  - destruct (@capture_fast_noise_always_raises bench 1600e6 (-10) 1 false two_modules)
      as (_ & _ & _ & A).
    apply (A 2%Z 1200e6); [vm_compute; reflexivity|reflexivity|vm_compute; reflexivity].
  - destruct (@capture_fast_noise_always_raises bench 900e6 (-10) 1 false two_modules)
      as (_ & _ & _ & A).
    apply (A 2%Z 1200e6); [vm_compute; reflexivity|reflexivity|vm_compute; discriminate].
  - destruct (@capture_fast_noise_always_raises bench 900e6 (-10) 1 false unset_session)
      as (_ & _ & A & _).
    apply A. reflexivity.
Defined.

Lemma write_tones_drops_unpaired_entries_witness :
  @CRS.write_tones bench three_tones [-10; -20] two_modules =
  @CRS.write_tones bench [500.1e6; 1200.2e6] [-10; -20] two_modules /\
  Permutation
    (concat (map snd (ch_ix_dict (snd (@CRS.write_tones bench three_tones [-10; -20]
                                         two_modules)))))
    [0%nat; 1%nat].
Proof.
  destruct (@write_tones_drops_unpaired_entries bench three_tones [-10; -20] two_modules)
    as [A B].
  split; [exact A|]. apply B. discriminate.
Defined.

Lemma empty_table_raises_witness :
  @CRS.write_tones bench three_tones three_powers unset_session =
    (Raise not_set, unset_session) /\
  @CRS.sweep bench two_sweeps two_powers 2 unset_session = (Raise not_set, unset_session) /\
  @CRS.sweep_full bench 0 3 2 unset_session = (Raise nothing_to_concatenate, unset_session) /\
  fst (@CRS.capture_noise bench three_tones three_powers 1 4 "parser" "enp2s0"
         false false false unset_session) = Raise not_set /\
  fir_stage (snd (@CRS.capture_noise bench three_tones three_powers 1 4 "parser" "enp2s0"
                    false false false unset_session)) = 4%Z.
Proof.
  destruct (@empty_table_raises bench unset_session eq_refl) as (A & B & _ & C & D).
  split; [apply A|]. split; [apply B|]. split; [apply C; discriminate|].
  destruct (D three_tones three_powers 1 4%Z "parser"%string "enp2s0"%string
              false false false eq_refl) as (D1 & _ & D3 & _).
  split; [exact D1|exact D3].
Defined.

Lemma write_tones_records_what_it_sends_witness :
  exists w',
    @CRS.write_tones bench three_tones three_powers two_modules = (Ok tt, w') /\
    trace w' =
      trace two_modules ++
      flat_map (fun m => [clear_channels m;
                          tuber_context
                            (@ReadoutModule.tone_calls bench m
                               (CRS.nco_of (nco_freq_dict w') m)
                               (entries (fres_dict w') m) (entries (ares_dict w') m))])
               (modules_in (dict_keys (nco_freq_dict w'))) /\
    nco_freq_dict w' = nco_freq_dict two_modules /\ fir_stage w' = fir_stage two_modules.
Proof.
  destruct (@CRS.write_tones bench three_tones three_powers two_modules)
    as [[[]|e] w'] eqn:E; [|vm_compute in E; discriminate E].
  exists w'. split; [reflexivity|].
  exact (@write_tones_records_what_it_sends bench three_tones three_powers two_modules w' E).
Defined.




Lemma macro_sweep_sends_nothing_witness :
  (fst (@ReadoutModule.sweep bench 1%Z [(1%Z, 500e6)] [(1%Z, [])] [(1%Z, [])] [] [] 2
          (fun _ w => w) one_module) = Ok ([], []) /\
   trace (snd (@ReadoutModule.sweep bench 1%Z [(1%Z, 500e6)] [(1%Z, [])] [(1%Z, [])] [] [] 2
                 (fun _ w => w) one_module)) = []) /\
  (fst (@ReadoutModule.sweep bench 1%Z [(1%Z, 500e6)] [(1%Z, [[500.1e6]])]
          [(1%Z, [-10; -20])] [] [] 2 (fun _ w => w) one_module)
   = Raise (ValueError "ares and frequencies are not the same length") /\
   trace (snd (@ReadoutModule.sweep bench 1%Z [(1%Z, 500e6)] [(1%Z, [[500.1e6]])]
                 [(1%Z, [-10; -20])] [] [] 2 (fun _ w => w) one_module)) = []).
Proof.
  split.
  - apply (proj1 (@macro_sweep_sends_nothing bench 1%Z [(1%Z, 500e6)] [(1%Z, [])]
                    [(1%Z, [])] [] [] 2%nat (fun _ w => w) one_module [] []
                    (fun _ _ => eq_refl) eq_refl eq_refl)).
    reflexivity.
  - apply (proj2 (@macro_sweep_sends_nothing bench 1%Z [(1%Z, 500e6)] [(1%Z, [[500.1e6]])]
                    [(1%Z, [-10; -20])] [] [] 2%nat (fun _ w => w) one_module
                    [[500.1e6]] [-10; -20] (fun _ _ => eq_refl) eq_refl eq_refl)
             ltac:(discriminate) ltac:(discriminate) 500e6 eq_refl).
Defined.



Lemma sweep_full_stays_in_band_witness :
  fst (CRS.split_sweep (full_rows (map snd (nco_freq_dict one_module)) 1)
         (map (fun _ => 0 * 1) (full_fres (map snd (nco_freq_dict one_module))))
         one_module) = Ok tt /\
  fir_stage (snd (@CRS.sweep_full bench 0 1 2 one_module)) = 6%Z.
Proof.
  destruct (@sweep_full_stays_in_band bench 0 1%nat 2%nat one_module)
    as (A & B & _).
  - discriminate.
  - discriminate.
  - constructor; [intros []|constructor].
  - split; [exact A|exact B].
Defined.


Lemma macro_write_tones_missing_entries_witness :
  @ReadoutModule.write_tones bench 1%Z [(1%Z, 500e6)] [] [(1%Z, [-10])] (fun _ w => w)
    one_module = (Raise KeyError, one_module) /\
  fst (@ReadoutModule.write_tones bench 1%Z [(1%Z, 500e6)] [(1%Z, [500.1e6])] []
         (fun _ w => w) one_module) = Raise KeyError /\
  fst (@ReadoutModule.write_tones bench 1%Z [] [(1%Z, [500.1e6])] [(1%Z, [-10])]
         (fun _ w => w) one_module) = Raise nco_not_set /\
  trace (snd (@ReadoutModule.write_tones bench 1%Z [] [(1%Z, [500.1e6])] [(1%Z, [-10])]
                (fun _ w => w) one_module)) = [].
Proof.
  split; [|split].
  - apply (proj1 (@macro_write_tones_missing_entries bench 1%Z [(1%Z, 500e6)] []
                    [(1%Z, [-10])] (fun _ w => w) one_module (fun _ _ => eq_refl))).
    reflexivity.
  - apply (proj1 (proj2 (@macro_write_tones_missing_entries bench 1%Z [(1%Z, 500e6)]
                           [(1%Z, [500.1e6])] [] (fun _ w => w) one_module
                           (fun _ _ => eq_refl)))).
    reflexivity.
  - destruct (proj2 (proj2 (@macro_write_tones_missing_entries bench 1%Z []
                              [(1%Z, [500.1e6])] [(1%Z, [-10])] (fun _ w => w) one_module
                              (fun _ _ => eq_refl)))
                [500.1e6] [-10] eq_refl eq_refl eq_refl) as [A B].
    split; [now rewrite A|exact B].
Defined.

Lemma get_noise_cal_restores_routing_witness :
  (fst (@ReadoutModule.get_noise_cal bench 1%Z [(1%Z, [500.1e6])] [] one_module)
   = Raise file_not_found /\
   trace (snd (@ReadoutModule.get_noise_cal bench 1%Z [(1%Z, [500.1e6])] [] one_module)) =
   [set_dmfd_routing CARRIER 1; py_get_samples 20 1; set_dmfd_routing ADC 1]) /\
  exists zcal,
    fst (@ReadoutModule.get_noise_cal bench 1%Z [(1%Z, [500.1e6])] [] stale_session)
    = Ok [(1%Z, zcal)] /\ length zcal = 1%nat.
Proof.
  split.
  - destruct (@get_noise_cal_restores_routing bench 1%Z [(1%Z, [500.1e6])] [] one_module
                [500.1e6] eq_refl) as (T & _ & C).
    destruct C as [C _]; [intros []|]. split; [exact C|exact T].
  - destruct (@get_noise_cal_restores_routing bench 1%Z [(1%Z, [500.1e6])] [] stale_session
                [500.1e6] eq_refl) as (_ & B & _).
    destruct B as (zcal & B1 & B2 & _); [simpl; auto|].
    exists zcal. split; [exact B1|exact B2].
Defined.

